(* ===== verification/_CoqProject ===== *)
-Q . S2P
Prelude.v
JsNumber.v
StableSort.v
JsParse.v
Companies.v
Ranking.v
MarketCap.v
FeedAsync.v
Json.v
JsonText.v
Server.v
Protocol.v
Client.v
HeadlineText.v
Interaction.v
System.v
