(* ===== verification/Prelude.v ===== *)
(** * flip: a verification development

    flip tracks the market cap of a token and shows how far it is from
    the next listed company.  Its parts, under [src/src/]:
    - [cryptoflipbackend/getmarketcaps.js], the valuation feed: a
      five-minute timer fetches the SOL/USD price into [priceCache]; a
      two-second timer reads two vault balances and the configured
      supply, computes the market cap and emits it on
      [marketCapEmitter];
    - [cryptoflipbackend/server.js], the server: it loads
      [companies.csv] once ([loadCSVData]), sorted by market cap; on
      every emitted value it places the value among the companies
      ([findInsertPosition], [determineCompanies]) and broadcasts
      [{cryptoCoinMarketCap, currentCompany, nextUpCompany}] to the open
      WebSocket clients; a new client is sent the current data at once;
    - [App.js], the page: it stores each message and shows the distance
      to the current company; [components/CompanyCard.js] is a card
      component the page does not use.

    ** Files
    - [Prelude] (this file): JavaScript completions [outcome] (return,
      throw, and the model-only [OutOfFuel]), array reads at a
      JavaScript index [xs !!Z i], tactics [case_if] and [invc], the
      hint databases [flip] and [flip_rw], lemmas on sorted lists.
    - [JsNumber]: numbers as [NaN], the infinities or an exact rational;
      the operators [<], [<=], [===], [-], [*], [/], truthiness, and
      their order lemmas; [≡] identifies representations of a rational
      and every operation is [Proper] for it.
    - [StableSort]: [Array.prototype.sort] with a comparator, as stable
      insertion; permutation, sortedness and stability.
    - [JsParse]: [parseFloat] (longest numeric prefix) and the
      StringToNumber conversion of [-] on strings.
    - [Companies]: the ReferenceStore of [server.js] ([loadCSVData],
      lines 38-76; [findInsertPosition], lines 83-101) with its invariant
      [store_wf] (valid rows, ascending market caps).
    - [Ranking]: [determineCompanies] (lines 106-132), written against
      the class [RankIndex], which states what it needs of the search;
      [findInsertPosition] is the instance, and the linear scan
      [linear_index] a second one, the reference the search is compared
      with.
    - [MarketCap]: [getmarketcaps.js]: the [priceCache] record, each
      fetch with the HTTP reply as input, [calculateAndEmitMarketCap],
      and runs of timer callbacks ([feed_step], [feed_reachable]).
    - [FeedAsync]: the calls the two timers of [initMarketCapUpdates]
      start, suspended at their awaits and interleaved ([feed_state],
      [async_step]); the simulation lemma [async_step_sim] relates each
      step to a completed callback of [MarketCap].
    - [Json]: the JSON values the socket carries; [JSON.stringify] turns
      [NaN] and the infinities into [null].
    - [JsonText]: the text on the wire: [stringify] ([JSON.stringify],
      server.js lines 139 and 163) and [JSON_parse] ([JSON.parse],
      App.js line 27), a recursive-descent parser with fuel; the digits
      of a number are the class [NumberText] (Number::toString), with
      the instance [int_number_text] for integers.
    - [Server]: the server state ([companies], [cryptoMarketCap],
      [currentCompany], [nextUpCompany], [wss.clients] as a [gmap] of
      sockets with their [readyState] and the messages sent on them); the
      handlers [on_loaded], [on_connection], [on_marketcap],
      [broadcastData]; [server_step] over events and [server_reachable].
    - [Protocol]: the message type the spec fixes, as a type of JSON
      values ([has_type], [message_type]).
    - [Client]: the page state of [App.js], [onmessage], the clipboard
      feedback and its timers ([page_step]), and what is rendered
      ([render], [main_text], [CompanyCard] and its [propTypes]);
      [onmessage_text] is [ws.onmessage] on the text of a message.
    - [HeadlineText]: the headline as text: [toLocaleString] of the
      distance in the [en-US] locale ([locale_int], [group_thousands]).
    - [Interaction]: the component around that state ([app]): the effect
      that opens the socket once and closes it on unmount (lines 17-58),
      the identifier box and its clipboard writes (lines 73-82,
      141-154), [scrollToManifesto] (lines 87-93) and the static links;
      [app_step] composes them with [page_step].
    - [System]: the whole system: the feed's cache, the server and one
      browser page per socket ([system]); [sys_step] interleaves feed
      ticks (each [emit] runs the server's listener), the file load,
      connections, closings and the delivery of the next text of a
      socket to its page; its invariant [sys_inv] says each page is
      [onmessage_text] folded over the texts it read, a prefix of what
      its socket was sent.

    ** What is proved
    - The search: on a well-formed store [findInsertPosition] returns,
      reads no index out of range, ends within [log2 n + 2] iterations,
      and returns the first entry not below the value up to equal market
      caps (exactly that with distinct market caps).
    - Loading: the array [loadCSVData] resolves with is well formed,
      holds exactly the valid rows (a stable sort of them) and reports
      the others in file order.
    - The pair: [determineCompanies] always returns; the current company
      is the smallest entry at least the value (or the last entry when
      the value is above them all) and the next one follows it.
    - The feed: when a tick emits and what; the cached price is the last
      successful fetch; failed fetches, zero balances and a bad supply
      emit nothing; the price cache never holds [0] or [NaN].
    - Interleaving: the interleaved calls refine the run of completed
      callbacks, so the feed theorems hold of the program as it runs;
      calls that do not overlap emit in the order they were made, and
      overlapping calls emit in the order their requests settle, so an
      older reading or price can overwrite a newer one.
    - The server: an invariant of every reachable state (open sockets
      were last sent the current data; [currentCompany] and
      [nextUpCompany] are what [determineCompanies] gives for the current
      value; no client before the file is loaded); a new client gets the
      snapshot and then each broadcast in order; a closed socket is sent
      nothing.
    - End to end: a page whose socket is open shows the server's data,
      with its headline as a function of it and never negative while a
      company is worth at least the value; the copy feedback disappears.
    - The wire: [JSON_parse (stringify j) = Some j] for every value whose
      numbers Number::toString covers, strings with every character
      escaped as QuoteJSONString does; so a page reading the texts of
      its socket holds the server's data as one reading the values does.
      Every message the server sends has the protocol's type while the
      store's market caps are finite; an [Infinity] market cap breaks it.
    - Equivalence: behind [RankIndex] the binary search and the linear
      scan give [determineCompanies] the same result up to ties.
    - The system: whatever the interleaving, a page shows its initial
      data or the data of a state the server reached, and a page whose
      socket is open comes to show the server's current data once the
      texts in flight are delivered.
    - The page: the clipboard only ever receives the identifier the box
      displays and the feedback appears only then; once its socket has
      closed, the page is never updated again (it does not reconnect);
      every in-page link names an element of the document; the headline
      text of a page holding the server's data names [Math.floor] of the
      distance exactly (its digits without the commas read back as that
      integer, in groups of three).
    - Where the code and the spec part ways (the [findings] of the
      project manifest), general theorems state what the code does: the
      search answers with the entry it probes first when that entry
      equals the value ([findInsertPosition_returns_probe]); two
      infinite balances emit [NaN]; an [Infinity] row is kept and read as
      [0] by the page; an older call or fetch that settles last
      overwrites a newer one; [parseFloat] keeps numeric prefixes.
      Examples on fixed inputs illustrate the others: negative prices
      emitted, values lost before the file is loaded.

    ** Bounds and fuel
    The binary search is given [length + 1] iterations of fuel;
    [findInsertPosition_log] shows [log2 n + 2] suffice, so the fuel
    never runs out.  [JSON_parse] gives the parser one more unit of fuel
    than the length of the text; the round-trip proof shows that the
    size of a value is below the length of its text, so the fuel never
    runs out on a text [stringify] wrote.  The integer digits take
    [log2 |n| + 1] units of fuel, enough since each digit divides by 10.
    Every other loop of the code is a structural fold over a list (rows,
    events, clients).

    ** Not modelled
    IEEE-754 rounding, overflow and the sign of zero (numbers are exact
    rationals); non-ASCII white space in [parseFloat]; the digits
    Number::toString prints for numbers that are not integers (a class
    with a law, not an instance) and by [toLocaleString], which only
    integers reach; [\u] escapes
    above [ÿ], [true], [false] and arrays in [JSON.parse] (the server
    sends none); Express and the HTTP wiring, logging, [dotenv]; the
    CSV tokenizer (rows are inputs) and the HTTP replies (inputs of each
    fetch); the timer periods of [initMarketCapUpdates] (a run is any
    interleaving of timer firings and request completions, with no
    clock); the browser locale (taken to be [en-US]); CSS, images, the
    manifesto prose and the smooth scrolling itself.  The network is modelled by the order it
    keeps: the texts of one socket arrive in order, those of different
    sockets interleave freely. *)

From Stdlib Require Export String Ascii.
From stdpp Require Export base list options.
From Stdlib Require Export ZArith QArith Lia Lqa Sorted Permutation.

Declare Scope flip_scope.
Delimit Scope flip_scope with flip.
Open Scope flip_scope.

Create HintDb flip.
Create Rewrite HintDb flip_rw.

(** ** JavaScript completions

    A JavaScript call either returns a value or throws.  The loops of
    the code are modelled with fuel, and running out of fuel is a third,
    model-only, outcome: the termination theorems show it never happens
    with the fuel the definitions use. *)

Inductive js_error : Type :=
| TypeError       (* property read on [undefined] *)
| FileReadError   (* fs.createReadStream emitted 'error' *)
| NetworkError.   (* axios rejected *)

Inductive outcome (A : Type) : Type :=
| Returns (a : A)
| Throws (e : js_error)
| OutOfFuel.
Arguments Returns {A} a.
Arguments Throws {A} e.
Arguments OutOfFuel {A}.

#[export] Instance outcome_ret : MRet outcome := @Returns.
#[export] Instance outcome_bind : MBind outcome := fun A B f m =>
  match m with
  | Returns a => f a
  | Throws e => Throws e
  | OutOfFuel => OutOfFuel
  end.

Lemma outcome_bind_Returns {A B} (a : A) (f : A -> outcome B) :
  (Returns a ≫= f) = f a.
Proof. reflexivity. Qed.

Lemma outcome_bind_inv {A B} (m : outcome A) (f : A -> outcome B) b :
  (m ≫= f) = Returns b -> exists a, m = Returns a /\ f a = Returns b.
Proof. destruct m; simpl; [eauto | discriminate | discriminate]. Qed.

#[export] Hint Rewrite @outcome_bind_Returns : flip_rw.

(** ** Arrays indexed by JavaScript numbers

    [companies[mid]] reads an array at a (whole) number; a negative or
    too large index yields [undefined], i.e. [None]. *)

Definition zlookup {A} (xs : list A) (i : Z) : option A :=
  if (i <? 0)%Z then None else xs !! Z.to_nat i.
Notation "xs !!Z i" := (zlookup xs i) (at level 20) : flip_scope.

Lemma zlookup_of_nat {A} (xs : list A) (n : nat) :
  xs !!Z (Z.of_nat n) = xs !! n.
Proof.
  unfold zlookup. destruct (Z.ltb_spec (Z.of_nat n) 0); [lia|].
  by rewrite Nat2Z.id.
Qed.

Lemma zlookup_Some_range {A} (xs : list A) i x :
  xs !!Z i = Some x -> (0 <= i < Z.of_nat (length xs))%Z.
Proof.
  unfold zlookup. destruct (Z.ltb_spec i 0); [discriminate|].
  intros Hl%lookup_lt_Some. lia.
Qed.

Lemma zlookup_in_range {A} (xs : list A) i :
  (0 <= i < Z.of_nat (length xs))%Z -> exists x, xs !!Z i = Some x.
Proof.
  intros Hi. replace i with (Z.of_nat (Z.to_nat i)) by lia.
  rewrite zlookup_of_nat. apply lookup_lt_is_Some_2. lia.
Qed.

Lemma zlookup_to_nat {A} (xs : list A) i x :
  xs !!Z i = Some x -> xs !! Z.to_nat i = Some x.
Proof. unfold zlookup. by destruct (i <? 0)%Z. Qed.

Lemma zlookup_out_of_range {A} (xs : list A) i :
  (i < 0 \/ Z.of_nat (length xs) <= i)%Z -> xs !!Z i = None.
Proof.
  intros Hi. destruct (xs !!Z i) eqn:E; [|done].
  apply zlookup_Some_range in E. lia.
Qed.

Lemma elem_of_zlookup {A} (xs : list A) x : x ∈ xs <-> exists i, xs !!Z i = Some x.
Proof.
  rewrite list_elem_of_lookup. split.
  - intros [i Hi]. exists (Z.of_nat i). by rewrite zlookup_of_nat.
  - intros [i Hi]. exists (Z.to_nat i). by apply zlookup_to_nat.
Qed.

Lemma zlookup_last {A} (xs : list A) :
  xs <> [] -> xs !!Z (Z.of_nat (length xs) - 1) = last xs.
Proof.
  intros Hne. rewrite last_lookup. destruct xs as [|x xs]; [done|].
  replace (Z.of_nat (length (x :: xs)) - 1)%Z with (Z.of_nat (pred (length (x :: xs))))
    by (simpl; lia).
  apply zlookup_of_nat.
Qed.

#[export] Hint Resolve zlookup_Some_range zlookup_in_range zlookup_to_nat : flip.

(** ** Tactics shared by the development *)

(** Case on the boolean conditions of an [if] in the goal, keeping the
    equation, innermost condition first. *)
Ltac case_if :=
  match goal with
  | |- context [if ?b then _ else _] =>
      lazymatch b with
      | context [if _ then _ else _] => fail
      | _ => let E := fresh "E" in destruct b eqn:E
      end
  end.

(** Invert a hypothesis and substitute. *)
Ltac invc H := inversion H; subst; clear H.

(** ** Sorted lists *)

(** [Sorted] gives [StronglySorted] for a relation that is transitive
    on the elements that satisfy [P]. *)
Lemma Forall_Sorted_StronglySorted {A} (R : A -> A -> Prop) (P : A -> Prop) l :
  (forall a b c, P a -> P b -> P c -> R a b -> R b c -> R a c) ->
  Forall P l -> Sorted R l -> StronglySorted R l.
Proof.
  intros Htr. induction l as [|x l IH]; intros Hl Hs; [constructor|].
  invc Hl. apply Sorted_inv in Hs as [Hs Hhd].
  constructor; [by apply IH|].
  clear IH. revert x Hhd H1. induction l as [|y l IH]; intros x Hhd Hx; [done|].
  invc Hhd. match goal with HP : Forall P (y :: l) |- _ => invc HP end.
  apply Sorted_inv in Hs as [Hs Hhd].
  constructor; [done|]. apply IH; [done..| |done].
  destruct l as [|z l]; [constructor|]. invc Hhd. constructor.
  match goal with HP : Forall P (z :: l) |- _ => invc HP end. eauto.
Qed.

(** Any two positions of a strongly sorted list are related. *)
Lemma StronglySorted_lookup {A} (R : A -> A -> Prop) l i j a b :
  StronglySorted R l -> (i < j)%nat -> l !! i = Some a -> l !! j = Some b -> R a b.
Proof.
  intros Hs. revert i j. induction Hs as [|x l Hs IH Hall]; intros i j Hij Hi Hj;
    [done|].
  destruct i as [|i], j as [|j]; simpl in *; [lia| |lia|].
  - invc Hi. rewrite Forall_forall in Hall. apply Hall.
    by eapply list_elem_of_lookup_2.
  - apply (IH i j); [lia|done..].
Qed.

(** Mapping a strongly sorted list to a weaker relation, on the
    elements that satisfy [P]. *)
Lemma StronglySorted_weaken {A} (R R' : A -> A -> Prop) (P : A -> Prop) l :
  (forall a b, P a -> P b -> R a b -> R' a b) ->
  Forall P l -> StronglySorted R l -> StronglySorted R' l.
Proof.
  intros HRR' Hl Hs. induction Hs as [|x l Hs IH Hall]; [constructor|].
  invc Hl. constructor; [by apply IH|].
  rewrite Forall_forall in *. intros y Hy. apply HRR'; auto.
Qed.
