(* ===== verification/JsNumber.v ===== *)
(** * JavaScript numbers as the code uses them

    A JavaScript number is an IEEE-754 double.  The code of flip only
    compares, subtracts, multiplies and divides numbers and tests them
    for [NaN] and truthiness, so a number is modelled by its class
    ([NaN], [+Infinity], [-Infinity]) or, when finite, by its exact
    rational value.  Rounding, overflow to infinity and the sign of zero
    are not modelled (see the header of [Prelude]).  Two representations
    of the same rational are the same JavaScript number: [≡] below is
    that equivalence, and every operation respects it. *)

From S2P Require Import Prelude.

Inductive number : Type :=
| NaN
| PosInf
| NegInf
| Fin (q : Q).

(** ** Boolean tests on rationals *)

Definition Qltb (a b : Q) : bool := negb (Qle_bool b a).

Lemma Qltb_reflect a b : reflect (a < b)%Q (Qltb a b).
Proof.
  unfold Qltb. destruct (Qle_bool b a) eqn:E; constructor.
  - intros H. apply Qle_bool_iff in E. lra.
  - apply Qnot_le_lt. rewrite <- Qle_bool_iff. congruence.
Qed.

Lemma Qle_bool_reflect a b : reflect (a <= b)%Q (Qle_bool a b).
Proof. apply iff_reflect. symmetry. apply Qle_bool_iff. Qed.

Lemma Qeq_bool_reflect a b : reflect (a == b)%Q (Qeq_bool a b).
Proof. apply iff_reflect. symmetry. apply Qeq_bool_iff. Qed.

(** [qcase] turns every boolean test on rationals in the goal and the
    hypotheses into the proposition it decides. *)
Ltac qcase :=
  repeat match goal with
  | |- context [Qltb ?a ?b] => destruct (Qltb_reflect a b)
  | |- context [Qle_bool ?a ?b] => destruct (Qle_bool_reflect a b)
  | |- context [Qeq_bool ?a ?b] => destruct (Qeq_bool_reflect a b)
  | H : context [Qltb ?a ?b] |- _ => destruct (Qltb_reflect a b)
  | H : context [Qle_bool ?a ?b] |- _ => destruct (Qle_bool_reflect a b)
  | H : context [Qeq_bool ?a ?b] |- _ => destruct (Qeq_bool_reflect a b)
  end.

(** ** The operators of the code *)

(** [isNaN(x)] *)
Definition isNaN (x : number) : bool :=
  match x with NaN => true | _ => false end.

(** [Boolean(x)]: [if (x)], [!x], [x || y] *)
Definition truthy (x : number) : bool :=
  match x with
  | NaN => false
  | Fin q => negb (Qeq_bool q 0)
  | _ => true
  end.

(** [x < y] *)
Definition num_lt (x y : number) : bool :=
  match x, y with
  | Fin a, Fin b => Qltb a b
  | NegInf, (Fin _ | PosInf) => true
  | Fin _, PosInf => true
  | _, _ => false
  end.

(** [x === y] *)
Definition strict_eq (x y : number) : bool :=
  match x, y with
  | Fin a, Fin b => Qeq_bool a b
  | PosInf, PosInf | NegInf, NegInf => true
  | _, _ => false
  end.

(** [x <= y] is false when either side is [NaN]. *)
Definition num_le (x y : number) : bool :=
  negb (isNaN x) && negb (isNaN y) && negb (num_lt y x).

Definition num_gt (x y : number) : bool := num_lt y x.
Definition num_ge (x y : number) : bool := num_le y x.

(** The sign of an infinite result. *)
Definition inf_of (pos : bool) : number := if pos then PosInf else NegInf.

(** [x - y] *)
Definition num_sub (x y : number) : number :=
  match x, y with
  | Fin a, Fin b => Fin (a - b)
  | Fin _, PosInf | NegInf, (Fin _ | PosInf) => NegInf
  | Fin _, NegInf | PosInf, (Fin _ | NegInf) => PosInf
  | _, _ => NaN
  end.

(** A finite [a] times an infinity of sign [pos]. *)
Definition mul_inf (a : Q) (pos : bool) : number :=
  if Qeq_bool a 0 then NaN else inf_of (Bool.eqb (Qltb 0 a) pos).

(** An infinity of sign [pos] divided by a finite [b] ([0] is [+0]). *)
Definition inf_div (b : Q) (pos : bool) : number :=
  inf_of (Bool.eqb (negb (Qltb b 0)) pos).

(** [x * y] *)
Definition num_mul (x y : number) : number :=
  match x, y with
  | Fin a, Fin b => Fin (a * b)
  | Fin a, PosInf | PosInf, Fin a => mul_inf a true
  | Fin a, NegInf | NegInf, Fin a => mul_inf a false
  | PosInf, PosInf | NegInf, NegInf => PosInf
  | PosInf, NegInf | NegInf, PosInf => NegInf
  | _, _ => NaN
  end.

(** [x / y]; a zero divisor is [+0]. *)
Definition num_div (x y : number) : number :=
  match x, y with
  | Fin a, Fin b =>
      if Qeq_bool b 0 then
        (if Qeq_bool a 0 then NaN else inf_of (Qltb 0 a))
      else Fin (a / b)
  | Fin _, (PosInf | NegInf) => Fin 0
  | PosInf, Fin b => inf_div b true
  | NegInf, Fin b => inf_div b false
  | _, _ => NaN
  end.

Notation "x <js y" := (num_lt x y) (at level 65, no associativity) : flip_scope.
Notation "x <=js y" := (num_le x y) (at level 65, no associativity) : flip_scope.
Notation "x >js y" := (num_gt x y) (at level 65, no associativity) : flip_scope.
Notation "x >=js y" := (num_ge x y) (at level 65, no associativity) : flip_scope.
Notation "x ===js y" := (strict_eq x y) (at level 65, no associativity) : flip_scope.
Notation "x -js y" := (num_sub x y) (at level 50, left associativity) : flip_scope.
Notation "x *js y" := (num_mul x y) (at level 40, left associativity) : flip_scope.
Notation "x /js y" := (num_div x y) (at level 40, left associativity) : flip_scope.

(** ** Equality of representations *)

#[export] Instance number_equiv : Equiv number := fun x y =>
  match x, y with
  | Fin a, Fin b => (a == b)%Q
  | _, _ => x = y
  end.

#[export] Instance number_equivalence : Equivalence (≡@{number}).
Proof.
  split.
  - intros []; unfold equiv, number_equiv; reflexivity.
  - intros [] [] H; unfold equiv, number_equiv in *; cbn in *; try congruence; lra.
  - intros [] [] [] H1 H2; unfold equiv, number_equiv in *; cbn in *; try congruence; lra.
Qed.

Lemma number_equiv_unfold x y :
  x ≡ y <-> match x, y with Fin a, Fin b => (a == b)%Q | _, _ => x = y end.
Proof. reflexivity. Qed.

(** Case on every number in the context, then on every test on
    rationals, and close what arithmetic closes. *)
Ltac num_cases :=
  repeat match goal with
  | x : number |- _ => destruct x
  end;
  repeat match goal with
  | H : _ ≡ _ |- _ => apply number_equiv_unfold in H; simpl in H
  | |- _ ≡ _ => apply number_equiv_unfold
  end;
  simpl in *; qcase;
  try congruence; try lra.

(** ** The order of non-[NaN] numbers

    [<] and [===] form a strict total order on the numbers that are not
    [NaN]; the binary search and the sort rely on nothing else. *)

Lemma num_lt_irrefl x : x <js x = false.
Proof. num_cases. Qed.

Lemma num_lt_trans x y z : x <js y = true -> y <js z = true -> x <js z = true.
Proof. num_cases. Qed.

Lemma num_lt_asym x y : x <js y = true -> y <js x = false.
Proof. num_cases. Qed.

Lemma num_lt_not_nan_l x y : x <js y = true -> isNaN x = false.
Proof. num_cases. Qed.

Lemma num_lt_not_nan_r x y : x <js y = true -> isNaN y = false.
Proof. num_cases. Qed.

Lemma num_trichotomy x y :
  isNaN x = false -> isNaN y = false ->
  x <js y = true \/ x ===js y = true \/ y <js x = true.
Proof. num_cases. Qed.

Lemma strict_eq_refl x : isNaN x = false -> x ===js x = true.
Proof. num_cases. Qed.

Lemma strict_eq_sym x y : x ===js y = y ===js x.
Proof. num_cases. Qed.

Lemma strict_eq_trans x y z :
  x ===js y = true -> y ===js z = true -> x ===js z = true.
Proof. num_cases. Qed.

Lemma strict_eq_not_nan x y : x ===js y = true -> isNaN x = false /\ isNaN y = false.
Proof. num_cases. Qed.

Lemma strict_eq_lt_l x y z : x ===js y = true -> x <js z = y <js z.
Proof. num_cases. Qed.

Lemma strict_eq_lt_r x y z : x ===js y = true -> z <js x = z <js y.
Proof. num_cases. Qed.

Lemma strict_eq_not_lt x y : x ===js y = true -> x <js y = false.
Proof. num_cases. Qed.

Lemma num_le_spec x y :
  x <=js y = true <-> isNaN x = false /\ isNaN y = false /\ y <js x = false.
Proof. unfold num_le. destruct (isNaN x), (isNaN y), (y <js x); simpl; intuition congruence. Qed.

Lemma num_le_trans x y z : x <=js y = true -> y <=js z = true -> x <=js z = true.
Proof. rewrite !num_le_spec. num_cases; intuition (try congruence; lra). Qed.

Lemma num_lt_le x y : x <js y = true -> x <=js y = true.
Proof. rewrite num_le_spec. num_cases. Qed.

Lemma num_le_lt_trans x y z : x <=js y = true -> y <js z = true -> x <js z = true.
Proof. rewrite num_le_spec. num_cases; intuition (try congruence; lra). Qed.

Lemma num_lt_le_trans x y z : x <js y = true -> y <=js z = true -> x <js z = true.
Proof. rewrite num_le_spec. num_cases; intuition (try congruence; lra). Qed.

Lemma num_not_lt_le x y :
  isNaN x = false -> isNaN y = false -> x <js y = false -> y <=js x = true.
Proof. rewrite num_le_spec. auto. Qed.

Lemma strict_eq_le x y : x ===js y = true -> x <=js y = true.
Proof. rewrite num_le_spec. num_cases. Qed.

#[export] Hint Resolve num_lt_trans num_le_trans num_lt_le num_le_lt_trans
  num_lt_le_trans strict_eq_le num_lt_irrefl num_lt_asym : flip.

(** ** Operations respect equality of representations *)

#[export] Instance num_lt_proper : Proper ((≡) ==> (≡) ==> (=)) num_lt.
Proof. intros x x' Hx y y' Hy. num_cases. Qed.

#[export] Instance strict_eq_proper : Proper ((≡) ==> (≡) ==> (=)) strict_eq.
Proof. intros x x' Hx y y' Hy. num_cases. Qed.

#[export] Instance isNaN_proper : Proper ((≡) ==> (=)) isNaN.
Proof. intros x x' Hx. num_cases. Qed.

#[export] Instance truthy_proper : Proper ((≡) ==> (=)) truthy.
Proof. intros x x' Hx. num_cases. Qed.

#[export] Instance num_le_proper : Proper ((≡) ==> (≡) ==> (=)) num_le.
Proof. intros x x' Hx y y' Hy. unfold num_le. by rewrite Hx, Hy. Qed.

#[export] Instance num_sub_proper : Proper ((≡) ==> (≡) ==> (≡)) num_sub.
Proof. intros x x' Hx y y' Hy. num_cases. Qed.

#[export] Instance num_mul_proper : Proper ((≡) ==> (≡) ==> (≡)) num_mul.
Proof.
  intros x x' Hx y y' Hy.
  num_cases; unfold mul_inf; qcase; try reflexivity; try lra.
  all: rewrite Hx, Hy; reflexivity.
Qed.

#[export] Instance num_div_proper : Proper ((≡) ==> (≡) ==> (≡)) num_div.
Proof.
  intros x x' Hx y y' Hy.
  num_cases; unfold inf_div; qcase; try reflexivity; try lra.
  all: rewrite Hx, Hy; reflexivity.
Qed.

(** [a - b > 0] is [b < a] when neither is [NaN] (with [∞ - ∞ = NaN]
    and [NaN > 0] false on both sides). *)
Lemma num_sub_gt0 x y :
  isNaN x = false -> isNaN y = false -> (x -js y) >js Fin 0 = (y <js x).
Proof. unfold num_gt. num_cases. Qed.

(** Negative transitivity of [<] on the numbers that are not [NaN]. *)
Lemma num_lt_neg_trans x y z :
  isNaN y = false -> z <js x = true -> y <js x = true \/ z <js y = true.
Proof. num_cases. Qed.

(** Two numbers neither of which is below the other are equal. *)
Lemma num_le_not_lt_eq x y : x <=js y = true -> x <js y = false -> x ===js y = true.
Proof. rewrite num_le_spec. num_cases. Qed.

Lemma num_le_refl x : isNaN x = false -> x <=js x = true.
Proof. rewrite num_le_spec. num_cases. Qed.

Lemma num_le_strict_eq_r x y z : x <=js y = true -> y ===js z = true -> x <=js z = true.
Proof. rewrite !num_le_spec. num_cases; intuition (try congruence; lra). Qed.

Lemma strict_eq_lt_absurd x y z :
  x ===js z = true -> y ===js z = true -> x <js y = false.
Proof. num_cases. Qed.

Lemma strict_eq_le_trans x y z : x ===js y = true -> y <=js z = true -> x <=js z = true.
Proof. rewrite !num_le_spec. num_cases; intuition (try congruence; lra). Qed.

Lemma strict_eq_ge x y : x ===js y = true -> y <=js x = true.
Proof. rewrite num_le_spec. num_cases. Qed.

(** Trichotomy, the way the search uses it. *)
Lemma num_gt_of_not_lt_not_eq x y :
  isNaN x = false -> isNaN y = false -> x <js y = false -> x ===js y = false ->
  y <js x = true.
Proof. num_cases. Qed.

Lemma num_le_not_lt x y : x <=js y = true -> y <js x = false.
Proof. rewrite num_le_spec. tauto. Qed.

Lemma strict_eq_equiv x y : x ===js y = true -> x ≡ y.
Proof. num_cases. Qed.

(** Products of positive numbers are positive ([+Infinity] included). *)
Lemma num_mul_pos x y : Fin 0 <js x = true -> Fin 0 <js y = true -> Fin 0 <js (x *js y) = true.
Proof.
  destruct x as [| | |a], y as [| | |b]; simpl; try discriminate; unfold mul_inf, inf_of;
    qcase; try reflexivity; try lra; intros; try nra.
Qed.

(** A positive number divided by a positive finite number is positive. *)
Lemma num_div_pos x b : Fin 0 <js x = true -> (0 < b)%Q -> Fin 0 <js (x /js Fin b) = true.
Proof.
  destruct x as [| | |a]; simpl; try discriminate; unfold inf_div, inf_of;
    qcase; try reflexivity; try lra; intros.
  exfalso. apply n0. apply Qlt_shift_div_l; lra.
Qed.

#[export] Instance number_equiv_dec : RelDecision (≡@{number}).
Proof.
  intros [| | |a] [| | |b];
    try (left; reflexivity); try (right; intros H; inversion H; fail).
  destruct (Qeq_dec a b); [left|right]; done.
Defined.

#[export] Instance option_number_equiv_dec : RelDecision (≡@{option number}).
Proof.
  intros [x|] [y|].
  - destruct (decide (x ≡ y)) as [Hxy|Hxy]; [left; by constructor|right].
    intros H. inversion H. done.
  - right. intros H. inversion H.
  - right. intros H. inversion H.
  - left. constructor.
Defined.
