(* ===== verification/StableSort.v ===== *)
(** * [Array.prototype.sort] with a comparator

    [server.js] sorts the loaded companies with
    [results.sort((a, b) => a.marketcap - b.marketcap)].  Since ES2019
    the sort is required to be stable, and for a consistent comparator
    its result is the stable sorted permutation of the input.  The sort
    is modelled by insertion, from the right end of the array, of each
    element in front of the first element it is not greater than: an
    element is placed after another exactly when the comparator returns
    a positive number.  This file is generic in the element type and the
    comparator's "greater than" test; [Companies] instantiates it. *)

From S2P Require Import Prelude.
From Stdlib Require Import Sorted Permutation.

Section StableSort.
Context {A : Type} (gt : A -> A -> bool).

Fixpoint insert_sorted (x : A) (l : list A) : list A :=
  match l with
  | [] => [x]
  | y :: l' => if gt x y then y :: insert_sorted x l' else x :: l
  end.

Definition sort_stable (l : list A) : list A := foldr insert_sorted [] l.

(** [a] may precede [b] in the output. *)
Definition sort_le (a b : A) : Prop := gt a b = false.

(** Neither element sorts after the other. *)
Definition same_key (a b : A) : bool := negb (gt a b) && negb (gt b a).

Lemma insert_sorted_perm x l : Permutation (insert_sorted x l) (x :: l).
Proof.
  induction l as [|y l IH]; simpl; [done|].
  destruct (gt x y); [|done].
  rewrite IH. constructor.
Qed.

Lemma sort_stable_perm l : Permutation (sort_stable l) l.
Proof.
  induction l as [|x l IH]; simpl; [done|].
  rewrite insert_sorted_perm. by constructor.
Qed.

Lemma sort_stable_length l : length (sort_stable l) = length l.
Proof. apply Permutation_length, sort_stable_perm. Qed.

Lemma sort_stable_elem x l : In x (sort_stable l) <-> In x l.
Proof. split; apply Permutation_in; [|symmetry]; apply sort_stable_perm. Qed.

(** A comparator consistent on the elements that satisfy [P]: there,
    "greater than" is asymmetric and negatively transitive (a strict
    weak order).  [server.js] only sorts rows whose market cap is a
    number, and [NaN] is where [a.marketcap - b.marketcap] is not
    consistent. *)
Context (P : A -> Prop).
Hypothesis gt_asym : forall a b, P a -> P b -> gt a b = true -> gt b a = false.
Hypothesis gt_neg_trans : forall a b c, P a -> P b -> P c ->
  gt a c = true -> gt a b = true \/ gt b c = true.

Lemma sort_le_trans a b c :
  P a -> P b -> P c -> sort_le a b -> sort_le b c -> sort_le a c.
Proof using gt_neg_trans.
  unfold sort_le. intros Ha Hb Hc Hab Hbc.
  destruct (gt a c) eqn:E; [|done].
  destruct (gt_neg_trans a b c Ha Hb Hc E); congruence.
Qed.

Lemma insert_sorted_HdRel y x l :
  HdRel sort_le y l -> sort_le y x -> HdRel sort_le y (insert_sorted x l).
Proof.
  destruct l as [|z l]; simpl; intros H Hyx; [by constructor|].
  destruct (gt x z); constructor; [by invc H | done].
Qed.

Lemma insert_sorted_Sorted x l :
  P x -> Forall P l -> Sorted sort_le l -> Sorted sort_le (insert_sorted x l).
Proof using gt_asym.
  intros Hx. induction l as [|y l IH]; simpl; intros Hl Hs; [by repeat constructor|].
  invc Hl. destruct (gt x y) eqn:E; invc Hs.
  - constructor; [by apply IH|].
    apply insert_sorted_HdRel; [done|]. by apply gt_asym.
  - constructor; [by constructor|]. by constructor.
Qed.

Lemma sort_stable_Forall l : Forall P l -> Forall P (sort_stable l).
Proof.
  intros Hl. eapply Permutation_Forall; [|done].
  symmetry. apply sort_stable_perm.
Qed.

Lemma sort_stable_Sorted l : Forall P l -> Sorted sort_le (sort_stable l).
Proof using gt_asym.
  induction l as [|x l IH]; simpl; intros Hl; [constructor|]. invc Hl.
  apply insert_sorted_Sorted; auto using sort_stable_Forall.
Qed.

Lemma sort_stable_StronglySorted l :
  Forall P l -> StronglySorted sort_le (sort_stable l).
Proof using gt_asym gt_neg_trans.
  intros Hl. apply Forall_Sorted_StronglySorted with P.
  - intros a b c ?????. by apply sort_le_trans with b.
  - by apply sort_stable_Forall.
  - by apply sort_stable_Sorted.
Qed.

(** Inserting [x] keeps the elements of [x]'s key class in order, with
    [x] first: it stops before the first element it is not greater
    than, and every element it passes has a different key. *)
Lemma insert_sorted_filter k x l :
  P k -> P x -> Forall P l ->
  List.filter (same_key k) (insert_sorted x l) =
  if same_key k x then x :: List.filter (same_key k) l
  else List.filter (same_key k) l.
Proof using gt_neg_trans.
  intros Hk Hx. induction l as [|y l IH]; simpl; intros Hl;
    [by destruct (same_key k x)|].
  invc Hl. destruct (gt x y) eqn:Exy; simpl; [|by destruct (same_key k x)].
  rewrite IH by done. unfold same_key.
  destruct (gt k x) eqn:Ekx, (gt x k) eqn:Exk, (gt k y) eqn:Eky,
    (gt y k) eqn:Eyk; simpl; try done;
  destruct (gt_neg_trans x k y); congruence.
Qed.

Lemma sort_stable_filter k l :
  P k -> Forall P l ->
  List.filter (same_key k) (sort_stable l) = List.filter (same_key k) l.
Proof using gt_neg_trans.
  intros Hk. induction l as [|x l IH]; simpl; intros Hl; [done|]. invc Hl.
  rewrite insert_sorted_filter, IH; auto using sort_stable_Forall.
Qed.
End StableSort.
