(* ===== verification/JsParse.v ===== *)
(** * [parseFloat]

    The code converts text to numbers with [parseFloat] in three places:
    the [marketcap] column of the CSV file ([server.js] line 49), the
    [TOKEN_TOTAL_SUPPLY] environment variable ([getmarketcaps.js] line
    94) and the balance of a vault ([getmarketcaps.js] line 73).  This is
    the ECMAScript algorithm: skip leading white space, then read the
    longest prefix that is a StrDecimalLiteral (an optional sign, then
    [Infinity] or decimal digits with an optional fraction and an
    optional exponent); no such prefix gives [NaN].  Only the ASCII
    white-space characters are modelled.  The file also holds
    StringToNumber ([string_to_number]), the conversion the page's [-]
    applies to a string, and proves that [parseFloat] of digits followed
    by text that cannot continue a number is the value of the digits. *)

From S2P Require Import Prelude JsNumber.

Definition is_digit (c : ascii) : bool :=
  (48 <=? nat_of_ascii c)%nat && (nat_of_ascii c <=? 57)%nat.

Definition digit_value (c : ascii) : Z := Z.of_nat (nat_of_ascii c - 48).

(** TAB, LF, VT, FF, CR and SPACE *)
Definition is_js_space (c : ascii) : bool :=
  let n := nat_of_ascii c in ((9 <=? n) && (n <=? 13))%nat || (n =? 32)%nat.

Fixpoint trim_start (s : list ascii) : list ascii :=
  match s with
  | c :: s' => if is_js_space c then trim_start s' else s
  | [] => []
  end.

(** The longest prefix of decimal digits, and the rest. *)
Fixpoint take_digits (s : list ascii) : list ascii * list ascii :=
  match s with
  | c :: s' =>
      if is_digit c then let '(d, r) := take_digits s' in (c :: d, r)
      else ([], s)
  | [] => ([], [])
  end.

Definition digits_value (ds : list ascii) : Z :=
  fold_left (fun acc c => 10 * acc + digit_value c)%Z ds 0%Z.

(** The exponent part [e+12] / [E-3] / [e7], or [0] when the text does
    not continue with a complete exponent (then the [e] is not part of
    the longest prefix). *)
Definition parse_exponent (s : list ascii) : Z :=
  match s with
  | e :: r =>
      if (e =? "e")%char || (e =? "E")%char then
        let '(sgn, r') :=
          match r with
          | c :: r' =>
              if (c =? "+")%char then (1%Z, r')
              else if (c =? "-")%char then ((-1)%Z, r')
              else (1%Z, r)
          | [] => (1%Z, r)
          end in
        let '(d, _) := take_digits r' in
        match d with [] => 0%Z | _ => (sgn * digits_value d)%Z end
      else 0%Z
  | [] => 0%Z
  end.

Definition infinity_text : list ascii := list_ascii_of_string "Infinity".

Fixpoint is_prefix (p s : list ascii) : bool :=
  match p, s with
  | [], _ => true
  | c :: p', d :: s' => (c =? d)%char && is_prefix p' s'
  | _ :: _, [] => false
  end.

(** StrUnsignedDecimalLiteral *)
Definition parse_unsigned (s : list ascii) : number :=
  if is_prefix infinity_text s then PosInf
  else
    let '(d1, r1) := take_digits s in
    let '(d2, r2) :=
      match r1 with
      | c :: r => if (c =? ".")%char then take_digits r else ([], r1)
      | [] => ([], r1)
      end in
    match d1 ++ d2 with
    | [] => NaN
    | ds => Fin (inject_Z (digits_value ds) *
                 Qpower (inject_Z 10) (parse_exponent r2 - Z.of_nat (length d2)))
    end.

Definition num_neg (x : number) : number :=
  match x with
  | NaN => NaN
  | PosInf => NegInf
  | NegInf => PosInf
  | Fin q => Fin (- q)
  end.

Definition parseFloat (s : string) : number :=
  match trim_start (list_ascii_of_string s) with
  | c :: r =>
      if (c =? "-")%char then num_neg (parse_unsigned r)
      else if (c =? "+")%char then parse_unsigned r
      else parse_unsigned (c :: r)
  | [] => NaN
  end.

(** [parseFloat(undefined)]: [undefined] converts to the text
    ["undefined"], which is [NaN]. *)
Definition parseFloat_opt (s : option string) : number :=
  match s with
  | Some s => parseFloat s
  | None => NaN
  end.

(** Truthiness of a value that is a string or [undefined]: [if (s)]. *)
Definition str_truthy (s : option string) : bool :=
  match s with Some s => negb (String.eqb s "") | None => false end.

(** ** [ToNumber] of a string

    The page subtracts values it read from a message ([App.js] line
    104); a string operand of [-] is converted by StringToNumber, which
    unlike [parseFloat] needs the whole text (white space trimmed at
    both ends) to be a numeric literal, reads the empty text as [0], and
    accepts [0x], [0o] and [0b] integer literals, without a sign. *)

Definition trim (s : list ascii) : list ascii := rev (trim_start (rev (trim_start s))).

(** The value of a digit in base [b] (2, 8 or 16), if it is one. *)
Definition radix_digit (b : Z) (c : ascii) : option Z :=
  let n := Z.of_nat (nat_of_ascii c) in
  let v := if ((48 <=? n) && (n <=? 57))%Z then Some (n - 48)%Z
           else if ((97 <=? n) && (n <=? 102))%Z then Some (n - 87)%Z
           else if ((65 <=? n) && (n <=? 70))%Z then Some (n - 55)%Z
           else None in
  match v with Some d => if (d <? b)%Z then Some d else None | None => None end.

Fixpoint radix_value (b acc : Z) (s : list ascii) : option Z :=
  match s with
  | [] => Some acc
  | c :: r => d ← radix_digit b c; radix_value b (b * acc + d)%Z r
  end.

(** [0x1F], [0o17], [0b101]: at least one digit. *)
Definition non_decimal (s : list ascii) : option number :=
  match s with
  | z :: x :: ((_ :: _) as r) =>
      if (z =? "0")%char then
        let b := if (x =? "x")%char || (x =? "X")%char then 16%Z
                 else if (x =? "o")%char || (x =? "O")%char then 8%Z
                 else if (x =? "b")%char || (x =? "B")%char then 2%Z else 0%Z in
        if (b =? 0)%Z then None else Fin ∘ inject_Z <$> radix_value b 0 r
      else None
  | _ => None
  end.

(** An exponent that ends the text: nothing, or [e]/[E], an optional
    sign and at least one digit. *)
Definition exponent_full (s : list ascii) : option Z :=
  match s with
  | [] => Some 0%Z
  | e :: r =>
      if (e =? "e")%char || (e =? "E")%char then
        let '(sgn, r') :=
          match r with
          | c :: r' =>
              if (c =? "+")%char then (1%Z, r')
              else if (c =? "-")%char then ((-1)%Z, r')
              else (1%Z, r)
          | [] => (1%Z, r)
          end in
        match take_digits r' with
        | ((_ :: _) as d, []) => Some (sgn * digits_value d)%Z
        | _ => None
        end
      else None
  end.

(** StrUnsignedDecimalLiteral, which must be the whole text. *)
Definition decimal_full (s : list ascii) : option number :=
  if is_prefix infinity_text s then
    (if (length s =? length infinity_text)%nat then Some PosInf else None)
  else
    let '(d1, r1) := take_digits s in
    let '(d2, r2) :=
      match r1 with
      | c :: r => if (c =? ".")%char then take_digits r else ([], r1)
      | [] => ([], r1)
      end in
    match d1 ++ d2 with
    | [] => None
    | ds => e ← exponent_full r2;
            Some (Fin (inject_Z (digits_value ds) *
                       Qpower (inject_Z 10) (e - Z.of_nat (length d2))))
    end.

Definition string_to_number (s : string) : number :=
  match trim (list_ascii_of_string s) with
  | [] => Fin 0
  | (c :: r) as t =>
      match non_decimal t with
      | Some x => x
      | None =>
          let lit :=
            if (c =? "-")%char then num_neg <$> decimal_full r
            else if (c =? "+")%char then decimal_full r
            else decimal_full t in
          default NaN lit
      end
  end.

(** ** Lemmas on [parseFloat] *)

(** Where the longest numeric prefix ends: at the end of the text or at
    a character that cannot continue a number. *)
Definition number_stops (r : list ascii) : Prop :=
  match r with
  | [] => True
  | c :: _ => is_digit c = false /\ c <> "."%char /\ c <> "e"%char /\ c <> "E"%char
  end.

Lemma is_digit_facts c :
  is_digit c = true ->
  is_js_space c = false /\ (c =? "-")%char = false /\ (c =? "+")%char = false /\
  ("I" =? c)%char = false.
Proof. destruct c as [[] [] [] [] [] [] [] []]; vm_compute; intros H; done. Qed.

Lemma take_digits_app d r :
  Forall (fun c => is_digit c = true) d -> number_stops r -> take_digits (d ++ r) = (d, r).
Proof.
  intros Hd Hr. induction Hd as [|c d Hc _ IH]; cbn [app take_digits].
  - destruct r as [|c r]; [done|]. cbn [take_digits]. destruct Hr as [-> _]. done.
  - by rewrite Hc, IH.
Qed.

Lemma parse_exponent_stops r : number_stops r -> parse_exponent r = 0%Z.
Proof.
  destruct r as [|c r]; [done|]. intros (_ & _ & He & HE). simpl.
  destruct (Ascii.eqb_spec c "e"), (Ascii.eqb_spec c "E"); simplify_eq; done.
Qed.

Lemma digits_value_nonneg d : (0 <= digits_value d)%Z.
Proof.
  unfold digits_value.
  assert (forall acc, (0 <= acc)%Z -> (0 <= fold_left (fun acc c => 10 * acc + digit_value c)%Z d acc)%Z)
    as H; [|by apply H].
  induction d as [|c d IH]; intros acc Hacc; [done|]. simpl. apply IH.
  unfold digit_value. lia.
Qed.

(** [parseFloat] of decimal digits followed by text that cannot continue
    a number is the value of the digits. *)
Lemma parseFloat_digits d r :
  d <> [] -> Forall (fun c => is_digit c = true) d -> number_stops r ->
  parseFloat (string_of_list_ascii (d ++ r)) ≡ Fin (inject_Z (digits_value d)).
Proof.
  intros Hne Hd Hr. unfold parseFloat. rewrite list_ascii_of_string_of_list_ascii.
  destruct d as [|c d']; [done|]. pose proof (Forall_inv Hd) as Hc.
  destruct (is_digit_facts c Hc) as (Hsp & Hm & Hp & HI).
  cbn [app trim_start]. rewrite Hsp, Hm, Hp.
  unfold parse_unsigned. cbn [is_prefix infinity_text list_ascii_of_string]. rewrite HI.
  cbn [andb]. change (c :: d' ++ r) with ((c :: d') ++ r).
  rewrite (take_digits_app (c :: d') r Hd Hr).
  assert (match r with
          | c0 :: r0 => if (c0 =? ".")%char then take_digits r0 else ([], r)
          | [] => ([], r) end = ([], r)) as ->.
  { destruct r as [|c0 r0]; [done|]. destruct Hr as (_ & Hdot & _).
    by destruct (Ascii.eqb_spec c0 "."). }
  rewrite app_nil_r, (parse_exponent_stops r Hr).
  rewrite number_equiv_unfold. simpl. ring.
Qed.
