(* ===== verification/Companies.v ===== *)
(** * ReferenceStore: the sorted company list of [server.js]

    [server.js] keeps a module-level array [companies] (line 29), filled
    once by [loadCSVData] (lines 38-76) from [data/companies.csv] and
    sorted ascending by market cap, and searched by [findInsertPosition]
    (lines 83-101).  This file models both functions, the validity of a
    row and the invariant of the loaded array, and proves the binary
    search correct, terminating within a logarithmic number of
    iterations, and equal to the linear "first entry not below"
    specification up to entries of equal market cap. *)

From S2P Require Import Prelude JsNumber JsParse StableSort.

(** ** Data *)

(** The object built on line 46. *)
Record company : Type := {
  name : string;
  symbol : string;
  marketcap : number
}.

(** A row as [csv-parser] emits it: one field per header of the file;
    a column the file lacks is [undefined]. *)
Record csv_row : Type := {
  row_Name : option string;
  row_Symbol : option string;
  row_marketcap : option string
}.

(** ** [loadCSVData] *)

(** The ['data'] handler, lines 46-63: build the company, keep it when
    [name && symbol && !isNaN(marketcap) && marketcap >= 0]. *)
Definition row_company (data : csv_row) : option company :=
  let mc := parseFloat_opt (row_marketcap data) in
  if str_truthy (row_Name data) && str_truthy (row_Symbol data) &&
     negb (isNaN mc) && (mc >=js Fin 0)
  then
    match row_Name data, row_Symbol data with
    | Some n, Some s => Some {| name := n; symbol := s; marketcap := mc |}
    | _, _ => None
    end
  else None.

Definition row_rejected (data : csv_row) : bool :=
  match row_company data with Some _ => false | None => true end.

(** The array [results] and the rows reported by [console.warn]. *)
Record load_state : Type := {
  results : list company;
  skipped : list csv_row
}.

Definition on_data (st : load_state) (data : csv_row) : load_state :=
  match row_company data with
  | Some c => {| results := results st ++ [c]; skipped := skipped st |}
  | None => {| results := results st; skipped := skipped st ++ [data] |}
  end.

(** The comparator of line 67, as [Array.prototype.sort] reads it: the
    first argument goes after the second when the result is positive
    ([NaN] counts as [0]). *)
Definition company_gt (a b : company) : bool :=
  (marketcap a -js marketcap b) >js Fin 0.

Definition sort_companies (cs : list company) : list company :=
  sort_stable company_gt cs.

(** How the read stream ends: ['end'] after the rows, or ['error']. *)
Inductive csv_end : Type := EndOfFile | ReadFailure.

Record csv_source : Type := {
  csv_rows : list csv_row;
  csv_ending : csv_end
}.

(** Lines 38-76: the promise resolves with the sorted array (and the
    warnings printed on the way) or rejects when the file cannot be
    read. *)
Definition loadCSVData (src : csv_source) : outcome (list company * list csv_row) :=
  let st := foldl on_data {| results := []; skipped := [] |} (csv_rows src) in
  match csv_ending src with
  | EndOfFile => Returns (sort_companies (results st), skipped st)
  | ReadFailure => Throws FileReadError
  end.

(** ** The invariant of the loaded array *)

Definition company_valid (c : company) : Prop :=
  name c <> ""%string /\ symbol c <> ""%string /\
  isNaN (marketcap c) = false /\ marketcap c >=js Fin 0 = true.

Definition mc_le (a b : company) : Prop := marketcap a <=js marketcap b = true.

(** Every entry is valid and the market caps ascend (any two entries,
    not only neighbours, are in order). *)
Definition store_wf (cs : list company) : Prop :=
  Forall company_valid cs /\ StronglySorted mc_le cs.

(** ** Lemmas on loading *)

Lemma row_company_valid r c : row_company r = Some c -> company_valid c.
Proof.
  unfold row_company, company_valid.
  destruct (row_Name r) as [n|], (row_Symbol r) as [s|]; simpl;
    rewrite ?andb_false_r; try discriminate.
  destruct (String.eqb_spec n ""), (String.eqb_spec s ""); simpl; try discriminate.
  destruct (isNaN _) eqn:Hn, (_ >=js _) eqn:Hge; simpl; try discriminate.
  intros [= <-]. simpl. auto.
Qed.

Lemma foldl_on_data st rows :
  foldl on_data st rows =
  {| results := results st ++ omap row_company rows;
     skipped := skipped st ++ List.filter row_rejected rows |}.
Proof.
  revert st. induction rows as [|r rows IH]; intros st; simpl.
  - destruct st. by rewrite !app_nil_r.
  - rewrite IH. unfold on_data, row_rejected.
    destruct (row_company r); simpl; by rewrite <- !app_assoc.
Qed.

Lemma omap_row_company_valid rows : Forall company_valid (omap row_company rows).
Proof.
  apply Forall_forall. intros c Hc.
  apply list_elem_of_omap in Hc as (r & _ & Hr). by apply row_company_valid in Hr.
Qed.

Lemma company_gt_valid a b :
  company_valid a -> company_valid b ->
  company_gt a b = (marketcap b <js marketcap a).
Proof.
  intros (_ & _ & Ha & _) (_ & _ & Hb & _). by apply num_sub_gt0.
Qed.

Lemma company_gt_asym a b :
  company_valid a -> company_valid b ->
  company_gt a b = true -> company_gt b a = false.
Proof.
  intros Ha Hb. rewrite !company_gt_valid by done. apply num_lt_asym.
Qed.

Lemma company_gt_neg_trans a b c :
  company_valid a -> company_valid b -> company_valid c ->
  company_gt a c = true -> company_gt a b = true \/ company_gt b c = true.
Proof.
  intros Ha Hb Hc. rewrite !company_gt_valid by done.
  apply num_lt_neg_trans. apply Hb.
Qed.

Lemma sort_le_mc_le a b :
  company_valid a -> company_valid b -> sort_le company_gt a b -> mc_le a b.
Proof.
  unfold sort_le, mc_le. intros Ha Hb. rewrite company_gt_valid by done.
  apply num_not_lt_le; [apply Hb | apply Ha].
Qed.

Lemma sort_companies_wf cs : Forall company_valid cs -> store_wf (sort_companies cs).
Proof.
  intros Hcs. split.
  - by apply sort_stable_Forall.
  - apply StronglySorted_weaken with (sort_le company_gt) company_valid.
    + apply sort_le_mc_le.
    + by apply sort_stable_Forall.
    + apply sort_stable_StronglySorted with company_valid;
        auto using company_gt_asym, company_gt_neg_trans.
Qed.

(** ** [findInsertPosition] *)

(** The [while (left <= right)] loop of lines 88-98, one iteration per
    unit of fuel.  [companies[mid].marketcap] on an index outside the
    array would throw a [TypeError]; the theorems below show it never
    happens. *)
Fixpoint bs_loop (fuel : nat) (cs : list company) (v : number)
    (left right result : Z) : outcome Z :=
  match fuel with
  | O => OutOfFuel
  | S fuel =>
      if (left <=? right)%Z then
        let mid := ((left + right) / 2)%Z in
        match cs !!Z mid with
        | None => Throws TypeError
        | Some c =>
            if marketcap c ===js v then Returns mid
            else if marketcap c <js v then bs_loop fuel cs v (mid + 1) right result
            else bs_loop fuel cs v left (mid - 1) mid
        end
      else Returns result
  end.

(** Lines 83-101.  The fuel, one more than the length, is enough (each
    iteration shrinks [right - left]); [findInsertPosition_log] shows
    that [log2 n + 2] already is. *)
Definition findInsertPosition (cs : list company) (v : number) : outcome Z :=
  let n := Z.of_nat (length cs) in
  bs_loop (S (length cs)) cs v 0 (n - 1) n.

(** The specification: the index of the first entry whose market cap
    is not below [v], or the length. *)
Fixpoint lower_bound (cs : list company) (v : number) : nat :=
  match cs with
  | [] => O
  | c :: cs' => if marketcap c <js v then S (lower_bound cs' v) else O
  end.

(** ** Termination *)

(** The number of iterations is logarithmic: the candidate range
    [left..right] at least halves at each step. *)
Definition bs_bound (s : Z) : Z := if (s <=? 0)%Z then 1 else Z.log2 s + 2.

Lemma bs_bound_half s s' :
  (1 <= s)%Z -> (2 * s' <= s)%Z -> (bs_bound s' + 1 <= bs_bound s)%Z.
Proof.
  intros Hs Hs'. unfold bs_bound.
  destruct (Z.leb_spec s 0); [lia|]. pose proof (Z.log2_nonneg s).
  destruct (Z.leb_spec s' 0); [lia|].
  pose proof (Z.log2_double s' ltac:(lia)). pose proof (Z.log2_le_mono _ _ Hs'). lia.
Qed.


Section Termination.
Context (cs : list company) (v : number).

Lemma bs_loop_mid_in_range l r :
  (0 <= l)%Z -> (r < Z.of_nat (length cs))%Z -> (l <= r)%Z -> exists c, cs !!Z ((l + r) / 2) = Some c.
Proof.
  intros. apply zlookup_in_range.
  pose proof (Z.div_le_lower_bound (l + r) 2 l). pose proof (Z.div_le_upper_bound (l + r) 2 r).
  lia.
Qed.

(** Enough fuel: one per remaining candidate, plus the final test. *)
Lemma bs_loop_returns fuel l r res :
  (0 <= l)%Z -> (r < Z.of_nat (length cs))%Z -> (l <= r + 1)%Z -> (r - l + 1 < Z.of_nat fuel)%Z ->
  exists p, bs_loop fuel cs v l r res = Returns p.
Proof.
  revert l r res. induction fuel as [|fuel IH]; intros l r res Hl Hr Hlr Hf; [lia|].
  simpl. destruct (Z.leb_spec l r); [|eauto].
  destruct (bs_loop_mid_in_range l r) as [c ->]; [done..|].
  pose proof (Z.div_le_lower_bound (l + r) 2 l). pose proof (Z.div_le_upper_bound (l + r) 2 r).
  repeat case_if; eauto; apply IH; lia.
Qed.

Lemma bs_loop_returns_log fuel l r res :
  (0 <= l)%Z -> (r < Z.of_nat (length cs))%Z -> (bs_bound (r - l + 1) <= Z.of_nat fuel)%Z ->
  exists p, bs_loop fuel cs v l r res = Returns p.
Proof.
  revert l r res. induction fuel as [|fuel IH]; intros l r res Hl Hr Hf.
  { unfold bs_bound in Hf. destruct (Z.leb_spec (r - l + 1) 0); pose proof (Z.log2_nonneg (r - l + 1)); lia. }
  simpl. destruct (Z.leb_spec l r); [|eauto].
  destruct (bs_loop_mid_in_range l r) as [c ->]; [done..|].
  pose proof (Z.div_le_lower_bound (l + r) 2 l). pose proof (Z.div_le_upper_bound (l + r) 2 r).
  pose proof (Z.div_mod (l + r) 2 ltac:(lia)). pose proof (Z.mod_pos_bound (l + r) 2 ltac:(lia)).
  repeat case_if; eauto; apply IH; try lia.
  - pose proof (bs_bound_half (r - l + 1) (r - ((l + r) / 2 + 1) + 1)). lia.
  - pose proof (bs_bound_half (r - l + 1) ((l + r) / 2 - 1 - l + 1)). lia.
Qed.

(** More fuel never changes a result. *)
Lemma bs_loop_fuel_mono fuel fuel' l r res p :
  bs_loop fuel cs v l r res = Returns p -> (fuel <= fuel')%nat ->
  bs_loop fuel' cs v l r res = Returns p.
Proof.
  revert fuel' l r res. induction fuel as [|fuel IH]; intros fuel' l r res H Hle;
    [done|].
  destruct fuel' as [|fuel']; [lia|]. simpl in *.
  destruct (l <=? r)%Z; [|done].
  destruct (cs !!Z _); [|done].
  repeat case_if; auto with lia.
Qed.
End Termination.

(** ** Correctness *)

(** Every entry before index [i] is below [v]. *)
Definition below (cs : list company) (v : number) (i : Z) : Prop :=
  forall j c, (j < i)%Z -> cs !!Z j = Some c -> marketcap c <js v = true.

(** No entry from index [i] on is below [v] or equal to it. *)
Definition above (cs : list company) (v : number) (i : Z) : Prop :=
  forall j c, (i <= j)%Z -> cs !!Z j = Some c ->
    marketcap c <js v = false /\ marketcap c ===js v = false.

(** What [findInsertPosition] promises: an index in [0..length], which
    holds an entry equal to [v], or else splits the entries below [v]
    from the entries above it. *)
Definition position_ok (cs : list company) (v : number) (p : Z) : Prop :=
  (0 <= p <= Z.of_nat (length cs))%Z /\
  ((exists c, cs !!Z p = Some c /\ marketcap c ===js v = true) \/
   (below cs v p /\ above cs v p)).

Lemma store_wf_valid cs i c : store_wf cs -> cs !!Z i = Some c -> company_valid c.
Proof.
  intros [Hv _] Hi%zlookup_to_nat. by eapply Forall_lookup_1.
Qed.

Lemma store_wf_zlookup_le cs i j a b :
  store_wf cs -> (i <= j)%Z -> cs !!Z i = Some a -> cs !!Z j = Some b -> mc_le a b.
Proof.
  intros Hwf Hij Ha Hb.
  destruct (Z.eq_dec i j) as [<-|Hne].
  - rewrite Ha in Hb. injection Hb as <-. apply num_le_refl.
    apply (store_wf_valid cs i a Hwf Ha).
  - pose proof (zlookup_Some_range _ _ _ Ha). pose proof (zlookup_Some_range _ _ _ Hb).
    apply (StronglySorted_lookup mc_le cs (Z.to_nat i) (Z.to_nat j)); [apply Hwf|lia|..];
      by apply zlookup_to_nat.
Qed.

Lemma bs_loop_correct cs v fuel l r res p :
  store_wf cs -> (0 <= l)%Z -> (r < Z.of_nat (length cs))%Z -> (l <= r + 1)%Z ->
  res = (r + 1)%Z -> below cs v l -> above cs v (r + 1) ->
  bs_loop fuel cs v l r res = Returns p -> position_ok cs v p.
Proof.
  intros Hwf. revert l r res.
  induction fuel as [|fuel IH]; intros l r res Hl Hr Hlr -> Hbelow Habove H; [done|].
  simpl in H. destruct (Z.leb_spec l r) as [Hle|Hgt].
  2:{ injection H as <-. assert (l = r + 1)%Z by lia. subst l. split; [lia|right; by split]. }
  set (mid := ((l + r) / 2)%Z) in *.
  assert (l <= mid <= r)%Z as Hmid
    by (pose proof (Z.div_le_lower_bound (l + r) 2 l); pose proof (Z.div_le_upper_bound (l + r) 2 r); lia).
  destruct (cs !!Z mid) as [c|] eqn:Hc; [|done].
  destruct (marketcap c ===js v) eqn:Heq.
  { injection H as <-. split; [|left; eauto]. apply zlookup_Some_range in Hc. lia. }
  destruct (marketcap c <js v) eqn:Hlt.
  - apply (IH (mid + 1)%Z r (r + 1)%Z); [lia..| |done|done].
    intros j c' Hj Hc'. destruct (Z.lt_ge_cases j l); [by eapply Hbelow|].
    eapply num_le_lt_trans; [|apply Hlt].
    apply (store_wf_zlookup_le cs j mid); auto with lia.
  - apply (IH l (mid - 1)%Z mid); [lia..|done| |done].
    replace (mid - 1 + 1)%Z with mid by lia.
    intros j c' Hj Hc'. destruct (Z.le_gt_cases (r + 1) j); [apply (Habove j c'); [lia|done]|].
    assert (mc_le c c') as Hcc' by (apply (store_wf_zlookup_le cs mid j); auto with lia).
    unfold mc_le in Hcc'. split.
    + destruct (marketcap c' <js v) eqn:E; [|done].
      by rewrite (num_le_lt_trans _ _ _ Hcc' E) in Hlt.
    + destruct (marketcap c' ===js v) eqn:E; [|done].
      pose proof (num_le_strict_eq_r _ _ _ Hcc' E) as Hle'.
      by rewrite (num_le_not_lt_eq _ _ Hle' Hlt) in Heq.
Qed.

Lemma below_0 cs v : below cs v 0.
Proof. intros j c Hj Hc. apply zlookup_Some_range in Hc. lia. Qed.

Lemma above_length cs v : above cs v (Z.of_nat (length cs)).
Proof. intros j c Hj Hc. apply zlookup_Some_range in Hc. lia. Qed.

Lemma bs_loop_deterministic cs v f1 f2 l r res p1 p2 :
  bs_loop f1 cs v l r res = Returns p1 -> bs_loop f2 cs v l r res = Returns p2 -> p1 = p2.
Proof.
  intros H1 H2.
  apply (bs_loop_fuel_mono _ _ _ (f1 + f2)) in H1, H2; [|lia..]. congruence.
Qed.

(** ** The specification [lower_bound] *)

Lemma lower_bound_le cs v : (lower_bound cs v <= length cs)%nat.
Proof. induction cs as [|c cs IH]; simpl; [lia|]. case_if; lia. Qed.

Lemma lower_bound_lt cs v k c :
  cs !! k = Some c -> (k < lower_bound cs v)%nat -> marketcap c <js v = true.
Proof.
  revert k. induction cs as [|c' cs IH]; intros k Hk Hlt; simpl in *; [lia|].
  destruct (marketcap c' <js v) eqn:E; [|lia].
  destruct k as [|k]; simpl in Hk; [congruence|]. apply (IH k); [done|lia].
Qed.

Lemma lower_bound_at cs v c :
  cs !! lower_bound cs v = Some c -> marketcap c <js v = false.
Proof.
  induction cs as [|c' cs IH]; simpl; [done|].
  destruct (marketcap c' <js v) eqn:E; simpl; [done|congruence].
Qed.

(** [lower_bound] is the only index that splits the entries below [v]
    from the others. *)
Lemma lower_bound_unique cs v p :
  (0 <= p <= Z.of_nat (length cs))%Z -> below cs v p ->
  (forall c, cs !!Z p = Some c -> marketcap c <js v = false) ->
  p = Z.of_nat (lower_bound cs v).
Proof.
  intros Hp Hbelow Hat. pose proof (lower_bound_le cs v).
  destruct (Z.lt_total p (Z.of_nat (lower_bound cs v))) as [Hlt|[Heq|Hgt]]; [|done|].
  - destruct (zlookup_in_range cs p) as [c Hc]; [lia|].
    pose proof (lower_bound_lt cs v (Z.to_nat p) c (zlookup_to_nat _ _ _ Hc) ltac:(lia)).
    specialize (Hat c Hc). congruence.
  - destruct (lookup_lt_is_Some_2 cs (lower_bound cs v)) as [c Hc]; [lia|].
    pose proof (lower_bound_at cs v c Hc).
    rewrite <- zlookup_of_nat in Hc.
    specialize (Hbelow (Z.of_nat (lower_bound cs v)) c ltac:(lia) Hc). congruence.
Qed.

(** Between an entry not below [v] and an entry equal to [v], every
    entry equals [v]. *)
Lemma store_wf_squeeze cs v i j k a b c :
  store_wf cs -> (i <= j <= k)%Z ->
  cs !!Z i = Some a -> cs !!Z j = Some b -> cs !!Z k = Some c ->
  marketcap a <js v = false -> marketcap c ===js v = true ->
  marketcap b ===js v = true.
Proof.
  intros Hwf Hijk Ha Hb Hc Ha_v Hc_v.
  pose proof (store_wf_zlookup_le cs i j a b Hwf ltac:(lia) Ha Hb) as Hab.
  pose proof (store_wf_zlookup_le cs j k b c Hwf ltac:(lia) Hb Hc) as Hbc.
  unfold mc_le in *. apply num_le_not_lt_eq.
  - by eapply num_le_strict_eq_r.
  - destruct (marketcap b <js v) eqn:E; [|done].
    by rewrite (num_le_lt_trans _ _ _ Hab E) in Ha_v.
Qed.

Lemma loadCSVData_store_wf src cs w :
  loadCSVData src = Returns (cs, w) -> store_wf cs.
Proof.
  unfold loadCSVData. rewrite foldl_on_data. destruct (csv_ending src); [|done].
  intros [= <- _]. apply sort_companies_wf, omap_row_company_valid.
Qed.

(** ** Decision procedures for the invariant *)

Definition company_validb (c : company) : bool :=
  negb (String.eqb (name c) "") && negb (String.eqb (symbol c) "") &&
  negb (isNaN (marketcap c)) && (marketcap c >=js Fin 0).

Fixpoint sorted_by (R : company -> company -> bool) (cs : list company) : bool :=
  match cs with
  | a :: (b :: _) as cs' => R a b && sorted_by R cs'
  | _ => true
  end.

Definition store_wfb (cs : list company) : bool :=
  forallb company_validb cs &&
  sorted_by (fun a b => marketcap a <=js marketcap b) cs.

Lemma company_validb_spec c : company_validb c = true -> company_valid c.
Proof.
  unfold company_validb, company_valid.
  destruct (String.eqb_spec (name c) ""), (String.eqb_spec (symbol c) ""),
    (isNaN (marketcap c)), (marketcap c >=js Fin 0); simpl; intuition congruence.
Qed.

Lemma sorted_by_Sorted (R : company -> company -> bool) cs :
  sorted_by R cs = true -> Sorted (fun a b => R a b = true) cs.
Proof.
  induction cs as [|a [|b cs] IH]; simpl; intros H; [constructor|by repeat constructor|].
  apply andb_prop in H as [Hab Hrest]. constructor; [by apply IH|by constructor].
Qed.

Lemma store_wfb_spec cs : store_wfb cs = true -> store_wf cs.
Proof.
  unfold store_wfb. intros [Hv Hs]%andb_prop.
  assert (Forall company_valid cs).
  { apply Forall_forall. intros c Hc%list_elem_of_In.
    apply company_validb_spec. by eapply forallb_forall in Hv. }
  split; [done|].
  apply Forall_Sorted_StronglySorted with company_valid; [|done|by apply sorted_by_Sorted].
  intros a b c _ _ _. unfold mc_le. apply num_le_trans.
Qed.

Lemma sorted_by_StronglySorted (R : company -> company -> bool) cs :
  (forall a b c, R a b = true -> R b c = true -> R a c = true) ->
  sorted_by R cs = true -> StronglySorted (fun a b => R a b = true) cs.
Proof.
  intros Htr Hs. apply Sorted_StronglySorted; [intros a b c; apply Htr|].
  by apply sorted_by_Sorted.
Qed.

(** ** Sample data *)

Definition csv (n s m : string) : csv_row :=
  {| row_Name := Some n; row_Symbol := Some s; row_marketcap := Some m |}.

Definition mkc (n s : string) (mc : Z) : company :=
  {| name := n; symbol := s; marketcap := Fin (inject_Z mc) |}.

(** The reference list of the spec's scenario. *)
Definition sample_store : list company := [mkc "A" "A" 100; mkc "B" "B" 200; mkc "C" "C" 300].

(** ** Theorems: the binary search *)

(** The search returns a position satisfying [position_ok]. *)
Lemma findInsertPosition_returns cs v :
  store_wf cs -> exists p, findInsertPosition cs v = Returns p /\ position_ok cs v p.
Proof.
  intros Hwf. unfold findInsertPosition.
  destruct (bs_loop_returns cs v (S (length cs)) 0 (Z.of_nat (length cs) - 1)
    (Z.of_nat (length cs))) as [p Hp]; [lia..|].
  exists p. split; [done|].
  apply (bs_loop_correct cs v (S (length cs)) 0 (Z.of_nat (length cs) - 1)
    (Z.of_nat (length cs))); [done|lia|lia|lia|lia|apply below_0| |apply Hp].
  replace (Z.of_nat (length cs) - 1 + 1)%Z with (Z.of_nat (length cs)) by lia.
  apply above_length.
Qed.

(** C1 findInsertPosition_correct: on a well-formed store (valid
    entries, ascending market caps) and for every number [v], [NaN]
    included, [findInsertPosition] returns: it never reads outside the
    array and its loop ends.  The index it returns lies in
    [0..length]; either the entry there equals [v], or every entry
    before it is below [v] and no entry from it on is below or equal
    to [v]. *)
Theorem findInsertPosition_correct cs v :
  store_wf cs -> exists p, findInsertPosition cs v = Returns p /\ position_ok cs v p.
Proof. apply findInsertPosition_returns. Qed.

(** C30 findInsertPosition_log: the search takes a logarithmic number
    of steps.  For every array (sorted or not) of length [n] and every
    number, the [while] loop with fuel for only [log2 n + 2] tests of
    its condition ([1] when [n = 0]) already returns, and returns what
    [findInsertPosition] returns. *)
Theorem findInsertPosition_log cs v :
  exists p, findInsertPosition cs v = Returns p /\
    bs_loop (Z.to_nat (bs_bound (Z.of_nat (length cs)))) cs v
      0 (Z.of_nat (length cs) - 1) (Z.of_nat (length cs)) = Returns p.
Proof.
  set (n := Z.of_nat (length cs)).
  assert (0 <= bs_bound n)%Z.
  { unfold bs_bound. case_if; [lia|]. pose proof (Z.log2_nonneg n). lia. }
  destruct (bs_loop_returns_log cs v (Z.to_nat (bs_bound n)) 0 (n - 1) n)
    as [p Hp]; [lia|lia|rewrite Z2Nat.id; [replace (n - 1 - 0 + 1)%Z with n by lia|]; lia|].
  destruct (bs_loop_returns cs v (S (length cs)) 0 (n - 1) n) as [p' Hp']; [lia..|].
  exists p'. split; [done|].
  by rewrite (bs_loop_deterministic cs v _ _ _ _ _ p' p Hp' Hp) in Hp' |- *.
Qed.

(** A position satisfying [position_ok], against [lower_bound]: equal,
    or a run of entries equal to [v] lies between them. *)
Lemma position_ok_refines cs v p :
  store_wf cs -> position_ok cs v p ->
  p = Z.of_nat (lower_bound cs v) \/
  ((Z.of_nat (lower_bound cs v) < p < Z.of_nat (length cs))%Z /\
   forall i c, (Z.of_nat (lower_bound cs v) <= i <= p)%Z -> cs !!Z i = Some c ->
     marketcap c ===js v = true).
Proof.
  intros Hwf (Hrange & Hok).
  pose proof (lower_bound_le cs v).
  destruct Hok as [(c & Hc & Heq) | (Hbelow & Habove)].
  2:{ left. apply lower_bound_unique; [done..|]. intros c Hc. apply (Habove p c); [lia|done]. }
  assert (Z.of_nat (lower_bound cs v) <= p)%Z as Hle.
  { destruct (Z.lt_ge_cases p (Z.of_nat (lower_bound cs v))) as [Hlt|]; [|done].
    pose proof (lower_bound_lt cs v (Z.to_nat p) c (zlookup_to_nat _ _ _ Hc) ltac:(lia)).
    by rewrite strict_eq_not_lt in H0. }
  destruct (Z.eq_dec p (Z.of_nat (lower_bound cs v))) as [|Hne]; [by left|right].
  split; [apply zlookup_Some_range in Hc; lia|]. intros i c' Hi Hc'.
  destruct (lookup_lt_is_Some_2 cs (lower_bound cs v)) as [a Ha].
  { apply zlookup_Some_range in Hc. lia. }
  pose proof (lower_bound_at cs v a Ha). rewrite <- zlookup_of_nat in Ha.
  by apply (store_wf_squeeze cs v (Z.of_nat (lower_bound cs v)) i p a c' c).
Qed.

(** The linear specification satisfies the contract of the search. *)
Lemma lower_bound_position_ok cs v :
  store_wf cs -> position_ok cs v (Z.of_nat (lower_bound cs v)).
Proof.
  intros Hwf. pose proof (lower_bound_le cs v) as Hle. split; [lia|].
  assert (below cs v (Z.of_nat (lower_bound cs v))) as Hbelow.
  { intros j c Hj Hc. pose proof (zlookup_Some_range _ _ _ Hc).
    apply (lower_bound_lt cs v (Z.to_nat j) c (zlookup_to_nat _ _ _ Hc)). lia. }
  destruct (cs !! lower_bound cs v) as [a|] eqn:Ha.
  - pose proof (lower_bound_at cs v a Ha) as Ha_v. rewrite <- zlookup_of_nat in Ha.
    destruct (marketcap a ===js v) eqn:Heq; [left; by exists a|right].
    split; [done|]. intros j c Hj Hc.
    pose proof (store_wf_zlookup_le cs _ j a c Hwf Hj Ha Hc) as Hac. unfold mc_le in Hac.
    split.
    + destruct (marketcap c <js v) eqn:E; [|done].
      by rewrite (num_le_lt_trans _ _ _ Hac E) in Ha_v.
    + destruct (marketcap c ===js v) eqn:E; [|done].
      by rewrite (num_le_not_lt_eq _ _ (num_le_strict_eq_r _ _ _ Hac E) Ha_v) in Heq.
  - apply lookup_ge_None in Ha. right. split; [done|].
    intros j c Hj Hc. apply zlookup_Some_range in Hc. lia.
Qed.

Lemma findInsertPosition_refines cs v p :
  store_wf cs -> findInsertPosition cs v = Returns p ->
  p = Z.of_nat (lower_bound cs v) \/
  ((Z.of_nat (lower_bound cs v) < p < Z.of_nat (length cs))%Z /\
   forall i c, (Z.of_nat (lower_bound cs v) <= i <= p)%Z -> cs !!Z i = Some c ->
     marketcap c ===js v = true).
Proof.
  intros Hwf Hp. apply position_ok_refines; [done|].
  destruct (findInsertPosition_returns cs v Hwf) as (p' & Hp' & Hok). congruence.
Qed.

(** With pairwise distinct market caps, [position_ok] pins the position
    down to [lower_bound]. *)
Lemma position_ok_strict cs v p :
  store_wf cs -> StronglySorted (fun a b => marketcap a <js marketcap b = true) cs ->
  position_ok cs v p -> p = Z.of_nat (lower_bound cs v).
Proof.
  intros Hwf Hstrict Hok.
  destruct (position_ok_refines cs v p Hwf Hok) as [|(Hlt & Hall)]; [done|].
  exfalso.
  destruct (zlookup_in_range cs (Z.of_nat (lower_bound cs v))) as [a Ha]; [lia|].
  destruct (zlookup_in_range cs p) as [b Hb]; [lia|].
  pose proof (Hall (Z.of_nat (lower_bound cs v)) a ltac:(lia) Ha) as Ha_v.
  pose proof (Hall p b ltac:(lia) Hb) as Hb_v.
  assert (marketcap a <js marketcap b = true) as Hab.
  { apply (StronglySorted_lookup (fun a b => marketcap a <js marketcap b = true) cs
      (lower_bound cs v) (Z.to_nat p)); [done|lia| |].
    - rewrite <- zlookup_of_nat. done.
    - by apply zlookup_to_nat. }
  by rewrite (strict_eq_lt_absurd _ _ _ Ha_v Hb_v) in Hab.
Qed.

(** C2 findInsertPosition_lower_bound: the binary search refines the
    linear specification [lower_bound] (index of the first entry not
    below [v]) up to ties.  On a well-formed store it returns exactly
    [lower_bound], or an index further right such that every entry from
    [lower_bound] to it equals [v]. *)
Theorem findInsertPosition_lower_bound cs v p :
  store_wf cs -> findInsertPosition cs v = Returns p ->
  p = Z.of_nat (lower_bound cs v) \/
  ((Z.of_nat (lower_bound cs v) < p < Z.of_nat (length cs))%Z /\
   forall i c, (Z.of_nat (lower_bound cs v) <= i <= p)%Z -> cs !!Z i = Some c ->
     marketcap c ===js v = true).
Proof. apply findInsertPosition_refines. Qed.

(** When the market caps of the store
    are pairwise distinct (strictly ascending), the binary search
    returns exactly the index of the first entry not below [v]. *)
Theorem findInsertPosition_strict cs v :
  store_wf cs -> StronglySorted (fun a b => marketcap a <js marketcap b = true) cs ->
  findInsertPosition cs v = Returns (Z.of_nat (lower_bound cs v)).
Proof.
  intros Hwf Hstrict.
  destruct (findInsertPosition_returns cs v Hwf) as (p & Hp & Hok).
  rewrite Hp. f_equal. by apply position_ok_strict.
Qed.

(** ** Theorems: loading *)

(** C5 loadCSVData_wf: the array [loadCSVData] resolves with
    satisfies the store invariant: every entry has a non-empty name and
    symbol and a market cap that is a number [>= 0], and the market
    caps ascend. *)
Theorem loadCSVData_wf src cs w :
  loadCSVData src = Returns (cs, w) -> store_wf cs.
Proof. apply loadCSVData_store_wf. Qed.

(** C6 loadCSVData_contents: [loadCSVData] resolves only when the
    file was read to its end; it then keeps exactly the rows that pass
    the validation of lines 52-57 (reordered), and reports exactly the
    others, in file order. *)
Theorem loadCSVData_contents src cs w :
  loadCSVData src = Returns (cs, w) ->
  csv_ending src = EndOfFile /\
  Permutation cs (omap row_company (csv_rows src)) /\
  w = List.filter row_rejected (csv_rows src).
Proof.
  unfold loadCSVData. rewrite foldl_on_data. destruct (csv_ending src); [|done].
  intros [= <- <-]. split; [done|]. split; [|done].
  apply sort_stable_perm.
Qed.

(** C32 loadCSVData_stable: companies whose market caps are equal
    keep their file order in the loaded array: for every valid company
    [k], the entries with [k]'s market cap appear in [companies] in the
    order of their rows. *)
Theorem loadCSVData_stable src cs w k :
  loadCSVData src = Returns (cs, w) -> company_valid k ->
  List.filter (same_key company_gt k) cs =
  List.filter (same_key company_gt k) (omap row_company (csv_rows src)).
Proof.
  unfold loadCSVData. rewrite foldl_on_data. destruct (csv_ending src); [|done].
  intros [= <- _] Hk. simpl.
  apply sort_stable_filter with company_valid;
    auto using company_gt_neg_trans, omap_row_company_valid.
Qed.

(** ** Witnesses and examples *)

Lemma findInsertPosition_correct_witness :
  store_wf sample_store /\
  exists p, findInsertPosition sample_store (Fin 150) = Returns p /\
            position_ok sample_store (Fin 150) p.
Proof.
  assert (store_wf sample_store) as Hwf by (apply store_wfb_spec; vm_compute; reflexivity).
  split; [exact Hwf|]. exact (findInsertPosition_correct sample_store (Fin 150) Hwf).
Defined.

Lemma findInsertPosition_lower_bound_witness :
  findInsertPosition sample_store (Fin 150) = Returns 1%Z /\
  (1%Z = Z.of_nat (lower_bound sample_store (Fin 150)) \/
   ((Z.of_nat (lower_bound sample_store (Fin 150)) < 1 < Z.of_nat (length sample_store))%Z /\
    forall i c, (Z.of_nat (lower_bound sample_store (Fin 150)) <= i <= 1)%Z ->
      sample_store !!Z i = Some c -> marketcap c ===js Fin 150 = true)).
Proof.
  assert (findInsertPosition sample_store (Fin 150) = Returns 1%Z) as Hp
    by (vm_compute; reflexivity).
  split; [exact Hp|].
  apply (findInsertPosition_lower_bound sample_store (Fin 150) 1%Z); [|exact Hp].
  apply store_wfb_spec; vm_compute; reflexivity.
Defined.

Lemma findInsertPosition_strict_witness :
  findInsertPosition sample_store (Fin 200) = Returns (Z.of_nat (lower_bound sample_store (Fin 200))) /\
  lower_bound sample_store (Fin 200) = 1%nat.
Proof.
  split; [|vm_compute; reflexivity].
  apply findInsertPosition_strict.
  - apply store_wfb_spec; vm_compute; reflexivity.
  - apply (sorted_by_StronglySorted (fun a b => marketcap a <js marketcap b)).
    + intros a b c. apply num_lt_trans.
    + vm_compute; reflexivity.
Defined.

Definition sample_source : csv_source :=
  {| csv_rows := [csv "Gamma" "G" "300"; csv "Neg" "N" "-5"; csv "Text" "T" "abc";
                  csv "" "E" "10"; csv "Alpha" "A" "100"; csv "Alpha2" "A2" "100"];
     csv_ending := EndOfFile |}.


Definition sample_loaded : list company :=
  [mkc "Alpha" "A" 100; mkc "Alpha2" "A2" 100; mkc "Gamma" "G" 300].

Definition sample_skipped : list csv_row :=
  [csv "Neg" "N" "-5"; csv "Text" "T" "abc"; csv "" "E" "10"].

Lemma sample_source_loads :
  loadCSVData sample_source = Returns (sample_loaded, sample_skipped).
Proof. vm_compute. reflexivity. Qed.

Lemma loadCSVData_wf_witness : store_wf sample_loaded.
Proof. apply (loadCSVData_wf sample_source _ sample_skipped). vm_compute. reflexivity. Defined.

Lemma loadCSVData_contents_witness :
  csv_ending sample_source = EndOfFile /\
  Permutation sample_loaded (omap row_company (csv_rows sample_source)) /\
  sample_skipped = List.filter row_rejected (csv_rows sample_source).
Proof. apply loadCSVData_contents. vm_compute. reflexivity. Defined.

Lemma loadCSVData_stable_witness :
  List.filter (same_key company_gt (mkc "K" "K" 100)) sample_loaded =
  List.filter (same_key company_gt (mkc "K" "K" 100)) (omap row_company (csv_rows sample_source)).
Proof.
  apply (loadCSVData_stable sample_source _ sample_skipped).
  - vm_compute. reflexivity.
  - apply company_validb_spec. vm_compute. reflexivity.
Defined.

(** With several entries equal to the
    value, [findInsertPosition] returns the middle one the search probes
    first, not the first entry [>= value] that its comment (lines 80-82)
    and the spec promise: on [A, B, C] all at [100] and the value [100],
    it returns [1] where the first such entry is at [0]. *)
Example findInsertPosition_ties :
  store_wf [mkc "A" "A" 100; mkc "B" "B" 100; mkc "C" "C" 100] /\
  findInsertPosition [mkc "A" "A" 100; mkc "B" "B" 100; mkc "C" "C" 100] (Fin 100) = Returns 1%Z /\
  lower_bound [mkc "A" "A" 100; mkc "B" "B" 100; mkc "C" "C" 100] (Fin 100) = 0%nat.
Proof.
  split; [apply store_wfb_spec|split]; vm_compute; reflexivity.
Qed.

(** C31 findInsertPosition_returns_probe: the search answers with the
    first entry it probes whenever that entry equals the value: on every
    array whose middle entry (index [floor((n-1)/2)], line 89) has a
    market cap [===] the value, [findInsertPosition] returns that index,
    even when the first entry equals the value too and the first entry
    [>= value] that its comment (lines 80-82) and the spec promise is at
    index [0]. *)
Theorem findInsertPosition_returns_probe cs v c0 c :
  cs !! 0%nat = Some c0 -> marketcap c0 ===js v = true ->
  cs !!Z ((Z.of_nat (length cs) - 1) / 2) = Some c -> marketcap c ===js v = true ->
  findInsertPosition cs v = Returns ((Z.of_nat (length cs) - 1) / 2)%Z /\ lower_bound cs v = 0%nat.
Proof.
  intros H0 Hv0 Hm Hv. split.
  - pose proof (zlookup_Some_range _ _ _ Hm) as Hr. unfold findInsertPosition. cbn [bs_loop].
    replace ((0 <=? Z.of_nat (length cs) - 1)%Z) with true by (symmetry; apply Z.leb_le; lia).
    replace ((0 + (Z.of_nat (length cs) - 1)) / 2)%Z with ((Z.of_nat (length cs) - 1) / 2)%Z
      by (f_equal; lia).
    by rewrite Hm, Hv.
  - destruct cs as [|c1 cs]; [discriminate|]. injection H0 as <-. cbn.
    by rewrite (strict_eq_not_lt _ _ Hv0).
Qed.

(** C40 row_company_prefix: a market cap is parsed by [parseFloat],
    which reads the longest numeric prefix: a row whose market cap is
    decimal digits followed by any text that cannot continue a number
    (thousands separators ["1,500,000"], a unit ["250B"], a space)
    passes the validation and is kept with the value of the digits
    alone. *)
Theorem row_company_prefix n s d r :
  n <> ""%string -> s <> ""%string ->
  d <> [] -> Forall (fun c => is_digit c = true) d -> number_stops r ->
  exists c, row_company (csv n s (string_of_list_ascii (d ++ r))) = Some c /\
    name c = n /\ symbol c = s /\ marketcap c ≡ Fin (inject_Z (digits_value d)).
Proof.
  intros Hn Hs Hne Hd Hr. unfold row_company, csv. cbn [row_Name row_Symbol row_marketcap].
  pose proof (parseFloat_digits d r Hne Hd Hr) as Hx. unfold parseFloat_opt.
  destruct (parseFloat (string_of_list_ascii (d ++ r))) as [| | |q] eqn:E;
    rewrite number_equiv_unfold in Hx; try discriminate.
  unfold str_truthy. rewrite (proj2 (String.eqb_neq _ _) Hn), (proj2 (String.eqb_neq _ _) Hs).
  pose proof (digits_value_nonneg d) as H0.
  unfold num_ge, num_le. simpl. qcase; [|exists {| name := n; symbol := s; marketcap := Fin q |}; done].
  exfalso. rewrite Hx in *. rewrite Zle_Qle in H0. change (inject_Z 0) with 0%Q in H0. lra.
Qed.

Lemma row_company_prefix_witness :
  exists c, row_company (csv "Acme" "ACM" (string_of_list_ascii (["1"%char] ++ list_ascii_of_string ",500,000"))) = Some c /\
    name c = "Acme"%string /\ symbol c = "ACM"%string /\ marketcap c ≡ Fin (inject_Z (digits_value ["1"%char])).
Proof.
  apply row_company_prefix; [discriminate|discriminate|discriminate|repeat constructor|].
  vm_compute. repeat split; discriminate.
Defined.

(** Three entries at [100]: the search returns [1], the first entry at
    least [100] is at [0]. *)
Definition tie_store : list company := [mkc "A" "A" 100; mkc "B" "B" 100; mkc "C" "C" 100].

Lemma findInsertPosition_returns_probe_witness :
  findInsertPosition tie_store (Fin 100) = Returns ((Z.of_nat (length tie_store) - 1) / 2)%Z /\
  lower_bound tie_store (Fin 100) = 0%nat.
Proof.
  apply (findInsertPosition_returns_probe _ _ (mkc "A" "A" 100) (mkc "B" "B" 100)); reflexivity.
Defined.
