(* ===== verification/Ranking.v ===== *)
(** * RankResolver: [determineCompanies]

    [determineCompanies] ([server.js] lines 106-132) turns the market
    cap into the pair [(currentCompany, nextUpCompany)] the server
    broadcasts.  What it needs from the search is stated as the class
    [RankIndex]: a position that satisfies [position_ok] on every
    well-formed store.  The lemmas of the section are proved against
    that interface; [findInsertPosition] is its instance, and the
    claims are about that instance.  [currentCompany] is the entry at
    the position (the last entry when the value is above them all), so
    the value lies {i below} the current company's market cap, not
    above it. *)

From S2P Require Import Prelude JsNumber JsParse StableSort Companies.

(** ** The interface between the resolver and the store *)

Class RankIndex : Type := {
  rank_position : list company -> number -> outcome Z;
  rank_position_ok : forall cs v, store_wf cs ->
    exists p, rank_position cs v = Returns p /\ position_ok cs v p
}.

#[export] Instance binary_search_index : RankIndex := {|
  rank_position := findInsertPosition;
  rank_position_ok := findInsertPosition_returns
|}.

(** The reference implementation of the interface: a linear scan for
    the first entry not below the value.  It is a definition, not an
    instance, so that [determineCompanies] on its own uses the binary
    search of the code. *)
Definition linear_index : RankIndex := {|
  rank_position cs v := Returns (Z.of_nat (lower_bound cs v));
  rank_position_ok cs v Hwf := ex_intro _ _ (conj eq_refl (lower_bound_position_ok cs v Hwf))
|}.

(** ** [determineCompanies] *)

(** [currentCompany] and [nextUpCompany] after a call.  [companies[i]
    || null] is [companies[i]] when it exists (an object is truthy) and
    [null] otherwise, which is the option lookup. *)
Definition determineCompanies `{RankIndex} (companies : list company) (v : number)
    : outcome (option company * option company) :=
  match companies with
  | [] => Returns (None, None)
  | _ =>
      position ← rank_position companies v;
      if (position =? 0)%Z then
        Returns (companies !!Z 0, companies !!Z 1)
      else if (position =? Z.of_nat (length companies))%Z then
        Returns (companies !!Z (Z.of_nat (length companies) - 1), None)
      else
        Returns (companies !!Z position, companies !!Z (position + 1))
  end.

(** The pair at a position: the entry there and the one after it, or the
    last entry and nothing when the position is past the end.  The
    [position === 0] branch of the code is this pair at [0]. *)
Definition neighbors_at (cs : list company) (p : Z) : option company * option company :=
  if (p =? Z.of_nat (length cs))%Z then (cs !!Z (Z.of_nat (length cs) - 1), None)
  else (cs !!Z p, cs !!Z (p + 1)).

(** The specification: the pair at the first entry not below [v]. *)
Definition neighbors_spec (cs : list company) (v : number) : option company * option company :=
  match cs with
  | [] => (None, None)
  | _ => neighbors_at cs (Z.of_nat (lower_bound cs v))
  end.

(** ** What a position says about the pair at it *)

(** Inside the array, the entry at a position satisfying [position_ok]
    is not below [v], and no entry at least [v] has a smaller market
    cap. *)
Lemma position_ok_current cs v p cur :
  store_wf cs -> isNaN v = false -> position_ok cs v p -> cs !!Z p = Some cur ->
  v <=js marketcap cur = true /\
  (forall c, c ∈ cs -> v <=js marketcap c = true -> marketcap cur <=js marketcap c = true).
Proof.
  intros Hwf Hv [Hrange [(c0 & Hc0 & Heq) | (Hbelow & Habove)]] Hcur.
  - rewrite Hcur in Hc0. injection Hc0 as <-. split; [by apply strict_eq_ge|].
    intros c _ Hc. by eapply strict_eq_le_trans.
  - destruct (Habove p cur ltac:(lia) Hcur) as [Hlt Hne].
    destruct (store_wf_valid cs p cur Hwf Hcur) as (_ & _ & Hcur_nan & _).
    split; [apply num_lt_le; by apply num_gt_of_not_lt_not_eq|].
    intros c (j & Hj)%elem_of_zlookup Hc.
    destruct (Z.lt_ge_cases j p).
    + pose proof (Hbelow j c ltac:(lia) Hj) as Hcv.
      by rewrite (num_le_not_lt _ _ Hc) in Hcv.
    + by apply (store_wf_zlookup_le cs p j).
Qed.

(** A position past the end leaves only entries below [v]. *)
Lemma position_ok_end cs v :
  position_ok cs v (Z.of_nat (length cs)) -> below cs v (Z.of_nat (length cs)).
Proof.
  intros [_ [(c & Hc & _) | (Hbelow & _)]]; [|done].
  apply zlookup_Some_range in Hc. lia.
Qed.

Section AgainstTheInterface.
Context `{RankIndex}.

(** [determineCompanies] is the pair at the position the index returns. *)
(** The companies [determineCompanies] sets are entries of the store. *)
Lemma determineCompanies_elem cs v cur nx :
  determineCompanies cs v = Returns (cur, nx) ->
  (forall c, cur = Some c -> c ∈ cs) /\ (forall c, nx = Some c -> c ∈ cs).
Proof.
  unfold determineCompanies. destruct cs as [|c0 cs']; [intros [= <- <-]; split; discriminate|].
  destruct (rank_position (c0 :: cs') v) as [p| |]; cbv [mbind outcome_bind]; try discriminate.
  repeat case_if; intros [= <- <-];
    split; intros c Hc; try discriminate; apply elem_of_zlookup; eexists; exact Hc.
Qed.

Lemma determineCompanies_at cs v :
  store_wf cs -> cs <> [] ->
  exists p, rank_position cs v = Returns p /\ position_ok cs v p /\
            determineCompanies cs v = Returns (neighbors_at cs p).
Proof.
  intros Hwf Hne. destruct (rank_position_ok cs v Hwf) as (p & Hp & Hok).
  exists p. split; [done|]. split; [done|].
  unfold determineCompanies, neighbors_at. destruct cs as [|c cs']; [done|].
  rewrite Hp. cbv [mbind outcome_bind].
  destruct (p =? 0)%Z eqn:E0, (p =? Z.of_nat (length (c :: cs')))%Z eqn:En;
    try reflexivity.
  - apply Z.eqb_eq in E0, En. simpl in En. lia.
  - apply Z.eqb_eq in E0. by subst p.
Qed.

(** On a well-formed store, [determineCompanies] always returns. *)
Lemma determineCompanies_returns cs v :
  store_wf cs -> exists cur next, determineCompanies cs v = Returns (cur, next).
Proof.
  intros Hwf. destruct cs as [|c cs']; [by exists None, None|].
  destruct (determineCompanies_at (c :: cs') v Hwf ltac:(done)) as (p & _ & _ & ->).
  destruct (neighbors_at (c :: cs') p) as [cur next]. by exists cur, next.
Qed.

Lemma determineCompanies_current_gen cs v :
  store_wf cs -> cs <> [] -> isNaN v = false ->
  exists cur next, determineCompanies cs v = Returns (Some cur, next) /\ cur ∈ cs /\
  ((v <=js marketcap cur = true /\
    forall c, c ∈ cs -> v <=js marketcap c = true -> marketcap cur <=js marketcap c = true) \/
   ((forall c, c ∈ cs -> marketcap c <js v = true) /\ next = None /\ last cs = Some cur)).
Proof.
  intros Hwf Hne Hv. destruct (determineCompanies_at cs v Hwf Hne) as (p & _ & Hok & ->).
  unfold neighbors_at. destruct (Z.eqb_spec p (Z.of_nat (length cs))) as [->|Hp].
  - rewrite zlookup_last by done.
    destruct (proj2 (last_is_Some cs) Hne) as [cur Hcur]. rewrite Hcur.
    exists cur, None. split; [done|]. split; [by eapply last_Some_elem_of|].
    right. split; [|done].
    intros c (j & Hj)%elem_of_zlookup. apply (position_ok_end cs v Hok j c); [|done].
    apply zlookup_Some_range in Hj. lia.
  - destruct (zlookup_in_range cs p) as [cur Hcur]; [destruct Hok; lia|].
    rewrite Hcur. exists cur, (cs !!Z (p + 1)). split; [done|].
    split; [apply elem_of_zlookup; eauto|].
    left. by apply (position_ok_current cs v p).
Qed.

Lemma determineCompanies_next_gen cs v cur nx :
  store_wf cs -> determineCompanies cs v = Returns (Some cur, Some nx) ->
  exists i, cs !!Z i = Some cur /\ cs !!Z (i + 1) = Some nx /\
            marketcap cur <=js marketcap nx = true.
Proof.
  intros Hwf Hdc. destruct cs as [|c cs']; [done|].
  destruct (determineCompanies_at (c :: cs') v Hwf ltac:(done)) as (p & _ & _ & Hat).
  rewrite Hdc in Hat. unfold neighbors_at in Hat.
  destruct (Z.eqb _ _); [done|]. injection Hat as Hcur Hnx.
  exists p. split; [done|]. split; [done|].
  apply (store_wf_zlookup_le (c :: cs') p (p + 1)); auto with lia.
Qed.

Lemma determineCompanies_low_gen cs v :
  store_wf cs -> cs <> [] -> above cs v 0 ->
  determineCompanies cs v = Returns (cs !!Z 0, cs !!Z 1).
Proof.
  intros Hwf Hne Habove0. destruct (determineCompanies_at cs v Hwf Hne) as (p & _ & Hok & ->).
  assert (p = 0%Z) as ->.
  { destruct Hok as (Hrange & [(c & Hc & Heq) | (Hbelow & _)]).
    - exfalso. destruct (Habove0 p c ltac:(lia) Hc). congruence.
    - destruct (Z.eq_dec p 0) as [|Hp]; [done|]. exfalso.
      destruct (zlookup_in_range cs 0) as [c Hc]; [destruct cs; [done|]; simpl; lia|].
      destruct (Habove0 0%Z c ltac:(lia) Hc). rewrite (Hbelow 0%Z c) in *; [done|lia|done]. }
  unfold neighbors_at. destruct (Z.eqb_spec 0 (Z.of_nat (length cs))); [|done].
  destruct cs; [done|]. simpl in *. lia.
Qed.

Lemma determineCompanies_high_gen cs v :
  store_wf cs -> cs <> [] -> below cs v (Z.of_nat (length cs)) ->
  determineCompanies cs v = Returns (last cs, None).
Proof.
  intros Hwf Hne Hbelow_n. destruct (determineCompanies_at cs v Hwf Hne) as (p & _ & Hok & ->).
  assert (p = Z.of_nat (length cs)) as ->.
  { destruct Hok as (Hrange & [(c & Hc & Heq) | (_ & Habove)]).
    - exfalso. pose proof (zlookup_Some_range _ _ _ Hc).
      pose proof (Hbelow_n p c ltac:(lia) Hc) as Hcv.
      by rewrite strict_eq_not_lt in Hcv.
    - destruct (Z.eq_dec p (Z.of_nat (length cs))) as [|Hp]; [done|]. exfalso.
      destruct (zlookup_in_range cs p) as [c Hc]; [lia|].
      destruct (Habove p c ltac:(lia) Hc) as [Hlt _].
      by rewrite (Hbelow_n p c ltac:(lia) Hc) in Hlt. }
  unfold neighbors_at. rewrite Z.eqb_refl, zlookup_last; done.
Qed.

(** The current company has the market cap of the specification's
    current company (the entry at [lower_bound]). *)
Lemma determineCompanies_spec_gen cs v :
  store_wf cs -> exists cur next, determineCompanies cs v = Returns (cur, next) /\
    option_Forall2 (fun a b => marketcap a ≡ marketcap b) cur (neighbors_spec cs v).1.
Proof.
  intros Hwf. destruct cs as [|c cs']; [exists None, None; split; [done|constructor]|].
  set (cs := c :: cs').
  destruct (determineCompanies_at cs v Hwf ltac:(done)) as (p & _ & Hok & ->).
  exists (neighbors_at cs p).1, (neighbors_at cs p).2.
  split; [by destruct (neighbors_at cs p)|].
  assert (neighbors_spec cs v = neighbors_at cs (Z.of_nat (lower_bound cs v))) as ->
    by reflexivity.
  destruct (position_ok_refines cs v p Hwf Hok) as [<-|(Hlt & Hall)].
  - destruct (neighbors_at cs _).1; constructor; reflexivity.
  - unfold neighbors_at. rewrite !(proj2 (Z.eqb_neq _ _)) by lia. cbn [fst].
    destruct (zlookup_in_range cs p) as [b Hb]; [lia|].
    destruct (zlookup_in_range cs (Z.of_nat (lower_bound cs v))) as [a Ha]; [lia|].
    rewrite Ha, Hb. constructor.
    pose proof (strict_eq_equiv _ _ (Hall p b ltac:(lia) Hb)) as Hbv.
    pose proof (strict_eq_equiv _ _ (Hall (Z.of_nat (lower_bound cs v)) a ltac:(lia) Ha)) as Hav.
    by rewrite Hbv, Hav.
Qed.

Lemma determineCompanies_strict_gen cs v :
  store_wf cs -> StronglySorted (fun a b => marketcap a <js marketcap b = true) cs ->
  determineCompanies cs v = Returns (neighbors_spec cs v).
Proof.
  intros Hwf Hstrict. destruct cs as [|c cs']; [done|].
  destruct (determineCompanies_at (c :: cs') v Hwf ltac:(done)) as (p & _ & Hok & ->).
  by rewrite (position_ok_strict (c :: cs') v p).
Qed.

End AgainstTheInterface.

Lemma above_0_of_all cs v :
  (forall c, c ∈ cs -> marketcap c <js v = false /\ marketcap c ===js v = false) ->
  above cs v 0.
Proof. intros Hall j c _ Hc. apply Hall, elem_of_zlookup. eauto. Qed.

Lemma below_of_all cs v :
  (forall c, c ∈ cs -> marketcap c <js v = true) -> below cs v (Z.of_nat (length cs)).
Proof. intros Hall j c _ Hc. apply Hall, elem_of_zlookup. eauto. Qed.

(** ** Theorems on [determineCompanies] with the binary search *)

(** C3 determineCompanies_current: on a non-empty well-formed store
    and a market cap that is a number, [determineCompanies] sets a
    [currentCompany] taken from the store, which is either an entry
    whose market cap is at least the value and the smallest such, or,
    when every entry is below the value, the last entry, with no
    [nextUpCompany].  The value is thus at most the current company's
    market cap, not at least it. *)
Theorem determineCompanies_current cs v :
  store_wf cs -> cs <> [] -> isNaN v = false ->
  exists cur next, determineCompanies cs v = Returns (Some cur, next) /\ cur ∈ cs /\
  ((v <=js marketcap cur = true /\
    forall c, c ∈ cs -> v <=js marketcap c = true -> marketcap cur <=js marketcap c = true) \/
   ((forall c, c ∈ cs -> marketcap c <js v = true) /\ next = None /\ last cs = Some cur)).
Proof. apply determineCompanies_current_gen. Qed.

(** C4 determineCompanies_next: [nextUpCompany], when there is one,
    is the entry right after [currentCompany] in the store, and its
    market cap is at least the current one's. *)
Theorem determineCompanies_next cs v cur nx :
  store_wf cs -> determineCompanies cs v = Returns (Some cur, Some nx) ->
  exists i, cs !!Z i = Some cur /\ cs !!Z (i + 1) = Some nx /\
            marketcap cur <=js marketcap nx = true.
Proof. apply determineCompanies_next_gen. Qed.

(** A value no entry reaches from
    below (smaller than every market cap, or [NaN]) makes the smallest
    entry current and the second the next one; a value above every
    market cap makes the last entry current with no next company. *)
Theorem determineCompanies_extremes cs v :
  store_wf cs -> cs <> [] ->
  ((forall c, c ∈ cs -> marketcap c <js v = false /\ marketcap c ===js v = false) ->
   determineCompanies cs v = Returns (head cs, cs !! 1%nat)) /\
  ((forall c, c ∈ cs -> marketcap c <js v = true) ->
   determineCompanies cs v = Returns (last cs, None)).
Proof.
  intros Hwf Hne. split; intros Hall.
  - rewrite determineCompanies_low_gen by auto using above_0_of_all.
    by destruct cs as [|c [|c' cs']].
  - by apply determineCompanies_high_gen, below_of_all.
Qed.

(** [determineCompanies] refines
    the specification [neighbors_spec] (the entry at [lower_bound]) up
    to ties: its current company has the market cap of the
    specification's current company. *)
Theorem determineCompanies_same_rank cs v :
  store_wf cs -> exists cur next, determineCompanies cs v = Returns (cur, next) /\
    option_Forall2 (fun a b => marketcap a ≡ marketcap b) cur (neighbors_spec cs v).1.
Proof. apply determineCompanies_spec_gen. Qed.

(** When the market caps are pairwise
    distinct, [determineCompanies] returns exactly the specification's
    pair. *)
Theorem determineCompanies_strict cs v :
  store_wf cs -> StronglySorted (fun a b => marketcap a <js marketcap b = true) cs ->
  determineCompanies cs v = Returns (neighbors_spec cs v).
Proof. apply determineCompanies_strict_gen. Qed.

(** C15 determineCompanies_linear_equiv: the binary search and the
    linear scan are interchangeable behind the interface: on every
    well-formed store both make [determineCompanies] return, with
    current companies of the same market cap, and on a store of distinct
    market caps they give the same pair. *)
Theorem determineCompanies_linear_equiv cs v :
  store_wf cs ->
  exists r1 r2, @determineCompanies binary_search_index cs v = Returns r1 /\
    @determineCompanies linear_index cs v = Returns r2 /\
    option_Forall2 (fun a b => marketcap a ≡ marketcap b) r1.1 r2.1 /\
    (StronglySorted (fun a b => marketcap a <js marketcap b = true) cs -> r1 = r2).
Proof.
  intros Hwf.
  destruct (@determineCompanies_spec_gen binary_search_index cs v Hwf) as (c1 & n1 & H1 & F1).
  destruct (@determineCompanies_spec_gen linear_index cs v Hwf) as (c2 & n2 & H2 & F2).
  exists (c1, n1), (c2, n2). do 2 (split; [done|]). split.
  - simpl in *. destruct (neighbors_spec cs v).1 as [sp|];
      inversion F1 as [a ? Hab|]; inversion F2 as [a' ? Hab'|]; subst; constructor.
    by rewrite Hab, Hab'.
  - intros Hs. pose proof (@determineCompanies_strict_gen binary_search_index cs v Hwf Hs) as E1.
    pose proof (@determineCompanies_strict_gen linear_index cs v Hwf Hs) as E2. congruence.
Qed.

(** The scenario of the spec, on
    [A 100, B 200, C 300]: the value [150] gives [(B, C)], [200] gives
    [(B, C)], [50] gives [(A, B)] and [1000] gives [(C, none)]. *)
Example determineCompanies_scenarios :
  determineCompanies sample_store (Fin 150) = Returns (Some (mkc "B" "B" 200), Some (mkc "C" "C" 300)) /\
  determineCompanies sample_store (Fin 200) = Returns (Some (mkc "B" "B" 200), Some (mkc "C" "C" 300)) /\
  determineCompanies sample_store (Fin 50) = Returns (Some (mkc "A" "A" 100), Some (mkc "B" "B" 200)) /\
  determineCompanies sample_store (Fin 1000) = Returns (Some (mkc "C" "C" 300), None).
Proof. repeat split; vm_compute; reflexivity. Qed.

(** ** Witnesses *)

Lemma sample_store_wf : store_wf sample_store.
Proof. apply store_wfb_spec. vm_compute. reflexivity. Qed.

Lemma sample_store_strict :
  StronglySorted (fun a b => marketcap a <js marketcap b = true) sample_store.
Proof.
  apply (sorted_by_StronglySorted (fun a b => marketcap a <js marketcap b)).
  - intros a b c. apply num_lt_trans.
  - vm_compute. reflexivity.
Qed.

Lemma determineCompanies_current_witness :
  exists cur next, determineCompanies sample_store (Fin 150) = Returns (Some cur, next) /\
  cur ∈ sample_store /\
  ((Fin 150 <=js marketcap cur = true /\
    forall c, c ∈ sample_store -> Fin 150 <=js marketcap c = true ->
      marketcap cur <=js marketcap c = true) \/
   ((forall c, c ∈ sample_store -> marketcap c <js Fin 150 = true) /\ next = None /\
    last sample_store = Some cur)).
Proof.
  apply determineCompanies_current; [apply sample_store_wf|discriminate|reflexivity].
Defined.

Lemma determineCompanies_next_witness :
  exists i, sample_store !!Z i = Some (mkc "B" "B" 200) /\
    sample_store !!Z (i + 1) = Some (mkc "C" "C" 300) /\
    marketcap (mkc "B" "B" 200) <=js marketcap (mkc "C" "C" 300) = true.
Proof.
  apply (determineCompanies_next sample_store (Fin 150));
    [apply sample_store_wf|vm_compute; reflexivity].
Defined.

Lemma determineCompanies_extremes_witness :
  determineCompanies sample_store (Fin 1000) = Returns (last sample_store, None).
Proof.
  apply (determineCompanies_extremes sample_store (Fin 1000));
    [apply sample_store_wf|discriminate|].
  intros c Hc. apply list_elem_of_In in Hc. simpl in Hc.
  destruct Hc as [<-|[<-|[<-|[]]]]; vm_compute; reflexivity.
Defined.

Lemma determineCompanies_same_rank_witness :
  exists cur next, determineCompanies sample_store (Fin 200) = Returns (cur, next) /\
    option_Forall2 (fun a b => marketcap a ≡ marketcap b) cur
      (neighbors_spec sample_store (Fin 200)).1.
Proof. apply determineCompanies_same_rank, sample_store_wf. Defined.

Lemma determineCompanies_strict_witness :
  determineCompanies sample_store (Fin 150) = Returns (neighbors_spec sample_store (Fin 150)).
Proof.
  apply determineCompanies_strict; [apply sample_store_wf|apply sample_store_strict].
Defined.

Lemma determineCompanies_linear_equiv_witness :
  exists r1 r2, @determineCompanies binary_search_index sample_store (Fin 150) = Returns r1 /\
    @determineCompanies linear_index sample_store (Fin 150) = Returns r2 /\
    option_Forall2 (fun a b => marketcap a ≡ marketcap b) r1.1 r2.1 /\
    (StronglySorted (fun a b => marketcap a <js marketcap b = true) sample_store -> r1 = r2).
Proof. apply determineCompanies_linear_equiv, sample_store_wf. Defined.
