(* ===== verification/MarketCap.v ===== *)
(** * ValuationFeed and ValuationPipeline: [getmarketcaps.js]

    [getmarketcaps.js] keeps one module-level object, [priceCache]
    (lines 27-31).  [fetchSolUsdPrice] (lines 36-53) stores the SOL/USD
    price in it; [fetchTokenBalance] (lines 60-86) reads the balance of
    a vault; [getTotalSupply] (lines 92-105) parses the configured
    supply; [calculateAndEmitMarketCap] (lines 110-146) combines them
    and emits the market cap.  [initMarketCapUpdates] (lines 151-162)
    runs the price fetch every five minutes and the computation every
    two seconds.

    The network is an input: each fetch is given the reply it receives
    ([Reply status body], or [Rejected] when axios rejects, which it
    does on a network error and on a status outside 2xx).  Each handler
    reads and writes [priceCache] only in the synchronous code after its
    last [await], so a run of the program is a sequence of completed
    handler events, each applied atomically, in the order they complete;
    [feed_step] is one event and [feed_reachable] the states a run
    reaches. *)

From S2P Require Import Prelude JsNumber JsParse.

(** ** State and inputs *)

(** [priceCache]; [lastUpdated] is never written after line 29. *)
Record price_cache : Type := {
  solUsd : option number;       (* null until a price is stored *)
  lastUpdated : number;
  splTokenUsd : option number
}.

Definition initial_cache : price_cache :=
  {| solUsd := None; lastUpdated := Fin 0; splTokenUsd := None |}.

(** What axios hands the code. *)
Inductive http_reply (A : Type) : Type :=
| Reply (status : Z) (data : A)
| Rejected.
Arguments Reply {A} status data.
Arguments Rejected {A}.

(** [response.data.solana.usd]: [solana] may be missing (reading [.usd]
    then throws a [TypeError]), [usd] may be missing or [null]. *)
Inductive price_body : Type :=
| NoSolana
| Solana (usd : option number).

(** [response.data.result.value.uiAmount]: [result] may be missing
    (a [TypeError]), [uiAmount] is [null], absent, a number or a
    string. *)
Inductive ui_amount : Type :=
| UiNull
| UiUndefined
| UiNumber (n : number)
| UiString (s : string).

Inductive balance_body : Type :=
| NoResult
| Result (ui : ui_amount).

(** The environment read at load time (line 16). *)
Record config : Type := {
  TOKEN_TOTAL_SUPPLY : option string
}.

(** ** The functions *)

(** Lines 36-53: store the price when the reply is a 200 with a truthy
    [usd]; every other path logs and leaves the cache as it was. *)
Definition fetchSolUsdPrice (cache : price_cache) (r : http_reply price_body) : price_cache :=
  match r with
  | Reply status body =>
      if (status =? 200)%Z then
        match body with
        | Solana (Some solPrice) =>
            if truthy solPrice then
              {| solUsd := Some solPrice; lastUpdated := lastUpdated cache;
                 splTokenUsd := splTokenUsd cache |}
            else cache
        | Solana None => cache
        | NoSolana => cache              (* TypeError, caught *)
        end
      else cache
  | Rejected => cache
  end.

(** [parseFloat] of a JSON value: a number converts to its own text and
    back, [undefined] to ["undefined"]. *)
Definition parseFloat_ui (ui : ui_amount) : number :=
  match ui with
  | UiNumber n => n
  | UiString s => parseFloat s
  | UiUndefined => NaN
  | UiNull => NaN
  end.

(** Lines 60-86. *)
Definition fetchTokenBalance (r : http_reply balance_body) : number :=
  match r with
  | Reply status body =>
      if (status =? 200)%Z then
        match body with
        | Result UiNull => Fin 0
        | Result ui => parseFloat_ui ui
        | NoResult => Fin 0              (* TypeError, caught *)
        end
      else Fin 0
  | Rejected => Fin 0
  end.

(** Lines 92-105. *)
Definition getTotalSupply (cfg : config) : option number :=
  if str_truthy (TOKEN_TOTAL_SUPPLY cfg) then
    let totalSupply := parseFloat_opt (TOKEN_TOTAL_SUPPLY cfg) in
    if negb (isNaN totalSupply) && (totalSupply >js Fin 0) then Some totalSupply
    else None
  else None.

(** Lines 110-146: the new cache and the market cap emitted, if any. *)
Definition calculateAndEmitMarketCap (cfg : config) (cache : price_cache)
    (wsolReply splReply : http_reply balance_body) : price_cache * option number :=
  let wsolBalance := fetchTokenBalance wsolReply in
  let splTokenBalance := fetchTokenBalance splReply in
  if (wsolBalance >js Fin 0) && (splTokenBalance >js Fin 0) then
    let priceInSol := wsolBalance /js splTokenBalance in
    if priceInSol <=js Fin 0 then (cache, None)
    else
      match solUsd cache with
      | Some solUsd_ =>
          if truthy solUsd_ then
            let splTokenUsd_ := priceInSol *js solUsd_ in
            let cache' := {| solUsd := solUsd cache; lastUpdated := lastUpdated cache;
                             splTokenUsd := Some splTokenUsd_ |} in
            match getTotalSupply cfg with
            | Some totalSupply => (cache', Some (splTokenUsd_ *js totalSupply))
            | None => (cache', None)
            end
          else (cache, None)
      | None => (cache, None)
      end
  else (cache, None).

(** ** Runs *)

(** The completion of one timer callback (lines 153-161). *)
Inductive feed_event : Type :=
| PriceTick (r : http_reply price_body)
| CalcTick (wsol spl : http_reply balance_body).

Definition feed_step (cfg : config) (cache : price_cache) (e : feed_event)
    : price_cache * option number :=
  match e with
  | PriceTick r => (fetchSolUsdPrice cache r, None)
  | CalcTick w s => calculateAndEmitMarketCap cfg cache w s
  end.

(** A run: the final cache and the market caps emitted, in order. *)
Fixpoint run_feed (cfg : config) (cache : price_cache) (es : list feed_event)
    : price_cache * list number :=
  match es with
  | [] => (cache, [])
  | e :: es' =>
      let '(cache1, out) := feed_step cfg cache e in
      let '(cache2, outs) := run_feed cfg cache1 es' in
      (cache2, option_list out ++ outs)
  end.

(** The caches a run reaches from the initial one. *)
Inductive feed_reachable (cfg : config) : price_cache -> Prop :=
| feed_init : feed_reachable cfg initial_cache
| feed_next cache e :
    feed_reachable cfg cache -> feed_reachable cfg (feed_step cfg cache e).1.

(** ** The specification of the price cache *)

(** The price a reply stores, if any. *)
Definition price_of_reply (r : http_reply price_body) : option number :=
  match r with
  | Reply status (Solana (Some p)) => if (status =? 200)%Z && truthy p then Some p else None
  | _ => None
  end.

(** The latest price stored by the run, [prev] when it stores none. *)
Fixpoint latest_price (es : list feed_event) (prev : option number) : option number :=
  match es with
  | [] => prev
  | PriceTick r :: es' =>
      latest_price es' (match price_of_reply r with Some p => Some p | None => prev end)
  | CalcTick _ _ :: es' => latest_price es' prev
  end.

(** ** Lemmas *)

Lemma fetchSolUsdPrice_solUsd cache r :
  solUsd (fetchSolUsdPrice cache r) =
  match price_of_reply r with Some p => Some p | None => solUsd cache end.
Proof.
  destruct r as [status [|[p|]]|]; simpl; try done;
    destruct (status =? 200)%Z; try done; by destruct (truthy p).
Qed.

Lemma calculate_solUsd cfg cache w s :
  solUsd (calculateAndEmitMarketCap cfg cache w s).1 = solUsd cache.
Proof.
  unfold calculateAndEmitMarketCap.
  repeat (case_match || case_if); done.
Qed.

Lemma feed_step_solUsd cfg cache e :
  solUsd (feed_step cfg cache e).1 =
  match e with
  | PriceTick r => match price_of_reply r with Some p => Some p | None => solUsd cache end
  | CalcTick _ _ => solUsd cache
  end.
Proof. destruct e; simpl; [apply fetchSolUsdPrice_solUsd | apply calculate_solUsd]. Qed.

Lemma price_of_reply_truthy r p : price_of_reply r = Some p -> truthy p = true.
Proof.
  destruct r as [status [|[q|]]|]; simpl; try discriminate.
  destruct (status =? 200)%Z, (truthy q) eqn:E; simpl; congruence.
Qed.

Lemma calculate_emits_iff cfg cache w s m :
  (calculateAndEmitMarketCap cfg cache w s).2 = Some m <->
  exists p ts,
    solUsd cache = Some p /\ truthy p = true /\ getTotalSupply cfg = Some ts /\
    fetchTokenBalance w >js Fin 0 = true /\ fetchTokenBalance s >js Fin 0 = true /\
    (fetchTokenBalance w /js fetchTokenBalance s) <=js Fin 0 = false /\
    m = (fetchTokenBalance w /js fetchTokenBalance s) *js p *js ts.
Proof.
  unfold calculateAndEmitMarketCap. split.
  - destruct (fetchTokenBalance w >js Fin 0) eqn:Hw, (fetchTokenBalance s >js Fin 0) eqn:Hs;
      simpl; try discriminate.
    destruct (_ <=js Fin 0) eqn:Hr; [discriminate|].
    destruct (solUsd cache) as [p|] eqn:Hp; [|discriminate].
    destruct (truthy p) eqn:Ht; [|discriminate].
    destruct (getTotalSupply cfg) as [ts|] eqn:Hts; [|discriminate].
    intros [= <-]. eauto 10.
  - intros (p & ts & Hp & Ht & Hts & Hw & Hs & Hr & ->).
    by rewrite Hw, Hs, Hr, Hp, Ht, Hts.
Qed.

Lemma run_feed_cons cfg cache e es :
  run_feed cfg cache (e :: es) =
  ((run_feed cfg (feed_step cfg cache e).1 es).1,
   option_list (feed_step cfg cache e).2 ++ (run_feed cfg (feed_step cfg cache e).1 es).2).
Proof.
  cbn [run_feed]. destruct (feed_step cfg cache e) as [c1 o]. simpl.
  by destruct (run_feed cfg c1 es).
Qed.

Lemma getTotalSupply_pos cfg ts : getTotalSupply cfg = Some ts -> Fin 0 <js ts = true.
Proof.
  unfold getTotalSupply. destruct (str_truthy _); [|done].
  destruct (negb _ && _) eqn:E; [|done]. intros [= <-].
  apply andb_prop in E as [_ E]. exact E.
Qed.

Lemma feed_step_price_truthy cfg cache e :
  match solUsd cache with None => True | Some p => truthy p = true end ->
  match solUsd (feed_step cfg cache e).1 with None => True | Some p => truthy p = true end.
Proof.
  rewrite feed_step_solUsd. destruct e as [r|]; [|done].
  destruct (price_of_reply r) eqn:E; [|done]. by apply price_of_reply_truthy in E.
Qed.

(** ** Theorems *)

(** C22 calculateAndEmitMarketCap_spec: a tick emits a market cap
    exactly when both balances are positive, their ratio is not [<= 0],
    a truthy SOL/USD price is cached and the configured total supply is
    valid; the value emitted is [wsol / spl * solUsd * totalSupply],
    computed with JavaScript's arithmetic. *)
Theorem calculateAndEmitMarketCap_spec cfg cache w s m :
  (calculateAndEmitMarketCap cfg cache w s).2 = Some m <->
  exists p ts,
    solUsd cache = Some p /\ truthy p = true /\ getTotalSupply cfg = Some ts /\
    fetchTokenBalance w >js Fin 0 = true /\ fetchTokenBalance s >js Fin 0 = true /\
    (fetchTokenBalance w /js fetchTokenBalance s) <=js Fin 0 = false /\
    m = (fetchTokenBalance w /js fetchTokenBalance s) *js p *js ts.
Proof. apply calculate_emits_iff. Qed.

(** C23 calculateAndEmitMarketCap_skips: a tick where either balance
    is not positive (zero, a failed fetch, [NaN]) or where no price has
    been cached emits nothing and leaves [priceCache] unchanged. *)
Theorem calculateAndEmitMarketCap_skips cfg cache w s :
  (fetchTokenBalance w >js Fin 0 = false \/ fetchTokenBalance s >js Fin 0 = false \/
   solUsd cache = None) ->
  calculateAndEmitMarketCap cfg cache w s = (cache, None).
Proof.
  unfold calculateAndEmitMarketCap. intros [Hw|[Hs|Hp]].
  - by rewrite Hw.
  - rewrite Hs, andb_false_r. done.
  - rewrite Hp. by repeat case_if.
Qed.

(** C27 calculateAndEmitMarketCap_positive: with a positive cached
    price and a finite token-vault balance, every market cap emitted is
    positive (never [NaN], zero or negative). *)
Theorem calculateAndEmitMarketCap_positive cfg cache w s m p b :
  solUsd cache = Some p -> Fin 0 <js p = true -> fetchTokenBalance s = Fin b ->
  (calculateAndEmitMarketCap cfg cache w s).2 = Some m -> Fin 0 <js m = true.
Proof.
  intros Hp Hp0 Hb (p' & ts & Hp' & _ & Hts & Hw & Hs & _ & ->)%calculate_emits_iff.
  rewrite Hp in Hp'. injection Hp' as <-. rewrite Hb in Hs |- *.
  apply num_mul_pos; [apply num_mul_pos; [|done]|by eapply getTotalSupply_pos].
  apply num_div_pos; [done|]. unfold num_gt in Hs. simpl in Hs. by qcase.
Qed.

(** C26 feed_reachable_price: in every state a run reaches, the
    cached SOL/USD price is [null] or a truthy number: a fetch never
    stores [0], [NaN] or [null], and nothing else writes the field. *)
Theorem feed_reachable_price cfg cache :
  feed_reachable cfg cache ->
  match solUsd cache with None => True | Some p => truthy p = true end.
Proof.
  induction 1 as [|cache e _ IH]; [done|]. by apply feed_step_price_truthy.
Qed.

(** C25 run_feed_latest_price: the cache holds the latest price a run
    stored: after any sequence of price and market-cap ticks,
    [priceCache.solUsd] is the price of the last successful price fetch,
    or the initial value if there was none; failed fetches and ticks do
    not clear it. *)
Theorem run_feed_latest_price cfg cache es :
  solUsd (run_feed cfg cache es).1 = latest_price es (solUsd cache).
Proof.
  revert cache. induction es as [|e es IH]; intros cache; [done|].
  rewrite run_feed_cons. simpl. rewrite IH, feed_step_solUsd. by destruct e.
Qed.

(** C34 invalid_supply_never_emits: when [TOKEN_TOTAL_SUPPLY] is
    missing or invalid, the program keeps running but no tick of any
    run ever emits a market cap (the spec makes this a fatal startup
    error). *)
Theorem invalid_supply_never_emits cfg cache es :
  getTotalSupply cfg = None -> (run_feed cfg cache es).2 = [].
Proof.
  intros Hts. revert cache. induction es as [|e es IH]; intros cache; [done|].
  rewrite run_feed_cons, IH, app_nil_r.
  destruct ((feed_step cfg cache e).2) as [m|] eqn:E; [|done]. exfalso.
  destruct e as [r|w s]; [done|]. simpl in E.
  apply calculate_emits_iff in E as (p & ts & _ & _ & Hts' & _). congruence.
Qed.

(** ** Sample inputs *)

Definition cfg_supply : config := {| TOKEN_TOTAL_SUPPLY := Some "1000000000"%string |}.
Definition cfg_missing : config := {| TOKEN_TOTAL_SUPPLY := None |}.

Definition price_reply (p : number) : http_reply price_body := Reply 200 (Solana (Some p)).
Definition balance_reply (n : number) : http_reply balance_body := Reply 200 (Result (UiNumber n)).

Definition cache_150 : price_cache := fetchSolUsdPrice initial_cache (price_reply (Fin 150)).

(** ** Witnesses *)

Lemma calculateAndEmitMarketCap_skips_witness :
  calculateAndEmitMarketCap cfg_supply cache_150 (balance_reply (Fin 20)) Rejected =
  (cache_150, None).
Proof. apply calculateAndEmitMarketCap_skips. right. left. reflexivity. Defined.

(** The market cap of a tick, [NaN] when none is emitted. *)
Definition emitted (cfg : config) (cache : price_cache) (w s : http_reply balance_body) : number :=
  match (calculateAndEmitMarketCap cfg cache w s).2 with Some m => m | None => NaN end.

Lemma calculateAndEmitMarketCap_positive_witness :
  emitted cfg_supply cache_150 (balance_reply (Fin 20)) (balance_reply (Fin 1000000))
    ≡ Fin 3000000 /\
  Fin 0 <js emitted cfg_supply cache_150 (balance_reply (Fin 20)) (balance_reply (Fin 1000000))
    = true.
Proof.
  split; [apply (bool_decide_unpack _); vm_compute; reflexivity|].
  apply (calculateAndEmitMarketCap_positive cfg_supply cache_150 (balance_reply (Fin 20))
    (balance_reply (Fin 1000000)) _ (Fin 150) 1000000); reflexivity.
Defined.

Lemma feed_reachable_price_witness :
  feed_reachable cfg_supply cache_150 /\
  match solUsd cache_150 with None => True | Some p => truthy p = true end.
Proof.
  assert (feed_reachable cfg_supply cache_150) as H
    by exact (feed_next cfg_supply initial_cache (PriceTick (price_reply (Fin 150))) (feed_init _)).
  split; [exact H|]. exact (feed_reachable_price cfg_supply cache_150 H).
Defined.

Lemma invalid_supply_never_emits_witness :
  (run_feed cfg_missing cache_150 [CalcTick (balance_reply (Fin 20)) (balance_reply (Fin 10))]).2 = [].
Proof. apply invalid_supply_never_emits. reflexivity. Defined.

(** ** Findings *)

(** [if (solPrice)] accepts any non-zero
    number, so a negative price is cached (the spec says a non-positive
    price leaves the cache untouched), and the next tick emits a
    negative market cap. *)
Example negative_price_emitted :
  solUsd (fetchSolUsdPrice cache_150 (price_reply (Fin (-5)))) = Some (Fin (-5)) /\
  (calculateAndEmitMarketCap cfg_supply (fetchSolUsdPrice cache_150 (price_reply (Fin (-5))))
     (balance_reply (Fin 20)) (balance_reply (Fin 10))).2 ≡ Some (Fin (-10000000000)).
Proof. split; [vm_compute; reflexivity|apply (bool_decide_unpack _); vm_compute; reflexivity]. Qed.

(** The guard [priceInSol <= 0] is
    false for [NaN], so two infinite balances (a [uiAmount] that
    overflows a double) give [Infinity / Infinity = NaN] and the tick
    emits [NaN] as the market cap; the spec requires the ratio to be
    positive. *)
Example infinite_balances_emit_nan :
  (calculateAndEmitMarketCap cfg_supply cache_150 (balance_reply PosInf) (balance_reply PosInf)).2
  = Some NaN.
Proof. vm_compute. reflexivity. Qed.

(** C35 nan_emitted_for_infinite_balances: the guard
    [priceInSol <= 0] (line 120) is false for [NaN]: whenever both vault
    balances read as [Infinity] (a [uiAmount] that overflows a double),
    a price is cached and the supply is valid, the tick computes
    [Infinity / Infinity = NaN] and emits [NaN] as the market cap, where
    the spec requires a positive ratio. *)
Theorem nan_emitted_for_infinite_balances cfg cache w s p ts :
  fetchTokenBalance w = PosInf -> fetchTokenBalance s = PosInf ->
  solUsd cache = Some p -> truthy p = true -> getTotalSupply cfg = Some ts ->
  (calculateAndEmitMarketCap cfg cache w s).2 = Some NaN.
Proof.
  intros Hw Hs Hp Ht Hts. unfold calculateAndEmitMarketCap.
  rewrite Hw, Hs. cbn. rewrite Hp, Ht, Hts. by destruct p, ts.
Qed.

(** A balance reply whose [uiAmount]
    is absent yields [parseFloat(undefined) = NaN], not the [0] the spec
    promises for a missing field (the tick still skips); and a total
    supply written with thousands separators, ["1,000,000,000"], is
    read as [1]. *)
Example balance_and_supply_parsing :
  fetchTokenBalance (Reply 200 (Result UiUndefined)) = NaN /\
  getTotalSupply {| TOKEN_TOTAL_SUPPLY := Some "1,000,000,000"%string |} = Some (Fin 1).
Proof. split; vm_compute; reflexivity. Qed.

Lemma nan_emitted_for_infinite_balances_witness :
  (calculateAndEmitMarketCap cfg_supply cache_150 (balance_reply PosInf) (balance_reply PosInf)).2
  = Some NaN.
Proof.
  destruct (getTotalSupply cfg_supply) as [ts|] eqn:E; [|vm_compute in E; discriminate].
  exact (nan_emitted_for_infinite_balances cfg_supply cache_150 (balance_reply PosInf) (balance_reply PosInf) (Fin 150) ts
           eq_refl eq_refl eq_refl eq_refl E).
Defined.
