(* ===== verification/FeedAsync.v ===== *)
(** * The feed's callbacks as they interleave

    [initMarketCapUpdates] ([getmarketcaps.js] lines 151-162) calls
    [fetchSolUsdPrice] once, then [calculateAndEmitMarketCap] when that
    call settles, and sets two timers that call them again every five
    minutes and every two seconds.  Both functions are [async]: a call
    runs to its first [await], and the timers do not wait for it, so
    calls overlap.  [fetchSolUsdPrice] awaits one request (line 38) and
    then writes [priceCache]; [calculateAndEmitMarketCap] awaits two
    (lines 111 and 112), reads [priceCache] and may emit.

    [feed_state] holds the calls suspended at an await, numbered in the
    order they were made, with the market caps emitted so far tagged
    by the call that computed them.  [async_step] is one timer firing or
    one request settling.  [MarketCap] models a run as the sequence of
    completed callbacks ([run_feed]); the simulation lemma
    [async_step_sim] shows that every step here is a step of that model
    or changes nothing it sees, so the theorems proved of [run_feed]
    hold of the interleaved program.  The order the spec promises ("a
    newer fetch overwrites an older one", broadcasts "in the order the
    fast timer produced them") holds when calls do not overlap
    ([emitted_in_call_order]); when they do, values and prices are
    written in the order the requests settle, so an older call or fetch
    that settles last overwrites a newer one ([older_call_emits_last],
    [older_fetch_settles_last]). *)

From S2P Require Import Prelude JsNumber JsParse MarketCap.
From stdpp Require Import gmap.

(** ** State and events *)

(** Where a call of [calculateAndEmitMarketCap] is suspended. *)
Inductive tick_stage : Type :=
| AwaitWsol                                   (* line 111 *)
| AwaitSpl (wsol : http_reply balance_body).  (* line 112, the first reply in hand *)

Record feed_state : Type := {
  fd_cache : price_cache;             (* [priceCache] *)
  fd_fetches : gmap nat bool;         (* [fetchSolUsdPrice] calls at line 38;
                                         [true] for the call of line 153, whose
                                         [then] calls [calculateAndEmitMarketCap] *)
  fd_ticks : gmap nat tick_stage;     (* [calculateAndEmitMarketCap] calls at an await *)
  fd_next_fetch : nat;
  fd_next_tick : nat;
  fd_emitted : list (nat * number)    (* emitted market caps, with the call that computed each *)
}.

(** [require('./getmarketcaps')] runs line 165: the first price fetch is
    under way. *)
Definition initial_feed : feed_state := {|
  fd_cache := initial_cache; fd_fetches := {[0%nat := true]}; fd_ticks := ∅;
  fd_next_fetch := 1; fd_next_tick := 0; fd_emitted := []
|}.

Inductive async_event : Type :=
| PriceTimer                                          (* line 158 fires *)
| CalcTimer                                           (* line 161 fires *)
| PriceReply (id : nat) (r : http_reply price_body)   (* the request of fetch [id] settles *)
| WsolReply (id : nat) (r : http_reply balance_body)  (* the first request of call [id] *)
| SplReply (id : nat) (r : http_reply balance_body).  (* the second request of call [id] *)

(** ** Steps *)

(** A call of [calculateAndEmitMarketCap] runs to line 111. *)
Definition start_tick (s : feed_state) : feed_state := {|
  fd_cache := fd_cache s; fd_fetches := fd_fetches s;
  fd_ticks := <[fd_next_tick s := AwaitWsol]> (fd_ticks s);
  fd_next_fetch := fd_next_fetch s; fd_next_tick := S (fd_next_tick s);
  fd_emitted := fd_emitted s
|}.

(** A call of [fetchSolUsdPrice] runs to line 38. *)
Definition start_fetch (s : feed_state) : feed_state := {|
  fd_cache := fd_cache s; fd_fetches := <[fd_next_fetch s := false]> (fd_fetches s);
  fd_ticks := fd_ticks s; fd_next_fetch := S (fd_next_fetch s);
  fd_next_tick := fd_next_tick s; fd_emitted := fd_emitted s
|}.

Section Async.
Variable cfg : config.

(** The fetch of line 38 settles: lines 39-52 run to the end of the
    call; for the call of line 153 the [then] of line 154 follows. *)
Definition price_settles (s : feed_state) (id : nat) (r : http_reply price_body) : feed_state :=
  match (fd_fetches s !! id : option bool) with
  | Some chained =>
      let s1 := {|
        fd_cache := fetchSolUsdPrice (fd_cache s) r; fd_fetches := delete id (fd_fetches s);
        fd_ticks := fd_ticks s; fd_next_fetch := fd_next_fetch s;
        fd_next_tick := fd_next_tick s; fd_emitted := fd_emitted s |} in
      if chained then start_tick s1 else s1
  | None => s
  end.

(** The first request settles: the call moves on to line 112. *)
Definition wsol_settles (s : feed_state) (id : nat) (r : http_reply balance_body) : feed_state :=
  match fd_ticks s !! id with
  | Some AwaitWsol => {|
      fd_cache := fd_cache s; fd_fetches := fd_fetches s;
      fd_ticks := <[id := AwaitSpl r]> (fd_ticks s); fd_next_fetch := fd_next_fetch s;
      fd_next_tick := fd_next_tick s; fd_emitted := fd_emitted s |}
  | _ => s
  end.

(** The second request settles: lines 114-145 run with the cache as it
    is now. *)
Definition spl_settles (s : feed_state) (id : nat) (r : http_reply balance_body) : feed_state :=
  match fd_ticks s !! id with
  | Some (AwaitSpl w) =>
      let '(cache, out) := calculateAndEmitMarketCap cfg (fd_cache s) w r in
      {| fd_cache := cache; fd_fetches := fd_fetches s;
         fd_ticks := delete id (fd_ticks s); fd_next_fetch := fd_next_fetch s;
         fd_next_tick := fd_next_tick s;
         fd_emitted := fd_emitted s ++ ((fun m => (id, m)) <$> option_list out) |}
  | _ => s
  end.

Definition async_step (s : feed_state) (e : async_event) : feed_state :=
  match e with
  | PriceTimer => start_fetch s
  | CalcTimer => start_tick s
  | PriceReply id r => price_settles s id r
  | WsolReply id r => wsol_settles s id r
  | SplReply id r => spl_settles s id r
  end.

Definition run_async : feed_state -> list async_event -> feed_state := foldl async_step.

Inductive async_reachable : feed_state -> Prop :=
| async_init : async_reachable initial_feed
| async_next s e : async_reachable s -> async_reachable (async_step s e).

(** What the model of [MarketCap] sees of a state. *)
Definition feed_view (s : feed_state) : price_cache * list number :=
  (fd_cache s, snd <$> fd_emitted s).

(** ** Simulation *)

Lemma run_feed_app c es1 es2 :
  run_feed cfg c (es1 ++ es2) =
  ((run_feed cfg (run_feed cfg c es1).1 es2).1,
   (run_feed cfg c es1).2 ++ (run_feed cfg (run_feed cfg c es1).1 es2).2).
Proof.
  revert c. induction es1 as [|e es1 IH]; intros c; [cbn; by destruct (run_feed cfg c es2)|].
  rewrite <- app_comm_cons, !run_feed_cons, IH. cbn. by rewrite app_assoc.
Qed.

Lemma feed_view_start_tick s : feed_view (start_tick s) = feed_view s.
Proof. reflexivity. Qed.

(** Each step of a call is a completed callback of [MarketCap] or is
    invisible to it. *)
Lemma async_step_sim s e :
  feed_view (async_step s e) = feed_view s \/
  exists fe, feed_view (async_step s e) =
    ((feed_step cfg (fd_cache s) fe).1, (feed_view s).2 ++ option_list (feed_step cfg (fd_cache s) fe).2).
Proof.
  destruct e as [| |id r|id r|id r]; cbn [async_step]; [by left|by left|..].
  - unfold price_settles. destruct (fd_fetches s !! id) as [[]|]; [..|by left];
      right; exists (PriceTick r); unfold feed_view; cbn; by rewrite app_nil_r.
  - unfold wsol_settles. left. by destruct (fd_ticks s !! id) as [[]|].
  - unfold spl_settles. destruct (fd_ticks s !! id) as [[|w]|]; [by left| |by left].
    right. exists (CalcTick w r). cbn [feed_step].
    destruct (calculateAndEmitMarketCap cfg (fd_cache s) w r) as [c o]. unfold feed_view. cbn.
    rewrite fmap_app. f_equal. f_equal. by destruct o.
Qed.

Lemma run_async_reachable s evs : async_reachable s -> async_reachable (run_async s evs).
Proof.
  revert s. induction evs as [|e evs IH]; intros s Hs; [done|]. apply IH. by constructor.
Qed.

(** ** Calls that do not overlap *)

(** A step that starts a call of [calculateAndEmitMarketCap] while
    another is still suspended. *)
Definition overlaps (s : feed_state) (e : async_event) : bool :=
  match e with
  | CalcTimer => negb (size (fd_ticks s) =? 0)%nat
  | PriceReply id _ =>
      match (fd_fetches s !! id : option bool) with
      | Some true => negb (size (fd_ticks s) =? 0)%nat
      | _ => false
      end
  | _ => false
  end.

(** A run in which no call starts before the previous one has ended. *)
Fixpoint sequential (s : feed_state) (evs : list async_event) : bool :=
  match evs with
  | [] => true
  | e :: evs' => negb (overlaps s e) && sequential (async_step s e) evs'
  end.

(** At most one call is suspended, it is newer than every call that has
    emitted, and those emitted in the order they were made. *)
Definition seq_inv (s : feed_state) : Prop :=
  (fd_ticks s = ∅ \/ exists id st, fd_ticks s = {[id := st]} /\ (id < fd_next_tick s)%nat /\
     Forall (fun p => (p.1 < id)%nat) (fd_emitted s)) /\
  Forall (fun p => (p.1 < fd_next_tick s)%nat) (fd_emitted s) /\
  StronglySorted lt (fst <$> fd_emitted s).

Lemma StronglySorted_snoc {A} (R : A -> A -> Prop) l x :
  StronglySorted R l -> Forall (fun y => R y x) l -> StronglySorted R (l ++ [x]).
Proof.
  induction l as [|y l IH]; intros Hs Hf; cbn; [by repeat constructor|].
  apply StronglySorted_inv in Hs as [Hs Hy]. apply Forall_cons in Hf as [Hyx Hf].
  constructor; [by apply IH|]. apply Forall_app. split; [done|by constructor].
Qed.

Lemma size_zero_empty (m : gmap nat tick_stage) : (size m =? 0)%nat = true -> m = ∅.
Proof. intros H. apply Nat.eqb_eq in H. by apply map_size_empty_iff. Qed.

Lemma seq_inv_start_tick s : seq_inv s -> fd_ticks s = ∅ -> seq_inv (start_tick s).
Proof.
  intros (_ & Hlt & Hs) He. split; [right|split]; cbn; [|eapply Forall_impl; [exact Hlt|cbn; lia]|done].
  exists (fd_next_tick s), AwaitWsol. rewrite He, insert_empty. split; [done|]. split; [lia|exact Hlt].
Qed.

Lemma seq_inv_step s e : seq_inv s -> overlaps s e = false -> seq_inv (async_step s e).
Proof.
  intros Hinv Hov. destruct e as [| |id r|id r|id r]; cbn [async_step].
  - exact Hinv.
  - apply seq_inv_start_tick; [done|]. apply size_zero_empty. cbn in Hov.
    by destruct (size (fd_ticks s) =? 0)%nat.
  - unfold price_settles. cbn in Hov.
    destruct (fd_fetches s !! id) as [[]|]; [|exact Hinv..].
    apply (seq_inv_start_tick {| fd_cache := fetchSolUsdPrice (fd_cache s) r;
      fd_fetches := delete id (fd_fetches s); fd_ticks := fd_ticks s;
      fd_next_fetch := fd_next_fetch s; fd_next_tick := fd_next_tick s;
      fd_emitted := fd_emitted s |}); [exact Hinv|]. cbn. apply size_zero_empty.
    by destruct (size (fd_ticks s) =? 0)%nat.
  - unfold wsol_settles. pose proof Hinv as ([He|(j & st & Hj & Hlt & Hf)] & Hlt' & Hs).
    { rewrite He, lookup_empty. exact Hinv. }
    rewrite Hj. destruct (decide (j = id)) as [<-|Hne];
      [|rewrite lookup_singleton_ne by done; exact Hinv].
    rewrite lookup_singleton_eq. destruct st; [|exact Hinv].
    split; [|done]. right. exists j, (AwaitSpl r). cbn [fd_ticks fd_next_tick fd_emitted]. rewrite insert_singleton. split; [by case_decide|]. split; [exact Hlt|exact Hf].
  - unfold spl_settles. pose proof Hinv as ([He|(j & st & Hj & Hlt & Hf)] & Hlt' & Hs).
    { rewrite He, lookup_empty. exact Hinv. }
    rewrite Hj. destruct (decide (j = id)) as [<-|Hne];
      [|rewrite lookup_singleton_ne by done; exact Hinv].
    rewrite lookup_singleton_eq. destruct st as [|w]; [exact Hinv|].
    destruct (calculateAndEmitMarketCap cfg (fd_cache s) w r) as [c [m|]]; unfold seq_inv; cbn [fd_ticks fd_next_tick fd_emitted option_list];
      rewrite ?app_nil_r, ?delete_singleton; (split; [left; by case_decide|]); [|done].
    rewrite fmap_app. split; [apply Forall_app; split; [done|constructor; [cbn; lia|done]]|].
    apply StronglySorted_snoc; [done|]. by apply Forall_fmap.
Qed.

Lemma seq_inv_run s evs : seq_inv s -> sequential s evs = true -> seq_inv (run_async s evs).
Proof.
  revert s. induction evs as [|e evs IH]; intros s Hinv Hseq; [done|].
  cbn in Hseq. apply andb_true_iff in Hseq as [Hov Hseq]. apply negb_true_iff in Hov.
  apply IH; [by apply seq_inv_step|done].
Qed.

Lemma seq_inv_initial : seq_inv initial_feed.
Proof. split; [by left|]. split; constructor. Qed.

(** The cache a run of completed callbacks reaches keeps a truthy
    price, when the cache it started from did. *)
Lemma run_feed_price_truthy c es :
  match solUsd c with None => True | Some p => truthy p = true end ->
  match solUsd (run_feed cfg c es).1 with None => True | Some p => truthy p = true end.
Proof.
  revert c. induction es as [|e es IH]; intros c Hc; [done|].
  rewrite run_feed_cons. cbn [fst]. by apply IH, feed_step_price_truthy.
Qed.

(** Every reachable state is seen as a run of completed callbacks. *)
Lemma async_refines_feed_gen s :
  async_reachable s -> exists es, run_feed cfg initial_cache es = feed_view s.
Proof.
  induction 1 as [|s e _ (es & Hes)]; [by exists []|].
  destruct (async_step_sim s e) as [->|(fe & ->)]; [by exists es|].
  exists (es ++ [fe]). rewrite run_feed_app, Hes, run_feed_cons. cbn. by rewrite app_nil_r.
Qed.

(** ** Theorems *)

(** C18 async_refines_feed: however the calls of the feed interleave,
    the price cache and the market caps emitted so far are those of a
    run of completed callbacks, the model of [MarketCap]: the
    interleaved program refines it. *)
Theorem async_refines_feed s :
  async_reachable s -> exists es, run_feed cfg initial_cache es = feed_view s.
Proof. apply async_refines_feed_gen. Qed.

(** C19 emitted_in_call_order: when no call of
    [calculateAndEmitMarketCap] starts before the previous one has
    ended, the market caps are emitted in the order the calls were
    made, each call emitting at most once. *)
Theorem emitted_in_call_order evs :
  sequential initial_feed evs = true ->
  StronglySorted lt (fst <$> fd_emitted (run_async initial_feed evs)).
Proof. intros Hseq. apply (seq_inv_run _ _ seq_inv_initial Hseq). Qed.

(** Through the refinement, the invariant of
    the price cache holds of the interleaved program: in every state,
    whatever calls are in flight, [priceCache.solUsd] is [null] or a
    truthy number. *)
Theorem async_price_truthy s :
  async_reachable s ->
  match solUsd (fd_cache s) with None => True | Some p => truthy p = true end.
Proof.
  intros Hr. destruct (async_refines_feed_gen s Hr) as (es & Hes).
  change (fd_cache s) with (feed_view s).1. rewrite <- Hes. by apply run_feed_price_truthy.
Qed.



End Async.

(** ** Calls that overlap *)

(** When calls overlap, an older
    reading overwrites a newer one: the call made second emits first and
    the call made first emits last, so the value the server is left
    with comes from the older balances; and a price fetch made first
    and settling last leaves its older price in the cache. *)
Example overlapping_calls_reorder :
  fst <$> fd_emitted (run_async cfg_supply initial_feed
    [PriceReply 0 (price_reply (Fin 150)); CalcTimer;
     WsolReply 1 (balance_reply (Fin 2)); SplReply 1 (balance_reply (Fin 1));
     WsolReply 0 (balance_reply (Fin 1)); SplReply 0 (balance_reply (Fin 1))]) = [1; 0]%nat /\
  solUsd (fd_cache (run_async cfg_supply initial_feed
    [PriceTimer; PriceReply 1 (price_reply (Fin 200)); PriceReply 0 (price_reply (Fin 150))]))
    = Some (Fin 150).
Proof. split; vm_compute; reflexivity. Qed.

(** ** Witnesses *)

(** The first price, then two calls one after the other. *)
Definition sample_sequential : list async_event :=
  [PriceReply 0 (price_reply (Fin 150));
   WsolReply 0 (balance_reply (Fin 1)); SplReply 0 (balance_reply (Fin 1));
   CalcTimer; WsolReply 1 (balance_reply (Fin 2)); SplReply 1 (balance_reply (Fin 1))].

Lemma emitted_in_call_order_witness :
  sequential cfg_supply initial_feed sample_sequential = true /\
  fst <$> fd_emitted (run_async cfg_supply initial_feed sample_sequential) = [0; 1]%nat /\
  StronglySorted lt (fst <$> fd_emitted (run_async cfg_supply initial_feed sample_sequential)).
Proof.
  assert (sequential cfg_supply initial_feed sample_sequential = true) as Hs by reflexivity.
  split; [exact Hs|]. split; [vm_compute; reflexivity|].
  exact (emitted_in_call_order cfg_supply sample_sequential Hs).
Defined.

Lemma async_refines_feed_witness :
  async_reachable cfg_supply (run_async cfg_supply initial_feed sample_sequential) /\
  exists es, run_feed cfg_supply initial_cache es =
    feed_view (run_async cfg_supply initial_feed sample_sequential).
Proof.
  assert (async_reachable cfg_supply (run_async cfg_supply initial_feed sample_sequential)) as Hr
    by (apply run_async_reachable; constructor).
  split; [exact Hr|]. exact (async_refines_feed cfg_supply _ Hr).
Defined.

Lemma async_price_truthy_witness :
  async_reachable cfg_supply (run_async cfg_supply initial_feed sample_sequential) /\
  match solUsd (fd_cache (run_async cfg_supply initial_feed sample_sequential)) with
  | None => True | Some p => truthy p = true end.
Proof.
  assert (async_reachable cfg_supply (run_async cfg_supply initial_feed sample_sequential)) as Hr
    by (apply run_async_reachable; constructor).
  split; [exact Hr|]. exact (async_price_truthy cfg_supply _ Hr).
Defined.



