(* ===== verification/Json.v ===== *)
(** * JSON values on the WebSocket

    The server sends [JSON.stringify(data)] and the page reads
    [JSON.parse(event.data)].  The text itself is not modelled: a
    message is the JSON value the text denotes, and [JSON.parse] gives
    that value back.  What [JSON.stringify] does to the data is
    modelled: a finite number is kept, [NaN] and the infinities become
    [null], [null] stays [null], and an object keeps its fields in
    order.  [json_get] is a property read on the parsed value, [None]
    being [undefined].  The server sends only [null], numbers, strings
    and objects, so booleans and arrays are not in the type. *)

From S2P Require Import Prelude JsNumber.

Inductive json : Type :=
| JNull
| JNum (q : Q)
| JStr (s : string)
| JObj (fields : list (string * json)).

(** [JSON.stringify] of a number. *)
Definition json_of_number (x : number) : json :=
  match x with Fin q => JNum q | _ => JNull end.

(** [JSON.stringify] of a value that is [null] or present. *)
Definition json_of_option {A} (f : A -> json) (o : option A) : json :=
  match o with Some a => f a | None => JNull end.

(** [obj.key] on a parsed value.  [JSON.parse] keeps the last of
    duplicate keys, so the last field with the key is read. *)
Definition json_get (o : json) (key : string) : option json :=
  match o with
  | JObj fields =>
      match List.find (fun kv => String.eqb kv.1 key) (rev fields) with
      | Some kv => Some kv.2
      | None => None
      end
  | _ => None
  end.

(** [if (x)] on a parsed value: [null], [0] and [""] are falsy, every
    object is truthy. *)
Definition json_truthy (j : json) : bool :=
  match j with
  | JNull => false
  | JNum q => negb (Qeq_bool q 0)
  | JStr s => negb (String.eqb s "")
  | JObj _ => true
  end.
