(* ===== verification/JsonText.v ===== *)
(** * JSON text: [JSON.stringify] and [JSON.parse]

    The server turns every message into text with [JSON.stringify]
    ([server.js] lines 139 and 163) and the page reads it back with
    [JSON.parse] ([App.js] line 27).  This file models both on the
    values of [Json]: [stringify] writes the text (strings quoted and
    escaped by QuoteJSONString, no white space), [JSON_parse] is the
    JSON grammar read by recursive descent.  The digits of a number are
    those of Number::toString, which is the class [NumberText]: its law
    is that the JSON number grammar reads the text back; the instance
    [int_number_text] prints integers as JavaScript does, in plain
    decimal digits.  The round-trip theorems show that the text carries
    every value exactly.

    Text is a list of 8-bit code units; [JSON.parse] of a [\u] escape
    above [ÿ] has no such unit and is outside the model ([None]), as
    are the literals [true], [false] and arrays, which the server never
    sends. *)

From S2P Require Import Prelude JsNumber JsParse Json.

(** ** Induction on JSON values *)

Section json_ind_fields.
Variable P : json -> Prop.
Hypothesis P_null : P JNull.
Hypothesis P_num : forall q, P (JNum q).
Hypothesis P_str : forall s, P (JStr s).
Hypothesis P_obj : forall fs, Forall (fun kv => P kv.2) fs -> P (JObj fs).

Fixpoint json_ind_fields (j : json) : P j :=
  match j with
  | JNull => P_null
  | JNum q => P_num q
  | JStr s => P_str s
  | JObj fs =>
      P_obj fs ((fix go (fs : list (string * json)) : Forall (fun kv => P kv.2) fs :=
                   match fs with
                   | [] => @List.Forall_nil _ (fun kv => P kv.2)
                   | kv :: fs' => @List.Forall_cons _ (fun kv => P kv.2) kv fs' (json_ind_fields kv.2) (go fs')
                   end) fs)
  end.
End json_ind_fields.

(** ** Characters *)

(** The quotation mark (34) and the backslash (92), bit by bit. *)
Definition dquote : ascii := Ascii false true false false false true false false.
Definition bslash : ascii := Ascii false false true true true false true false.

(** A lowercase hexadecimal digit. *)
Definition hex_char (d : nat) : ascii :=
  if (d <? 10)%nat then ascii_of_nat (48 + d) else ascii_of_nat (87 + d).

Definition hex_value (c : ascii) : option nat :=
  let n := nat_of_ascii c in
  if ((48 <=? n) && (n <=? 57))%nat then Some (n - 48)%nat
  else if ((97 <=? n) && (n <=? 102))%nat then Some (n - 87)%nat
  else if ((65 <=? n) && (n <=? 70))%nat then Some (n - 55)%nat
  else None.

(** ** QuoteJSONString *)

Definition quote_char (c : ascii) : list ascii :=
  let n := nat_of_ascii c in
  if (n =? 34)%nat then [bslash; dquote]
  else if (n =? 92)%nat then [bslash; bslash]
  else if (n =? 8)%nat then [bslash; "b"%char]
  else if (n =? 9)%nat then [bslash; "t"%char]
  else if (n =? 10)%nat then [bslash; "n"%char]
  else if (n =? 12)%nat then [bslash; "f"%char]
  else if (n =? 13)%nat then [bslash; "r"%char]
  else if (n <? 32)%nat then
    [bslash; "u"%char; "0"%char; "0"%char; hex_char (n / 16); hex_char (n mod 16)]
  else [c].

Definition quote (s : list ascii) : list ascii := dquote :: flat_map quote_char s ++ [dquote].

(** ** The string literal of [JSON.parse]

    After the opening quote: the characters up to the closing quote,
    with escapes decoded, and the text after it.  A raw control
    character is a SyntaxError. *)
Fixpoint parse_chars (s : list ascii) : option (list ascii * list ascii) :=
  match s with
  | [] => None
  | c :: r =>
      if (c =? dquote)%char then Some ([], r)
      else if (c =? bslash)%char then
        match r with
        | e :: r' =>
            let esc (d : ascii) := (fun '(cs, t) => (d :: cs, t)) <$> parse_chars r' in
            if (e =? dquote)%char then esc dquote
            else if (e =? bslash)%char then esc bslash
            else if (e =? "/")%char then esc "/"%char
            else if (e =? "b")%char then esc (ascii_of_nat 8)
            else if (e =? "f")%char then esc (ascii_of_nat 12)
            else if (e =? "n")%char then esc (ascii_of_nat 10)
            else if (e =? "r")%char then esc (ascii_of_nat 13)
            else if (e =? "t")%char then esc (ascii_of_nat 9)
            else if (e =? "u")%char then
              match r' with
              | h1 :: h2 :: h3 :: h4 :: r'' =>
                  d1 ← hex_value h1; d2 ← hex_value h2; d3 ← hex_value h3; d4 ← hex_value h4;
                  let v := (((d1 * 16 + d2) * 16 + d3) * 16 + d4)%nat in
                  if (v <? 256)%nat
                  then (fun '(cs, t) => (ascii_of_nat v :: cs, t)) <$> parse_chars r''
                  else None
              | _ => None
              end
            else None
        | [] => None
        end
      else if (nat_of_ascii c <? 32)%nat then None
      else (fun '(cs, t) => (c :: cs, t)) <$> parse_chars r
  end.

(** ** Numbers

    The number production of JSON: an optional minus sign, [0] or a
    digit [1-9] and more digits, an optional fraction with at least one
    digit, and an optional exponent with at least one digit.  The value
    is exact; a text without fraction and exponent reads as an integer. *)
Definition parse_json_number (s : list ascii) : option (Q * list ascii) :=
  let '(neg, s1) :=
    match s with
    | c :: r => if (c =? "-")%char then (true, r) else (false, s)
    | [] => (false, s)
    end in
  match
    match s1 with
    | c :: r => if (c =? "0")%char then Some ([c], r)
                else if is_digit c then Some (take_digits s1) else None
    | [] => None
    end with
  | None => None
  | Some (d1, r1) =>
      match
        match r1 with
        | c :: r => if (c =? ".")%char then
                      match take_digits r with ([], _) => None | (d, r') => Some (d, r') end
                    else Some ([], r1)
        | [] => Some ([], r1)
        end with
      | None => None
      | Some (d2, r2) =>
          match
            match r2 with
            | c :: r =>
                if (c =? "e")%char || (c =? "E")%char then
                  let '(sgn, r') :=
                    match r with
                    | c' :: r'' => if (c' =? "+")%char then (1%Z, r'')
                                   else if (c' =? "-")%char then ((-1)%Z, r'') else (1%Z, r)
                    | [] => (1%Z, r)
                    end in
                  match take_digits r' with
                  | ([], _) => None
                  | (d, r'') => Some ((sgn * digits_value d)%Z, r'')
                  end
                else Some (0%Z, r2)
            | [] => Some (0%Z, r2)
            end with
          | None => None
          | Some (e, r3) =>
              let m := digits_value (d1 ++ d2) in
              let m' := if neg then (- m)%Z else m in
              let v := match d2 with
                       | [] => if (e =? 0)%Z then inject_Z m'
                               else inject_Z m' * Qpower (inject_Z 10) e
                       | _ => inject_Z m' * Qpower (inject_Z 10) (e - Z.of_nat (length d2))
                       end in
              Some (v, r3)
          end
      end
  end.

(** Number::toString of a number, abstracted: a text the number
    production reads back as the same value, on a domain of numbers. *)
Class NumberText : Type := {
  number_text : Q -> list ascii;
  number_text_dom : Q -> bool;
  number_text_head : forall q, number_text_dom q = true ->
    exists c cs, number_text q = c :: cs /\ ((c =? "-")%char || is_digit c) = true;
  number_text_read : forall q rest, number_text_dom q = true -> number_stops rest ->
    parse_json_number (number_text q ++ rest) = Some (q, rest)
}.

(** The decimal digits of an integer [n >= 0], most significant first,
    in front of [acc]. *)
Definition digit_char (d : Z) : ascii := ascii_of_nat (48 + Z.to_nat d).

Fixpoint Z_digits (fuel : nat) (n : Z) (acc : list ascii) : list ascii :=
  match fuel with
  | O => acc
  | S f =>
      let acc' := digit_char (n mod 10) :: acc in
      if (n <? 10)%Z then acc' else Z_digits f (n / 10) acc'
  end.

(** Number::toString of an integer below [10^21] in magnitude: its
    decimal digits, with [-] in front when negative. *)
Definition int_text (z : Z) : list ascii :=
  let ds := Z_digits (S (Z.to_nat (Z.log2 (Z.abs z)))) (Z.abs z) [] in
  if (z <? 0)%Z then "-"%char :: ds else ds.

(** ** Lemmas on strings *)

(** Each character survives its escape. *)
Lemma parse_quote_char c rest :
  parse_chars (quote_char c ++ rest) = (fun '(cs, t) => (c :: cs, t)) <$> parse_chars rest.
Proof. destruct c as [[] [] [] [] [] [] [] []]; reflexivity. Qed.

Lemma parse_quoted s rest :
  parse_chars (flat_map quote_char s ++ dquote :: rest) = Some (s, rest).
Proof.
  induction s as [|c s IH]; [reflexivity|].
  cbn [flat_map]. rewrite <- app_assoc, parse_quote_char, IH. reflexivity.
Qed.

(** ** Lemmas on integer texts *)

Lemma digit_char_facts d :
  (0 <= d < 10)%Z -> is_digit (digit_char d) = true /\ digit_value (digit_char d) = d.
Proof.
  intros Hd. unfold is_digit, digit_value, digit_char.
  rewrite nat_ascii_embedding by lia. split; [|lia].
  apply andb_true_intro. split; apply Nat.leb_le; lia.
Qed.

Lemma digits_value_snoc ds c :
  digits_value (ds ++ [c]) = (10 * digits_value ds + digit_value c)%Z.
Proof. unfold digits_value. by rewrite fold_left_app. Qed.

Lemma Z_digits_acc f n acc : Z_digits f n acc = Z_digits f n [] ++ acc.
Proof.
  revert n acc. induction f as [|f IH]; intros n acc; [done|]. simpl.
  case_if; [done|]. rewrite IH, (IH _ [_]). by rewrite <- app_assoc.
Qed.

Lemma Z_digits_S f n acc :
  Z_digits (S f) n acc =
  if (n <? 10)%Z then digit_char (n mod 10) :: acc else Z_digits f (n / 10) (digit_char (n mod 10) :: acc).
Proof. reflexivity. Qed.

(** With enough fuel, the digits are a non-empty decimal text with no
    leading zero whose value is [n]. *)
Lemma Z_digits_spec f n :
  (0 <= n < 10 ^ Z.of_nat (S f))%Z ->
  exists c cs, Z_digits (S f) n [] = c :: cs /\ is_digit c = true /\
    Forall (fun d => is_digit d = true) cs /\
    ((c =? "0")%char = true -> n = 0%Z /\ cs = []) /\ digits_value (c :: cs) = n.
Proof.
  revert n. induction f as [|f IH]; intros n Hn.
  - rewrite Z.pow_1_r in Hn. rewrite Z_digits_S. destruct (Z.ltb_spec n 10); [|lia].
    destruct (digit_char_facts (n mod 10) (Z.mod_pos_bound n 10 ltac:(lia))) as [Hd Hv].
    exists (digit_char (n mod 10)), []. split; [done|]. split; [done|]. split; [done|].
    rewrite Z.mod_small in * by lia. split.
    + intros E. apply Ascii.eqb_eq in E. split; [|done].
      rewrite <- Hv, E. reflexivity.
    + unfold digits_value. simpl. lia.
  - rewrite Z_digits_S. destruct (digit_char_facts (n mod 10) (Z.mod_pos_bound n 10 ltac:(lia))) as [Hd Hv].
    destruct (Z.ltb_spec n 10).
    + exists (digit_char (n mod 10)), []. split; [done|]. split; [done|]. split; [done|].
      rewrite Z.mod_small in * by lia. split.
      * intros E. apply Ascii.eqb_eq in E. split; [|done]. rewrite <- Hv, E. reflexivity.
      * unfold digits_value. simpl. lia.
    + rewrite Z_digits_acc.
      destruct (IH (n / 10)%Z) as (c & cs & -> & Hc & Hcs & H0 & Hval).
      { split; [apply Z.div_pos; lia|]. apply Z.div_lt_upper_bound; [lia|].
        rewrite Nat2Z.inj_succ, Z.pow_succ_r in Hn by lia. lia. }
      exists c, (cs ++ [digit_char (n mod 10)]). split; [done|]. split; [done|].
      split; [apply Forall_app; auto|]. split.
      * intros E. destruct (H0 E) as [Hz _]. pose proof (Z.div_str_pos n 10). lia.
      * change (c :: cs ++ [digit_char (n mod 10)]) with ((c :: cs) ++ [digit_char (n mod 10)]).
        rewrite digits_value_snoc, Hval, Hv. pose proof (Z.div_mod n 10). lia.
Qed.

Lemma log2_fuel n : (0 <= n)%Z -> (n < 10 ^ Z.of_nat (S (Z.to_nat (Z.log2 n))))%Z.
Proof.
  intros Hn. rewrite Nat2Z.inj_succ, Z2Nat.id by apply Z.log2_nonneg.
  destruct (Z.eq_dec n 0) as [->|Hn0]; [reflexivity|].
  apply Z.lt_le_trans with (2 ^ Z.succ (Z.log2 n))%Z.
  - apply Z.log2_spec. lia.
  - apply Z.pow_le_mono_l. lia.
Qed.

(** The number production reads a run of digits with no leading zero,
    signed or not, followed by text that cannot continue a number. *)
Lemma parse_json_number_int (neg : bool) c cs rest :
  is_digit c = true -> Forall (fun d => is_digit d = true) cs ->
  ((c =? "0")%char = true -> cs = []) -> number_stops rest ->
  parse_json_number ((if neg then ["-"%char] else []) ++ c :: cs ++ rest) =
  Some (inject_Z (if neg then (- digits_value (c :: cs))%Z else digits_value (c :: cs)), rest).
Proof.
  intros Hc Hcs H0 Hr. destruct (is_digit_facts c Hc) as (_ & Hm & _ & _).
  assert (match c :: cs ++ rest with
          | c0 :: r => if (c0 =? "0")%char then Some ([c0], r)
                       else if is_digit c0 then Some (take_digits (c :: cs ++ rest)) else None
          | [] => None
          end = Some (c :: cs, rest)) as Hint.
  { destruct (c =? "0")%char eqn:E.
    - by rewrite (H0 eq_refl).
    - rewrite Hc. change (c :: cs ++ rest) with ((c :: cs) ++ rest).
      by rewrite (take_digits_app (c :: cs) rest (List.Forall_cons _ _ _ Hc Hcs) Hr). }
  assert (match rest with
          | c0 :: r => if (c0 =? ".")%char then
                         match take_digits r with ([], _) => None | (d, r') => Some (d, r') end
                       else Some ([], rest)
          | [] => Some ([], rest)
          end = Some ([], rest)) as Hfrac.
  { destruct rest as [|c0 r]; [done|]. destruct Hr as (_ & Hdot & _).
    by destruct (Ascii.eqb_spec c0 "."%char). }
  assert (match rest with
          | c0 :: r =>
              if (c0 =? "e")%char || (c0 =? "E")%char then
                let '(sgn, r') :=
                  match r with
                  | c' :: r'' => if (c' =? "+")%char then (1%Z, r'')
                                 else if (c' =? "-")%char then ((-1)%Z, r'') else (1%Z, r)
                  | [] => (1%Z, r)
                  end in
                match take_digits r' with
                | ([], _) => None
                | (d, r'') => Some ((sgn * digits_value d)%Z, r'')
                end
              else Some (0%Z, rest)
          | [] => Some (0%Z, rest)
          end = Some (0%Z, rest)) as Hexp.
  { destruct rest as [|c0 r]; [done|]. destruct Hr as (_ & _ & He & HE).
    by destruct (Ascii.eqb_spec c0 "e"%char), (Ascii.eqb_spec c0 "E"%char). }
  destruct neg; unfold parse_json_number; cbn [app];
    [rewrite Ascii.eqb_refl|rewrite Hm]; rewrite Hint, Hfrac, Hexp, app_nil_r;
    reflexivity.
Qed.

Lemma int_text_read z rest :
  number_stops rest -> parse_json_number (int_text z ++ rest) = Some (inject_Z z, rest).
Proof.
  intros Hr.
  destruct (Z_digits_spec (Z.to_nat (Z.log2 (Z.abs z))) (Z.abs z)) as (c & cs & Hds & Hc & Hcs & H0 & Hv).
  { split; [lia|]. apply log2_fuel. lia. }
  unfold int_text. rewrite Hds.
  assert ((c =? "0")%char = true -> cs = []) as H0' by (intros E; apply (H0 E)).
  destruct (Z.ltb_spec z 0) as [Hz|Hz].
  - pose proof (parse_json_number_int true c cs rest Hc Hcs H0' Hr) as Hp.
    cbn [app] in Hp |- *. rewrite Hp, Hv. do 3 f_equal. lia.
  - pose proof (parse_json_number_int false c cs rest Hc Hcs H0' Hr) as Hp.
    cbn [app] in Hp |- *. rewrite Hp, Hv. do 3 f_equal. lia.
Qed.

Definition int_dom (q : Q) : bool :=
  ((Qden q =? 1)%positive && (Z.abs (Qnum q) <? 10 ^ 21)%Z)%bool.

Lemma int_text_head q :
  int_dom q = true ->
  exists c cs, int_text (Qnum q) = c :: cs /\ ((c =? "-")%char || is_digit c) = true.
Proof.
  intros _. unfold int_text.
  destruct (Z_digits_spec (Z.to_nat (Z.log2 (Z.abs (Qnum q)))) (Z.abs (Qnum q)))
    as (c & cs & Hds & Hc & _).
  { split; [lia|]. apply log2_fuel. lia. }
  rewrite Hds. case_if; eexists _, _; (split; [reflexivity|]); [done|].
  by rewrite Hc, orb_true_r.
Qed.

Lemma int_text_read_Q q rest :
  int_dom q = true -> number_stops rest ->
  parse_json_number (int_text (Qnum q) ++ rest) = Some (q, rest).
Proof.
  destruct q as [n d]. unfold int_dom. simpl. intros Hdom Hr.
  apply andb_true_iff in Hdom as [Hd _]. destruct d; try discriminate.
  apply (int_text_read n rest Hr).
Qed.

(** Integers below [10^21] in magnitude, printed as JavaScript does. *)
#[export] Instance int_number_text : NumberText := {|
  number_text q := int_text (Qnum q);
  number_text_dom := int_dom;
  number_text_head := int_text_head;
  number_text_read := int_text_read_Q
|}.

(** ** [JSON.stringify] and [JSON.parse] *)

Section Text.
Context `{NumberText}.

(** [JSON.stringify(value)]: no white space, object fields in order. *)
Fixpoint stringify (j : json) : list ascii :=
  match j with
  | JNull => ["n"; "u"; "l"; "l"]%char
  | JNum q => number_text q
  | JStr s => quote (list_ascii_of_string s)
  | JObj fs =>
      "{"%char ::
      (fix members (fs : list (string * json)) : list ascii :=
         match fs with
         | [] => []
         | (k, v) :: fs' =>
             quote (list_ascii_of_string k) ++ ":"%char :: stringify v ++
             match fs' with [] => [] | _ => ","%char :: members fs' end
         end) fs ++ ["}"%char]
  end.

(** The fields of an object, as [stringify] writes them. *)
Fixpoint members_text (fs : list (string * json)) : list ascii :=
  match fs with
  | [] => []
  | (k, v) :: fs' =>
      quote (list_ascii_of_string k) ++ ":"%char :: stringify v ++
      match fs' with [] => [] | _ => ","%char :: members_text fs' end
  end.

(** White space of the JSON grammar: space, tab, line feed, return. *)
Definition is_json_ws (c : ascii) : bool :=
  let n := nat_of_ascii c in ((n =? 32) || (n =? 9) || (n =? 10) || (n =? 13))%nat.

Fixpoint skip_ws (s : list ascii) : list ascii :=
  match s with
  | c :: r => if is_json_ws c then skip_ws r else s
  | [] => []
  end.

(** A value, and the text after it. *)
Fixpoint parse_value (fuel : nat) (s : list ascii) {struct fuel} : option (json * list ascii) :=
  match fuel with
  | O => None
  | S f =>
      match skip_ws s with
      | [] => None
      | c :: r =>
          if (c =? dquote)%char then
            (fun '(cs, t) => (JStr (string_of_list_ascii cs), t)) <$> parse_chars r
          else if (c =? "{")%char then
            match skip_ws r with
            | c' :: r' =>
                if (c' =? "}")%char then Some (JObj [], r')
                else (fun '(fs, t) => (JObj fs, t)) <$> parse_members f (skip_ws r)
            | [] => None
            end
          else if (c =? "n")%char then
            match r with
            | u :: l1 :: l2 :: r' =>
                if ((u =? "u") && (l1 =? "l") && (l2 =? "l"))%char then Some (JNull, r') else None
            | _ => None
            end
          else if (c =? "-")%char || is_digit c then
            (fun '(q, t) => (JNum q, t)) <$> parse_json_number (c :: r)
          else None
      end
  end
(** The members of an object after [{], up to and including [}]. *)
with parse_members (fuel : nat) (s : list ascii) {struct fuel}
    : option (list (string * json) * list ascii) :=
  match fuel with
  | O => None
  | S f =>
      match s with
      | c :: r =>
          if (c =? dquote)%char then
            match parse_chars r with
            | Some (k, r1) =>
                match skip_ws r1 with
                | col :: r2 =>
                    if (col =? ":")%char then
                      match parse_value f r2 with
                      | Some (v, r3) =>
                          match skip_ws r3 with
                          | sep :: r4 =>
                              if (sep =? ",")%char then
                                (fun '(fs, t) => ((string_of_list_ascii k, v) :: fs, t))
                                  <$> parse_members f (skip_ws r4)
                              else if (sep =? "}")%char then
                                Some ([(string_of_list_ascii k, v)], r4)
                              else None
                          | [] => None
                          end
                      | None => None
                      end
                    else None
                | [] => None
                end
            | None => None
            end
          else None
      | [] => None
      end
  end.

(** [JSON.parse(text)]: one value and nothing but white space after it;
    [None] is a SyntaxError.  Each level of nesting and each member
    consumes a character, so the length of the text bounds the fuel. *)
Definition JSON_parse (t : list ascii) : option json :=
  match parse_value (S (length t)) t with
  | Some (j, r) => match skip_ws r with [] => Some j | _ => None end
  | None => None
  end.

(** ** Measures and conditions of the round trip *)

(** The fuel [parse_value] needs: one per object and one per member. *)
Fixpoint json_size (j : json) : nat :=
  match j with
  | JObj fs => S (list_sum (map (fun kv => S (json_size kv.2)) fs))
  | _ => O
  end.

Definition members_size (fs : list (string * json)) : nat :=
  list_sum (map (fun kv => S (json_size kv.2)) fs).

(** Every number of the value is in the domain of [number_text]. *)
Fixpoint numbers_ok (j : json) : bool :=
  match j with
  | JNum q => number_text_dom q
  | JObj fs => forallb (fun kv => numbers_ok kv.2) fs
  | _ => true
  end.

(** What [stringify] puts after a value inside a text. *)
Definition value_stops (rest : list ascii) : Prop :=
  match rest with [] => True | c :: _ => c = ","%char \/ c = "}"%char end.

(** ** Lemmas on texts *)

Lemma stringify_JObj fs : stringify (JObj fs) = "{"%char :: members_text fs ++ ["}"%char].
Proof.
  cbn [stringify]. do 2 f_equal.
Qed.

Lemma skip_ws_char c r : is_json_ws c = false -> skip_ws (c :: r) = c :: r.
Proof. intros Hc. simpl. by rewrite Hc. Qed.

Lemma value_stops_number rest : value_stops rest -> number_stops rest.
Proof. destruct rest as [|c r]; [done|]. intros [-> | ->]; vm_compute; repeat split; discriminate. Qed.

Lemma number_head_facts c :
  ((c =? "-")%char || is_digit c) = true ->
  is_json_ws c = false /\ (c =? dquote)%char = false /\ (c =? "{")%char = false /\
  (c =? "n")%char = false.
Proof. destruct c as [[] [] [] [] [] [] [] []]; vm_compute; intros H'; done. Qed.

(** ** The round trip *)

Definition value_roundtrip (j : json) : Prop :=
  numbers_ok j = true -> forall fuel rest, (json_size j < fuel)%nat -> value_stops rest ->
  parse_value fuel (stringify j ++ rest) = Some (j, rest).

Lemma parse_quoted_app s rest :
  parse_chars ((flat_map quote_char s ++ [dquote]) ++ rest) = Some (s, rest).
Proof. rewrite <- app_assoc. apply parse_quoted. Qed.

Lemma members_size_cons k v fs :
  members_size ((k, v) :: fs) = (S (json_size v) + members_size fs)%nat.
Proof. reflexivity. Qed.

Lemma members_text_head fs : fs <> [] -> exists t, members_text fs = dquote :: t.
Proof. destruct fs as [|[k v] fs]; [done|]. intros _. eexists. reflexivity. Qed.

Lemma skip_ws_members fs r : fs <> [] -> skip_ws (members_text fs ++ r) = members_text fs ++ r.
Proof. intros Hne. destruct (members_text_head fs Hne) as [t ->]. by apply skip_ws_char. Qed.

(** The members of an object read back, given that their values do. *)
Lemma parse_members_text fs fuel rest :
  fs <> [] -> Forall (fun kv => value_roundtrip kv.2) fs ->
  forallb (fun kv => numbers_ok kv.2) fs = true -> (members_size fs < fuel)%nat ->
  parse_members fuel (members_text fs ++ "}"%char :: rest) = Some (fs, rest).
Proof.
  intros Hne Hall. revert fuel Hne. induction Hall as [|[k v] fs' Hv Hall' IH]; [done|].
  intros fuel _ Hnum Hsize. destruct fuel as [|f]; [lia|].
  cbn [forallb] in Hnum. apply andb_true_iff in Hnum as [Hnv Hnfs].
  rewrite members_size_cons in Hsize. cbn [snd] in Hv, Hnv.
  cbn [members_text]. unfold quote. rewrite <- !app_assoc. cbn [app].
  cbn [parse_members]. rewrite Ascii.eqb_refl, parse_quoted_app, string_of_list_ascii_of_string.
  rewrite skip_ws_char by reflexivity. rewrite Ascii.eqb_refl, <- app_assoc.
  rewrite (Hv Hnv f) by (lia || (destruct fs'; cbn; [right|left]; reflexivity)).
  destruct fs' as [|kv fs'']; cbn [app]; rewrite skip_ws_char by reflexivity; [reflexivity|].
  rewrite Ascii.eqb_refl, skip_ws_members, IH by (done || lia). reflexivity.
Qed.

Lemma parse_value_stringify j : value_roundtrip j.
Proof.
  induction j as [| q | s | fs IH] using json_ind_fields; intros Hnum fuel rest Hsize Hrest;
    destruct fuel as [|f]; try (cbn in Hsize; lia).
  - reflexivity.
  - destruct (number_text_head q Hnum) as (c & cs & Hq & Hc).
    destruct (number_head_facts c Hc) as (Hws & Hdq & Hbr & Hn).
    cbn [stringify]. rewrite Hq. cbn [app parse_value]. rewrite skip_ws_char by done.
    rewrite Hdq, Hbr, Hn, Hc. change (c :: cs ++ rest) with ((c :: cs) ++ rest).
    rewrite <- Hq, number_text_read by (done || by apply value_stops_number). reflexivity.
  - cbn [stringify]. unfold quote. cbn [app parse_value].
    rewrite skip_ws_char by reflexivity. rewrite Ascii.eqb_refl, parse_quoted_app.
    cbn. by rewrite string_of_list_ascii_of_string.
  - rewrite stringify_JObj. destruct fs as [|kv fs'].
    + cbn [members_text app parse_value]. rewrite !skip_ws_char by reflexivity. reflexivity.
    + assert (kv :: fs' <> []) as Hne by done.
      destruct (members_text_head _ Hne) as [t Ht].
      pose proof (parse_members_text _ f rest Hne IH Hnum) as Hm.
      rewrite Ht in Hm. rewrite Ht. cbn [app]. rewrite <- app_assoc. cbn [app parse_value].
      rewrite !skip_ws_char by reflexivity. cbn -[parse_members parse_chars].
      cbn [app] in Hm. rewrite Hm; [reflexivity|].
      change (json_size (JObj (kv :: fs'))) with (S (members_size (kv :: fs'))) in Hsize. lia.
Qed.

(** The text is at least as long as the fuel it needs. *)
Lemma json_size_le j : (json_size j <= length (stringify j))%nat.
Proof.
  induction j as [| q | s | fs IH] using json_ind_fields; try (cbn; lia).
  rewrite stringify_JObj. change (json_size (JObj fs)) with (S (members_size fs)).
  cbn [length]. rewrite length_app. cbn [length].
  enough (members_size fs <= length (members_text fs))%nat by lia.
  induction IH as [|[k v] fs' Hv Hall Hle]; [done|].
  rewrite members_size_cons. cbn [members_text]. unfold quote. cbn [snd] in Hv.
  rewrite !length_app. cbn [length].
  destruct fs'; [change (members_size []) with 0%nat|];
    rewrite ?length_app; cbn [length] in *; rewrite ?length_app; lia.
Qed.

Lemma parse_stringify j : numbers_ok j = true -> JSON_parse (stringify j) = Some j.
Proof.
  intros Hn. unfold JSON_parse. pose proof (json_size_le j) as Hle.
  pose proof (parse_value_stringify j Hn (S (length (stringify j))) [] ltac:(lia) I) as Hp.
  rewrite app_nil_r in Hp. by rewrite Hp.
Qed.

(** ** Theorems *)

(** [JSON.parse] reads back exactly the
    value [JSON.stringify] wrote, for every value whose numbers
    Number::toString covers: strings with quotes, backslashes and
    control characters, [null], numbers and nested objects with their
    fields in order.  The fuel of [JSON_parse], the length of the text,
    is enough. *)
Theorem JSON_parse_stringify j : numbers_ok j = true -> JSON_parse (stringify j) = Some j.
Proof. apply parse_stringify. Qed.

End Text.

(** ** Witnesses *)

(** A company whose name holds a quotation mark, a backslash and a line
    feed, with a negative number, an empty object and [null]. *)
Definition sample_json : json :=
  JObj [("name"%string, JStr (String "A" (String dquote (String bslash (String (ascii_of_nat 10) EmptyString)))));
        ("symbol"%string, JStr "A"); ("marketcap"%string, JNum (-300)); ("next"%string, JObj []);
        ("none"%string, JNull)].

Lemma JSON_parse_stringify_witness :
  numbers_ok sample_json = true /\ JSON_parse (stringify sample_json) = Some sample_json.
Proof.
  assert (numbers_ok sample_json = true) as Hn by reflexivity.
  split; [exact Hn|]. exact (JSON_parse_stringify sample_json Hn).
Defined.
