(* ===== verification/Server.v ===== *)
(** * BroadcastHub: the WebSocket server of [server.js]

    The module-level state of [server.js] (lines 29-32) is the record
    [server_state], with the WebSocket server's client set [wss.clients]
    as a finite map from connection numbers to sockets.  A socket has
    its [readyState] and the list of messages the server has sent on it.
    The handlers are [on_loaded] ([initServer], lines 208-227, after
    [loadCSVData] settles), [on_connection] (lines 152-172),
    [on_marketcap] (the listener of lines 179-201, calling
    [determineCompanies] and [broadcastData], lines 138-145).
    [server_step] applies one event; before the file is loaded there is
    neither a listener on the emitter nor a listening socket, so events
    then change nothing, and after a failed load the process has
    exited. *)

From S2P Require Import Prelude JsNumber JsParse StableSort Companies Ranking Json.
From stdpp Require Import gmap.

(** ** State *)

(** [WebSocket.readyState] *)
Inductive ready_state : Type := CONNECTING | OPEN | CLOSING | CLOSED.

#[export] Instance ready_state_eq_dec : EqDecision ready_state.
Proof. solve_decision. Defined.

Record client : Type := {
  readyState : ready_state;
  sent : list json          (* messages sent on the socket, oldest first *)
}.

Inductive server_phase : Type :=
| Loading     (* loadCSVData pending: no listener, not listening *)
| Running     (* after line 217 *)
| Failed.     (* process.exit(1), line 225 *)

Record server_state : Type := {
  phase : server_phase;
  companies : list company;
  cryptoMarketCap : option number;
  currentCompany : option company;
  nextUpCompany : option company;
  clients : gmap nat client;
  next_client : nat           (* the number the next connection gets *)
}.

Definition initial_server : server_state := {|
  phase := Loading; companies := []; cryptoMarketCap := None;
  currentCompany := None; nextUpCompany := None; clients := ∅; next_client := 0
|}.

Definition set_clients (st : server_state) (cls : gmap nat client) : server_state := {|
  phase := phase st; companies := companies st; cryptoMarketCap := cryptoMarketCap st;
  currentCompany := currentCompany st; nextUpCompany := nextUpCompany st;
  clients := cls; next_client := next_client st
|}.

(** ** Messages *)

(** [JSON.stringify] of a company object. *)
Definition json_of_company (c : company) : json :=
  JObj [("name"%string, JStr (name c)); ("symbol"%string, JStr (symbol c));
        ("marketcap"%string, json_of_number (marketcap c))].

(** The object of lines 156-160 and 193-197, stringified. *)
Definition snapshot (st : server_state) : json :=
  JObj [("cryptoCoinMarketCap"%string, json_of_option json_of_number (cryptoMarketCap st));
        ("currentCompany"%string, json_of_option json_of_company (currentCompany st));
        ("nextUpCompany"%string, json_of_option json_of_company (nextUpCompany st))].

(** ** Handlers *)

Definition send (msg : json) (c : client) : client :=
  {| readyState := readyState c; sent := sent c ++ [msg] |}.

(** Lines 138-145: send to every client whose state is [OPEN]. *)
Definition broadcastData (msg : json) (cls : gmap nat client) : gmap nat client :=
  (fun c => if decide (readyState c = OPEN) then send msg c else c) <$> cls.

(** Lines 152-172: a new, open socket, sent the current data at once. *)
Definition on_connection (st : server_state) : server_state := {|
  phase := phase st; companies := companies st; cryptoMarketCap := cryptoMarketCap st;
  currentCompany := currentCompany st; nextUpCompany := nextUpCompany st;
  clients := <[next_client st := {| readyState := OPEN; sent := [snapshot st] |}]> (clients st);
  next_client := S (next_client st)
|}.

(** Lines 179-201.  [cryptoMarketCap] is assigned first; an exception
    in [determineCompanies] would end the listener before the
    broadcast (the theorems show there is none). *)
Definition on_marketcap (st : server_state) (v : number) : server_state * option json :=
  let st1 := {|
    phase := phase st; companies := companies st; cryptoMarketCap := Some v;
    currentCompany := currentCompany st; nextUpCompany := nextUpCompany st;
    clients := clients st; next_client := next_client st |} in
  match determineCompanies (companies st) v with
  | Returns (cur, nxt) =>
      let st2 := {|
        phase := phase st; companies := companies st; cryptoMarketCap := Some v;
        currentCompany := cur; nextUpCompany := nxt;
        clients := clients st; next_client := next_client st |} in
      (set_clients st2 (broadcastData (snapshot st2) (clients st2)), Some (snapshot st2))
  | _ => (st1, None)
  end.

(** Lines 208-227: [initServer] once [loadCSVData] settles. *)
Definition on_loaded (st : server_state) (r : outcome (list company * list csv_row)) : server_state :=
  match r with
  | Returns (cs, _) => {|
      phase := Running; companies := cs; cryptoMarketCap := cryptoMarketCap st;
      currentCompany := currentCompany st; nextUpCompany := nextUpCompany st;
      clients := clients st; next_client := next_client st |}
  | _ => {|
      phase := Failed; companies := companies st; cryptoMarketCap := cryptoMarketCap st;
      currentCompany := currentCompany st; nextUpCompany := nextUpCompany st;
      clients := clients st; next_client := next_client st |}
  end.

(** ** Events *)

Inductive server_event : Type :=
| CsvLoaded (src : csv_source)    (* loadCSVData settles *)
| Connection                      (* 'connection' on wss *)
| ClientClosing (id : nat)        (* a socket leaves OPEN *)
| ClientClose (id : nat)          (* 'close': the socket leaves wss.clients *)
| MarketCap (v : number).         (* marketCapEmitter emits 'marketcap' *)

(** One event: the new state and the message broadcast, if any. *)
Definition server_step_out (st : server_state) (e : server_event) : server_state * option json :=
  match phase st, e with
  | Loading, CsvLoaded src => (on_loaded st (loadCSVData src), None)
  | Running, Connection => (on_connection st, None)
  | Running, ClientClosing id =>
      (set_clients st (alter (fun c => {| readyState := CLOSING; sent := sent c |}) id (clients st)),
       None)
  | Running, ClientClose id => (set_clients st (delete id (clients st)), None)
  | Running, MarketCap v => on_marketcap st v
  | _, _ => (st, None)
  end.

Definition server_step (st : server_state) (e : server_event) : server_state :=
  (server_step_out st e).1.

Definition run_server (st : server_state) (es : list server_event) : server_state :=
  foldl server_step st es.

(** The messages broadcast during a run, in order. *)
Fixpoint broadcasts (st : server_state) (es : list server_event) : list json :=
  match es with
  | [] => []
  | e :: es' => option_list (server_step_out st e).2 ++ broadcasts (server_step st e) es'
  end.

Inductive server_reachable : server_state -> Prop :=
| server_init : server_reachable initial_server
| server_next st e : server_reachable st -> server_reachable (server_step st e).

(** ** The invariant *)

(** What holds in every reachable state: nothing happens before the file
    is loaded; the loaded store is well-formed; every socket of the set
    was numbered before [next_client] and has been sent something; every
    open socket was last sent the current data; and [currentCompany],
    [nextUpCompany] are what [determineCompanies] gives for the current
    market cap. *)
Definition server_inv (st : server_state) : Prop :=
  (phase st = Loading -> clients st = ∅ /\ cryptoMarketCap st = None) /\
  (phase st = Running -> store_wf (companies st)) /\
  (forall id c, clients st !! id = Some c -> (id < next_client st)%nat /\ sent c <> []) /\
  (forall id c, clients st !! id = Some c -> readyState c = OPEN ->
     last (sent c) = Some (snapshot st)) /\
  match cryptoMarketCap st with
  | Some v => determineCompanies (companies st) v = Returns (currentCompany st, nextUpCompany st)
  | None => currentCompany st = None /\ nextUpCompany st = None
  end.

Lemma snapshot_set_clients st cls : snapshot (set_clients st cls) = snapshot st.
Proof. reflexivity. Qed.

Lemma lookup_broadcastData msg cls id :
  broadcastData msg cls !! id =
  (fun c => if decide (readyState c = OPEN) then send msg c else c) <$> cls !! id.
Proof. apply lookup_fmap. Qed.

Lemma last_send msg c : last (sent (send msg c)) = Some msg.
Proof. apply last_snoc. Qed.

Lemma sent_send_nonempty msg c : sent (send msg c) <> [].
Proof. unfold send. simpl. destruct (sent c); discriminate. Qed.

Lemma inv_on_loaded st src :
  phase st = Loading -> server_inv st -> server_inv (on_loaded st (loadCSVData src)).
Proof.
  intros Hph (Hload & _ & _ & _ & Hcons).
  destruct (Hload Hph) as [Hcls Hv]. rewrite Hv in Hcons.
  unfold server_inv.
  destruct (loadCSVData src) as [[cs w]| |] eqn:Hl; simpl; rewrite Hv, Hcls;
    (split; [discriminate|]);
    (split; [try discriminate; intros _; by apply loadCSVData_store_wf in Hl|]);
    (split; [intros id c; rewrite lookup_empty; discriminate|]);
    (split; [intros id c; rewrite lookup_empty; discriminate|]); exact Hcons.
Qed.

Lemma inv_on_connection st :
  phase st = Running -> server_inv st -> server_inv (on_connection st).
Proof.
  intros Hph (Hload & Hwf & Hids & Hopen & Hcons). unfold server_inv; simpl.
  split; [rewrite Hph; discriminate|]. split; [done|]. split; [|split; [|exact Hcons]].
  - intros id c Hc. destruct (decide (id = next_client st)) as [->|Hne].
    + rewrite lookup_insert_eq in Hc. injection Hc as <-. split; [lia|discriminate].
    + rewrite lookup_insert_ne in Hc by done. destruct (Hids id c Hc). split; [lia|done].
  - intros id c Hc. destruct (decide (id = next_client st)) as [->|Hne].
    + rewrite lookup_insert_eq in Hc. by injection Hc as <-.
    + rewrite lookup_insert_ne in Hc by done. intros Hop. by apply (Hopen id c).
Qed.

Lemma inv_set_clients st cls :
  server_inv st -> phase st = Running ->
  (forall id c, cls !! id = Some c ->
     exists c0, clients st !! id = Some c0 /\ sent c0 <> [] /\ (sent c0 <> [] -> sent c <> []) /\
       (readyState c = OPEN -> readyState c0 = OPEN /\ sent c = sent c0)) ->
  server_inv (set_clients st cls).
Proof.
  intros (Hload & Hwf & Hids & Hopen & Hcons) Hph Hcls. unfold server_inv; simpl.
  split; [rewrite Hph; discriminate|]. split; [done|]. split; [|split; [|exact Hcons]].
  - intros id c Hc. destruct (Hcls id c Hc) as (c0 & Hc0 & Hne & Himp & _).
    split; [by apply (Hids id c0)|auto].
  - intros id c Hc Hop. destruct (Hcls id c Hc) as (c0 & Hc0 & _ & _ & Hsame).
    destruct (Hsame Hop) as [Hop0 ->]. by apply (Hopen id c0).
Qed.

Lemma inv_closing st id :
  phase st = Running -> server_inv st ->
  server_inv (set_clients st (alter (fun c => {| readyState := CLOSING; sent := sent c |}) id (clients st))).
Proof.
  intros Hph Hinv. apply inv_set_clients; [done..|].
  intros j c Hc. apply lookup_alter_Some in Hc as [(-> & c0 & Hc0 & ->)|(_ & Hc)].
  - exists c0. destruct Hinv as (_ & _ & Hids & _). split; [done|].
    split; [by apply (Hids j c0)|]. split; [done|]. discriminate.
  - exists c. destruct Hinv as (_ & _ & Hids & _). split; [done|].
    split; [by apply (Hids j c)|]. auto.
Qed.

Lemma inv_close st id :
  phase st = Running -> server_inv st -> server_inv (set_clients st (delete id (clients st))).
Proof.
  intros Hph Hinv. apply inv_set_clients; [done..|].
  intros j c (_ & Hc)%lookup_delete_Some. exists c.
  destruct Hinv as (_ & _ & Hids & _). split; [done|]. split; [by apply (Hids j c)|]. auto.
Qed.

Lemma inv_on_marketcap st v :
  phase st = Running -> server_inv st -> server_inv (on_marketcap st v).1.
Proof.
  intros Hph Hinv. pose proof Hinv as (Hload & Hwf & Hids & Hopen & Hcons).
  destruct (determineCompanies_returns (companies st) v (Hwf Hph)) as (cur & nxt & Hdc).
  unfold on_marketcap. rewrite Hdc. simpl. unfold server_inv; simpl.
  split; [rewrite Hph; discriminate|]. split; [done|]. split; [|split; [|exact Hdc]].
  - intros id c (c0 & Heq & Hc0)%lookup_fmap_Some. subst c.
    destruct (Hids id c0 Hc0) as [Hlt Hne]. split; [done|].
    destruct (decide (readyState c0 = OPEN)); [apply sent_send_nonempty|done].
  - intros id c (c0 & Heq & Hc0)%lookup_fmap_Some. subst c.
    destruct (decide (readyState c0 = OPEN)) as [Hop0|Hop0]; [intros _; apply last_send|].
    intros Hop. by destruct Hop0.
Qed.

Lemma server_step_inv st e : server_inv st -> server_inv (server_step st e).
Proof.
  intros Hinv. unfold server_step, server_step_out.
  destruct (phase st) eqn:Hph, e; simpl; try done.
  - by apply inv_on_loaded.
  - by apply inv_on_connection.
  - by apply inv_closing.
  - by apply inv_close.
  - by apply inv_on_marketcap.
Qed.

Lemma server_inv_initial : server_inv initial_server.
Proof.
  unfold server_inv. simpl. split; [done|]. split; [discriminate|].
  split; [intros id c; rewrite lookup_empty; discriminate|].
  split; [intros id c; rewrite lookup_empty; discriminate|]. done.
Qed.

Lemma server_reachable_inv st : server_reachable st -> server_inv st.
Proof.
  induction 1; [apply server_inv_initial|]. by apply server_step_inv.
Qed.

(** The store only ever changes to what [loadCSVData] resolved with. *)
Lemma server_step_companies st e :
  companies (server_step st e) = companies st \/
  exists src w, loadCSVData src = Returns (companies (server_step st e), w).
Proof.
  unfold server_step, server_step_out.
  destruct (phase st), e; simpl; auto.
  - unfold on_loaded. destruct (loadCSVData src) as [[cs w]| |] eqn:Hl; simpl; eauto.
  - unfold on_marketcap. destruct (determineCompanies (companies st) v) as [[]| |]; simpl; auto.
Qed.

Lemma server_reachable_store_wf st : server_reachable st -> store_wf (companies st).
Proof.
  induction 1 as [|st e _ IH]; [split; constructor|].
  destruct (server_step_companies st e) as [-> | (src & w & Hl)]; [done|].
  by apply loadCSVData_store_wf in Hl.
Qed.

(** After a step, a message on a socket is the data of the new state, or
    was already on that socket, the store being unchanged. *)
Lemma server_step_sent st e id c m :
  server_inv st -> clients (server_step st e) !! id = Some c -> m ∈ sent c ->
  m = snapshot (server_step st e) \/
  (companies (server_step st e) = companies st /\ exists c0, clients st !! id = Some c0 /\ m ∈ sent c0).
Proof.
  intros (Hload & _) Hc Hm. unfold server_step, server_step_out in *.
  destruct (phase st) eqn:Hph, e as [src| |j|j|v]; cbn [fst] in *; try (right; split; [done|by eauto]).
  - destruct (Hload eq_refl) as [Hcls _].
    destruct (loadCSVData src) as [[]| |]; cbn in Hc; by rewrite Hcls, lookup_empty in Hc.
  - destruct (decide (id = next_client st)) as [->|Hne]; cbn in Hc.
    + rewrite lookup_insert_eq in Hc. injection Hc as <-. left. by apply list_elem_of_singleton in Hm.
    + rewrite lookup_insert_ne in Hc by done. right. split; [done|eauto].
  - cbn in Hc. apply lookup_alter_Some in Hc as [(-> & c0 & Hc0 & ->)|(_ & Hc)]; right; split; eauto.
  - cbn in Hc. apply lookup_delete_Some in Hc as [_ Hc]. right. split; eauto.
  - unfold on_marketcap in *. destruct (determineCompanies (companies st) v) as [[cur nxt]| |];
      cbn in Hc |- *; [|right; split; eauto..].
    apply lookup_fmap_Some in Hc as (c0 & <- & Hc0).
    destruct (decide (readyState c0 = OPEN)); [|right; split; eauto].
    apply elem_of_app in Hm as [Hm|Hm%list_elem_of_singleton]; [right; split; eauto|by left].
Qed.

(** Every message on a socket is the data of a state the server reached
    earlier, with the store it has now. *)
Lemma server_reachable_sent st id c m :
  server_reachable st -> clients st !! id = Some c -> m ∈ sent c ->
  exists st', server_reachable st' /\ companies st' = companies st /\ m = snapshot st'.
Proof.
  intros Hr. revert id c m. induction Hr as [|st e Hr IH]; intros id c m Hc Hm.
  - cbn in Hc. by rewrite lookup_empty in Hc.
  - destruct (server_step_sent st e id c m (server_reachable_inv st Hr) Hc Hm)
      as [->|(Hcs & c0 & Hc0 & Hm0)].
    + exists (server_step st e). split; [by constructor|done].
    + destruct (IH id c0 m Hc0 Hm0) as (st' & Hr' & Hcs' & ->).
      exists st'. rewrite Hcs. done.
Qed.

(** ** Lemmas on runs *)

Lemma run_server_cons st e es : run_server st (e :: es) = run_server (server_step st e) es.
Proof. reflexivity. Qed.

(** An event that does not close socket [id] sends on it exactly the
    message it broadcasts, if the socket is open. *)
Lemma server_step_open_client st e id l :
  server_inv st -> clients st !! id = Some {| readyState := OPEN; sent := l |} ->
  e <> ClientClosing id -> e <> ClientClose id ->
  clients (server_step st e) !! id =
  Some {| readyState := OPEN; sent := l ++ option_list (server_step_out st e).2 |}.
Proof.
  intros Hinv Hid Hne1 Hne2. destruct Hinv as (_ & _ & Hids & _).
  unfold server_step, server_step_out.
  destruct (phase st), e as [src| |j|j|v]; simpl; rewrite ?app_nil_r; try done.
  - by destruct (loadCSVData src) as [[]| |].
  - rewrite lookup_insert_ne; [done|]. destruct (Hids id _ Hid). lia.
  - rewrite lookup_alter_ne; [done|]. congruence.
  - rewrite lookup_delete_ne; [done|]. congruence.
  - unfold on_marketcap. destruct (determineCompanies (companies st) v) as [[cur nxt]| |];
      simpl; rewrite ?app_nil_r; try done.
    rewrite lookup_broadcastData, Hid. simpl. by rewrite ?decide_True.
Qed.

Lemma run_server_open_client st es id l :
  server_inv st -> clients st !! id = Some {| readyState := OPEN; sent := l |} ->
  Forall (fun e => e <> ClientClosing id /\ e <> ClientClose id) es ->
  clients (run_server st es) !! id =
  Some {| readyState := OPEN; sent := l ++ broadcasts st es |}.
Proof.
  revert st l. induction es as [|e es IH]; intros st l Hinv Hid Hes.
  - by rewrite app_nil_r.
  - apply Forall_cons in Hes as [[Hne1 Hne2] Hes]. rewrite run_server_cons.
    rewrite (IH (server_step st e) (l ++ option_list (server_step_out st e).2));
      [|by apply server_step_inv|by apply server_step_open_client|done].
    simpl. by rewrite app_assoc.
Qed.

(** A socket that is no longer open is never sent anything again. *)
Lemma server_step_closed_client st e id c :
  server_inv st -> clients st !! id = Some c -> readyState c <> OPEN ->
  forall c', clients (server_step st e) !! id = Some c' -> sent c' = sent c /\ readyState c' <> OPEN.
Proof.
  intros Hinv Hid Hop c' Hc'. destruct Hinv as (_ & _ & Hids & _).
  unfold server_step, server_step_out in Hc'.
  destruct (phase st), e as [src| |j|j|v]; simpl in Hc'; try (split; congruence).
  - destruct (loadCSVData src) as [[]| |]; simpl in Hc'; split; congruence.
  - rewrite lookup_insert_ne in Hc'; [split; congruence|]. destruct (Hids id _ Hid). lia.
  - apply lookup_alter_Some in Hc' as [(-> & c0 & Hc0 & ->)|(_ & Hc)]; [|split; congruence].
    rewrite Hid in Hc0. injection Hc0 as <-. simpl. split; [done|discriminate].
  - apply lookup_delete_Some in Hc' as (_ & Hc). split; congruence.
  - unfold on_marketcap in Hc'.
    destruct (determineCompanies (companies st) v) as [[cur nxt]| |]; simpl in Hc';
      try (split; congruence).
    rewrite lookup_broadcastData, Hid in Hc'. simpl in Hc'.
    destruct (decide (readyState c = OPEN)); [done|]. split; congruence.
Qed.

Lemma server_step_next_mono st e : (next_client st <= next_client (server_step st e))%nat.
Proof.
  unfold server_step, server_step_out.
  destruct (phase st), e as [src| |j|j|v]; simpl; try lia.
  - by destruct (loadCSVData src) as [[]| |].
  - unfold on_marketcap. by destruct (determineCompanies (companies st) v) as [[cur nxt]| |].
Qed.

Lemma server_step_gone st e id :
  clients st !! id = None -> (id < next_client st)%nat ->
  clients (server_step st e) !! id = None /\ (id < next_client (server_step st e))%nat.
Proof.
  intros Hid Hlt. unfold server_step, server_step_out.
  destruct (phase st), e as [src| |j|j|v]; simpl; try done.
  - by destruct (loadCSVData src) as [[]| |].
  - rewrite lookup_insert_ne by lia. split; [done|lia].
  - by rewrite lookup_alter_None.
  - rewrite lookup_delete_None. auto.
  - unfold on_marketcap. destruct (determineCompanies (companies st) v) as [[cur nxt]| |];
      simpl; try done.
    by rewrite lookup_broadcastData, Hid.
Qed.

Lemma run_server_closed_client st es id c :
  server_inv st -> clients st !! id = Some c -> readyState c <> OPEN ->
  forall c', clients (run_server st es) !! id = Some c' -> sent c' = sent c.
Proof.
  intros Hinv Hid Hop.
  assert ((exists c', clients st !! id = Some c' /\ sent c' = sent c /\ readyState c' <> OPEN) \/
          (clients st !! id = None /\ (id < next_client st)%nat)) as Hst by eauto.
  clear Hid Hop. revert st Hinv Hst. induction es as [|e es IH]; intros st Hinv Hst c' Hc'.
  - destruct Hst as [(c0 & Hc0 & Hs & _)|[Hn _]]; simpl in Hc'; congruence.
  - rewrite run_server_cons in Hc'. apply (IH (server_step st e)); [by apply server_step_inv| |done].
    destruct Hst as [(c0 & Hc0 & Hs & Hop0)|[Hn Hlt]].
    + destruct (clients (server_step st e) !! id) as [c1|] eqn:Hc1.
      * left. exists c1. destruct (server_step_closed_client st e id c0 Hinv Hc0 Hop0 c1 Hc1).
        split; [done|]. split; [congruence|done].
      * right. split; [done|]. destruct Hinv as (_ & _ & Hids & _).
        destruct (Hids id c0 Hc0). pose proof (server_step_next_mono st e). lia.
    + right. by apply server_step_gone.
Qed.

Lemma next_client_fresh st : server_inv st -> clients st !! next_client st = None.
Proof.
  intros (_ & _ & Hids & _). destruct (clients st !! next_client st) as [c|] eqn:Hc; [|done].
  destruct (Hids _ c Hc). lia.
Qed.

(** ** Theorems *)

(** C7 server_open_clients_synchronized: in every state the server
    reaches, every socket that is open was last sent exactly the
    server's current data [{cryptoCoinMarketCap, currentCompany,
    nextUpCompany}]: connected clients are kept in step with the latest
    value and its neighbours. *)
Theorem server_open_clients_synchronized st id c :
  server_reachable st -> clients st !! id = Some c -> readyState c = OPEN ->
  last (sent c) = Some (snapshot st).
Proof.
  intros Hr. destruct (server_reachable_inv st Hr) as (_ & _ & _ & Hopen & _).
  apply Hopen.
Qed.

(** C24 server_state_consistent: in every state the server reaches,
    [currentCompany] and [nextUpCompany] are the pair [determineCompanies]
    computes from the loaded companies and the current market cap (both
    [null] before the first market cap). *)
Theorem server_state_consistent st :
  server_reachable st ->
  match cryptoMarketCap st with
  | Some v => determineCompanies (companies st) v = Returns (currentCompany st, nextUpCompany st)
  | None => currentCompany st = None /\ nextUpCompany st = None
  end.
Proof. intros Hr. apply (server_reachable_inv st Hr). Qed.

(** Once the server runs, a new
    connection gets a fresh socket in the client set, which is sent
    exactly one message, the current data (all [null] before the first
    market cap), and no other socket is sent anything. *)
Theorem connection_sends_snapshot st :
  server_reachable st -> phase st = Running ->
  clients st !! next_client st = None /\
  clients (server_step st Connection) !! next_client st =
    Some {| readyState := OPEN; sent := [snapshot st] |} /\
  forall id, id <> next_client st -> clients (server_step st Connection) !! id = clients st !! id.
Proof.
  intros Hr Hph. pose proof (server_reachable_inv st Hr) as Hinv.
  split; [by apply next_client_fresh|].
  unfold server_step, server_step_out. rewrite Hph. simpl.
  split; [apply lookup_insert_eq|]. intros id Hne. by apply lookup_insert_ne.
Qed.

(** C21 marketcap_broadcast: when the running server hears a market
    cap [v], it stores [v], sets [currentCompany]/[nextUpCompany] to
    what [determineCompanies] returns (it always returns), and sends the
    new data to every socket in state [OPEN] and to no other; the client
    set is unchanged. *)
Theorem marketcap_broadcast st v :
  server_reachable st -> phase st = Running ->
  exists cur nxt, determineCompanies (companies st) v = Returns (cur, nxt) /\
    cryptoMarketCap (server_step st (MarketCap v)) = Some v /\
    currentCompany (server_step st (MarketCap v)) = cur /\
    nextUpCompany (server_step st (MarketCap v)) = nxt /\
    forall id, clients (server_step st (MarketCap v)) !! id =
      (fun c => if decide (readyState c = OPEN)
                then send (snapshot (server_step st (MarketCap v))) c else c) <$> clients st !! id.
Proof.
  intros Hr Hph. destruct (server_reachable_inv st Hr) as (_ & Hwf & _).
  destruct (determineCompanies_returns (companies st) v (Hwf Hph)) as (cur & nxt & Hdc).
  exists cur, nxt. unfold server_step, server_step_out. rewrite Hph. simpl.
  unfold on_marketcap. rewrite Hdc. simpl.
  repeat split. intros id. apply lookup_broadcastData.
Qed.

(** C8 client_receives_snapshot_then_broadcasts: a client that
    connects to the running server and stays open receives first the
    data current at its connection, then every message the server
    broadcasts afterwards, each once and in order, and nothing
    broadcast before it connected. *)
Theorem client_receives_snapshot_then_broadcasts st es :
  server_reachable st -> phase st = Running ->
  Forall (fun e => e <> ClientClosing (next_client st) /\ e <> ClientClose (next_client st)) es ->
  clients (run_server st (Connection :: es)) !! next_client st =
  Some {| readyState := OPEN;
          sent := snapshot st :: broadcasts (server_step st Connection) es |}.
Proof.
  intros Hr Hph Hes. pose proof (server_reachable_inv st Hr) as Hinv.
  rewrite run_server_cons.
  apply (run_server_open_client (server_step st Connection) es (next_client st) [snapshot st]);
    [by apply server_step_inv| |done].
  unfold server_step, server_step_out. rewrite Hph. apply lookup_insert_eq.
Qed.

(** C29 closed_client_receives_nothing: a socket that has left the
    [OPEN] state is never sent another message, whatever happens next. *)
Theorem closed_client_receives_nothing st es id c c' :
  server_reachable st -> clients st !! id = Some c -> readyState c <> OPEN ->
  clients (run_server st es) !! id = Some c' -> sent c' = sent c.
Proof.
  intros Hr Hid Hop. apply (run_server_closed_client st es id c); [|done..].
  by apply server_reachable_inv.
Qed.

Lemma server_step_failed st e : phase st = Failed -> server_step st e = st.
Proof. intros Hph. unfold server_step, server_step_out. rewrite Hph. by destruct e. Qed.

(** C33 failed_load_stops_server: when the CSV file cannot be read,
    [initServer] exits: the server never listens and no later event
    (connection, market cap) changes its state. *)
Theorem failed_load_stops_server rows es :
  phase (server_step initial_server (CsvLoaded {| csv_rows := rows; csv_ending := ReadFailure |}))
    = Failed /\
  run_server (server_step initial_server (CsvLoaded {| csv_rows := rows; csv_ending := ReadFailure |})) es
    = server_step initial_server (CsvLoaded {| csv_rows := rows; csv_ending := ReadFailure |}).
Proof.
  set (st := server_step initial_server _).
  assert (phase st = Failed) as Hph by reflexivity. split; [done|].
  clearbody st. induction es as [|e es IH]; [done|].
  by rewrite run_server_cons, server_step_failed.
Qed.

Lemma run_server_reachable st es : server_reachable st -> server_reachable (run_server st es).
Proof.
  revert st. induction es as [|e es IH]; intros st Hr; [done|].
  rewrite run_server_cons. apply IH. by constructor.
Qed.

(** ** Sample runs *)

(** The server after loading [sample_source] (Alpha 100, Alpha2 100,
    Gamma 300). *)
Definition sample_running : server_state := server_step initial_server (CsvLoaded sample_source).

Lemma sample_running_reachable : server_reachable sample_running.
Proof. apply server_next, server_init. Qed.

(** Then a client connects and a market cap of 150 arrives. *)
Definition sample_after : server_state :=
  run_server sample_running [Connection; MarketCap (Fin 150)].

Lemma sample_after_reachable : server_reachable sample_after.
Proof. apply run_server_reachable, sample_running_reachable. Qed.

(** A market cap emitted before the
    CSV file is loaded finds no listener on the emitter and is lost: a
    client connecting after the load is sent the "no data" message
    (every field [null]) although a value was computed. *)
Example marketcap_before_load_lost :
  clients (run_server initial_server [MarketCap (Fin 5000); CsvLoaded sample_source; Connection])
    !! 0%nat =
  Some {| readyState := OPEN;
          sent := [JObj [("cryptoCoinMarketCap"%string, JNull); ("currentCompany"%string, JNull);
                         ("nextUpCompany"%string, JNull)]] |}.
Proof. vm_compute. reflexivity. Qed.

(** ** Witnesses *)

Lemma server_open_clients_synchronized_witness :
  exists c, clients sample_after !! 0%nat = Some c /\ readyState c = OPEN /\
            last (sent c) = Some (snapshot sample_after).
Proof.
  destruct (clients sample_after !! 0%nat) as [c|] eqn:Hc; [|vm_compute in Hc; discriminate].
  exists c. assert (readyState c = OPEN) as Hop.
  { vm_compute in Hc. injection Hc as <-. reflexivity. }
  split; [reflexivity|]. split; [exact Hop|].
  exact (server_open_clients_synchronized sample_after 0%nat c sample_after_reachable Hc Hop).
Defined.

Lemma server_state_consistent_witness :
  determineCompanies (companies sample_after) (Fin 150) =
  Returns (currentCompany sample_after, nextUpCompany sample_after).
Proof.
  pose proof (server_state_consistent sample_after sample_after_reachable) as H.
  exact H.
Defined.

Lemma connection_sends_snapshot_witness :
  clients sample_running !! next_client sample_running = None /\
  clients (server_step sample_running Connection) !! next_client sample_running =
    Some {| readyState := OPEN; sent := [snapshot sample_running] |} /\
  forall id, id <> next_client sample_running ->
    clients (server_step sample_running Connection) !! id = clients sample_running !! id.
Proof. apply connection_sends_snapshot; [apply sample_running_reachable|reflexivity]. Defined.

Lemma marketcap_broadcast_witness :
  exists cur nxt, determineCompanies (companies sample_running) (Fin 150) = Returns (cur, nxt) /\
    cryptoMarketCap (server_step sample_running (MarketCap (Fin 150))) = Some (Fin 150) /\
    currentCompany (server_step sample_running (MarketCap (Fin 150))) = cur /\
    nextUpCompany (server_step sample_running (MarketCap (Fin 150))) = nxt /\
    forall id, clients (server_step sample_running (MarketCap (Fin 150))) !! id =
      (fun c => if decide (readyState c = OPEN)
                then send (snapshot (server_step sample_running (MarketCap (Fin 150)))) c else c)
      <$> clients sample_running !! id.
Proof. apply marketcap_broadcast; [apply sample_running_reachable|reflexivity]. Defined.

Lemma client_receives_snapshot_then_broadcasts_witness :
  clients (run_server sample_running [Connection; MarketCap (Fin 150); MarketCap (Fin 400)])
    !! next_client sample_running =
  Some {| readyState := OPEN;
          sent := snapshot sample_running ::
                  broadcasts (server_step sample_running Connection)
                    [MarketCap (Fin 150); MarketCap (Fin 400)] |}.
Proof.
  apply client_receives_snapshot_then_broadcasts; [apply sample_running_reachable|reflexivity|].
  repeat constructor; discriminate.
Defined.

Lemma closed_client_receives_nothing_witness :
  exists c c',
    clients (run_server sample_running [Connection; ClientClosing 0]) !! 0%nat = Some c /\
    clients (run_server (run_server sample_running [Connection; ClientClosing 0])
               [MarketCap (Fin 150)]) !! 0%nat = Some c' /\
    sent c' = sent c.
Proof.
  set (st := run_server sample_running [Connection; ClientClosing 0]).
  destruct (clients st !! 0%nat) as [c|] eqn:Hc; [|vm_compute in Hc; discriminate].
  destruct (clients (run_server st [MarketCap (Fin 150)]) !! 0%nat) as [c'|] eqn:Hc';
    [|vm_compute in Hc'; discriminate].
  exists c, c'. split; [reflexivity|]. split; [reflexivity|].
  apply (closed_client_receives_nothing st [MarketCap (Fin 150)] 0%nat c c');
    [apply run_server_reachable, sample_running_reachable|exact Hc| |exact Hc'].
  vm_compute in Hc. injection Hc as <-. discriminate.
Defined.
