(* ===== verification/Protocol.v ===== *)
(** * The subscriber protocol

    The spec fixes the shape of every message the server sends, on
    connection and on every update:
    [{cryptoCoinMarketCap: number | null,
      currentCompany: {name: string, symbol: string, marketcap: number} | null,
      nextUpCompany: {...} | null}].
    This file writes that shape as a type of JSON values, [message_type],
    and proves that every message on every socket of the running server
    has it, provided the market caps of the store are finite numbers: a
    company whose market cap is [Infinity] (which [loadCSVData] accepts)
    is sent with [marketcap: null], outside the protocol. *)

From S2P Require Import Prelude JsNumber JsParse StableSort Companies Ranking Json Server.
From stdpp Require Import gmap.

(** ** Types of JSON values *)

Inductive jtype : Type :=
| TyNull
| TyNumber
| TyString
| TyObject (fields : list (string * jtype))   (* at least these fields *)
| TyUnion (a b : jtype).

Fixpoint has_type (j : json) (t : jtype) : bool :=
  match t with
  | TyNull => match j with JNull => true | _ => false end
  | TyNumber => match j with JNum _ => true | _ => false end
  | TyString => match j with JStr _ => true | _ => false end
  | TyObject fs =>
      match j with JObj _ => true | _ => false end &&
      (fix fields_ok (fs : list (string * jtype)) : bool :=
         match fs with
         | [] => true
         | (k, tk) :: fs' =>
             match json_get j k with Some v => has_type v tk | None => false end && fields_ok fs'
         end) fs
  | TyUnion a b => has_type j a || has_type j b
  end.

Definition company_type : jtype :=
  TyObject [("name"%string, TyString); ("symbol"%string, TyString); ("marketcap"%string, TyNumber)].

Definition message_type : jtype :=
  TyObject [("cryptoCoinMarketCap"%string, TyUnion TyNumber TyNull);
            ("currentCompany"%string, TyUnion company_type TyNull);
            ("nextUpCompany"%string, TyUnion company_type TyNull)].

Definition is_fin (x : number) : bool := match x with Fin _ => true | _ => false end.

(** ** Lemmas *)

Lemma json_of_company_type c : has_type (json_of_company c) company_type = is_fin (marketcap c).
Proof. unfold json_of_company. by destruct (marketcap c). Qed.

Lemma company_option_type o :
  (forall c, o = Some c -> is_fin (marketcap c) = true) ->
  has_type (json_of_option json_of_company o) (TyUnion company_type TyNull) = true.
Proof.
  destruct o as [c|]; [|done]. intros Hc.
  change (has_type (json_of_company c) company_type || has_type (json_of_company c) TyNull = true).
  by rewrite json_of_company_type, (Hc c eq_refl).
Qed.

Lemma snapshot_type st :
  (forall c, currentCompany st = Some c -> is_fin (marketcap c) = true) ->
  (forall c, nextUpCompany st = Some c -> is_fin (marketcap c) = true) ->
  has_type (snapshot st) message_type = true.
Proof.
  intros Hcur Hnxt.
  pose proof (company_option_type _ Hcur) as H1. pose proof (company_option_type _ Hnxt) as H2.
  change ((has_type (json_of_option json_of_number (cryptoMarketCap st)) (TyUnion TyNumber TyNull) &&
          (has_type (json_of_option json_of_company (currentCompany st)) (TyUnion company_type TyNull) &&
          (has_type (json_of_option json_of_company (nextUpCompany st)) (TyUnion company_type TyNull) &&
           true))) = true).
  rewrite H1, H2. by destruct (cryptoMarketCap st) as [[]|].
Qed.

(** In a reachable state the companies set are entries of the store. *)
Lemma reachable_companies_in_store st :
  server_reachable st ->
  (forall c, currentCompany st = Some c -> c ∈ companies st) /\
  (forall c, nextUpCompany st = Some c -> c ∈ companies st).
Proof.
  intros Hr. destruct (server_reachable_inv st Hr) as (_ & _ & _ & _ & Hcons).
  destruct (cryptoMarketCap st) as [v|].
  - exact (determineCompanies_elem _ _ _ _ Hcons).
  - destruct Hcons as [-> ->]. split; discriminate.
Qed.

(** ** Theorems *)

(** C14 server_messages_typed: while the market caps of the loaded
    store are finite numbers, every message on every socket of the
    server, the data sent on connection and every broadcast, has the
    type the protocol fixes: a number or [null] for the market cap, and
    [null] or an object with a string [name], a string [symbol] and a
    number [marketcap] for each company. *)
Theorem server_messages_typed st id c m :
  server_reachable st -> Forall (fun e => is_fin (marketcap e) = true) (companies st) ->
  clients st !! id = Some c -> m ∈ sent c -> has_type m message_type = true.
Proof.
  intros Hr Hfin Hc Hm.
  destruct (server_reachable_sent st id c m Hr Hc Hm) as (st' & Hr' & Hcs & ->).
  destruct (reachable_companies_in_store st' Hr') as [Hcur Hnxt].
  rewrite Hcs in Hcur, Hnxt. rewrite Forall_forall in Hfin.
  apply snapshot_type; intros e He; apply Hfin; auto.
Qed.

(** A company whose market
    cap is written [Infinity] is loaded, and once it is the current
    company the message carries [marketcap: null], which is not of the
    protocol's type. *)
Example infinite_marketcap_breaks_protocol :
  forallb (fun m => has_type m message_type)
    (default [] (sent <$> clients (run_server initial_server
       [CsvLoaded {| csv_rows := [csv "Big" "B" "Infinity"; csv "Alpha" "A" "100"];
                     csv_ending := EndOfFile |};
        Connection; MarketCap (Fin 500)]) !! 0%nat)) = false.
Proof. vm_compute. reflexivity. Qed.

(** ** Witnesses *)

Lemma server_messages_typed_witness :
  exists c, clients sample_after !! 0%nat = Some c /\
    Forall (fun m => has_type m message_type = true) (sent c).
Proof.
  destruct (clients sample_after !! 0%nat) as [c|] eqn:Hc; [|vm_compute in Hc; discriminate].
  exists c. split; [reflexivity|]. apply Forall_forall. intros m Hm.
  apply (server_messages_typed sample_after 0%nat c m sample_after_reachable); [|done..].
  vm_compute. repeat constructor.
Defined.
