(* ===== verification/Client.v ===== *)
(** * Presentation: the page of [App.js] and [CompanyCard.js]

    [App.js] holds four pieces of React state (lines 12-15): the market
    cap, the current and the next company, and the copy feedback flag.
    Its [ws.onmessage] handler (lines 25-44) overwrites them from each
    message of the server; the clipboard handler (lines 73-82) sets the
    flag and schedules a timer that clears it.  The page is the record
    [page], the handlers are [onmessage] and [page_step], and what the
    page shows is [render] (lines 101-138), with the headline [main_text]
    and the links to the companies.  [onmessage_text] is the handler on
    the text of a message, [JSON.parse] first.  [CompanyCard] is the
    component of [CompanyCard.js], which [App.js] does not use, with the
    check of its [propTypes].

    Text that the page builds from a value keeps a number as the piece
    [TNum q]: the digits JavaScript prints for it are not modelled, nor
    is [toLocaleString].  React's rendering is modelled as the text it
    shows, with [None] where it throws. *)

From S2P Require Import Prelude JsNumber JsParse StableSort Companies Ranking Json JsonText Server.
From stdpp Require Import gmap.
From Stdlib Require Import Qround.

(** ** Values read from a message *)

(** An operand of [-]: ToNumber of a property read on a parsed message,
    [None] being [undefined]. *)
Definition to_number (o : option json) : number :=
  match o with
  | None => NaN
  | Some JNull => Fin 0
  | Some (JNum q) => Fin q
  | Some (JStr s) => string_to_number s
  | Some (JObj _) => NaN                  (* "[object Object]" *)
  end.

(** [Math.floor] *)
Definition math_floor (x : number) : number :=
  match x with Fin q => Fin (inject_Z (Qfloor q)) | _ => x end.

Inductive text_piece : Type :=
| TStr (s : string)
| TNum (q : Q).                            (* the digits of [q] *)

(** [`${x}`]: ToString of a value read from a message. *)
Definition js_to_string (o : option json) : list text_piece :=
  match o with
  | None => [TStr "undefined"]
  | Some JNull => [TStr "null"]
  | Some (JNum q) => [TNum q]
  | Some (JStr s) => [TStr s]
  | Some (JObj _) => [TStr "[object Object]"]
  end.

(** [{x}] as a React child: [null] and [undefined] show nothing and an
    object makes the render throw. *)
Definition react_child (o : option json) : option (list text_piece) :=
  match o with
  | None | Some JNull => Some []
  | Some (JNum q) => Some [TNum q]
  | Some (JStr s) => Some [TStr s]
  | Some (JObj _) => None
  end.

(** ** State and handlers *)

Record page : Type := {
  pg_cryptoMarketCap : json;       (* useState(15792432) *)
  pg_currentCompany : json;        (* useState(null) *)
  pg_nextUpCompany : json;         (* useState(null) *)
  copied : bool;                   (* useState(false) *)
  pending_timeouts : nat           (* timers of line 77 not yet fired *)
}.

Definition initial_page : page := {|
  pg_cryptoMarketCap := JNum 15792432; pg_currentCompany := JNull;
  pg_nextUpCompany := JNull; copied := false; pending_timeouts := 0
|}.

(** Lines 31-40: a truthy value is stored, anything else as [null]. *)
Definition truthy_or_null (o : option json) : json :=
  match o with Some x => if json_truthy x then x else JNull | None => JNull end.

(** Lines 25-44.  Reading a property of [null] throws a TypeError before
    any state is set, and the [catch] of line 41 only logs it. *)
Definition onmessage (p : page) (data : json) : page :=
  match data with
  | JNull => p
  | _ => {|
      pg_cryptoMarketCap :=
        match json_get data "cryptoCoinMarketCap" with
        | Some x => x
        | None => pg_cryptoMarketCap p
        end;
      pg_currentCompany := truthy_or_null (json_get data "currentCompany");
      pg_nextUpCompany := truthy_or_null (json_get data "nextUpCompany");
      copied := copied p; pending_timeouts := pending_timeouts p |}
  end.

(** What happens to the page: a message on the socket, the promise of
    [navigator.clipboard.writeText] settling (lines 74-81), or a timer
    of line 77 firing.  Timers fire in the order they were set. *)
(** Lines 25-44 on the text of the message: [JSON.parse] first, whose
    SyntaxError the [catch] of line 41 logs, the state unchanged. *)
Definition onmessage_text (p : page) (t : list ascii) : page :=
  match JSON_parse t with Some data => onmessage p data | None => p end.

Inductive page_event : Type :=
| WsMessage (data : json)
| ClipboardWritten
| ClipboardFailed
| CopiedTimeout.

Definition page_step (p : page) (e : page_event) : page :=
  match e with
  | WsMessage data => onmessage p data
  | ClipboardWritten => {|
      pg_cryptoMarketCap := pg_cryptoMarketCap p; pg_currentCompany := pg_currentCompany p;
      pg_nextUpCompany := pg_nextUpCompany p;
      copied := true; pending_timeouts := S (pending_timeouts p) |}
  | ClipboardFailed => p
  | CopiedTimeout =>
      match pending_timeouts p with
      | O => p
      | S n => {|
          pg_cryptoMarketCap := pg_cryptoMarketCap p; pg_currentCompany := pg_currentCompany p;
          pg_nextUpCompany := pg_nextUpCompany p; copied := false; pending_timeouts := n |}
      end
  end.

Definition run_page : page -> list page_event -> page := foldl page_step.

Inductive page_reachable : page -> Prop :=
| page_reachable_initial : page_reachable initial_page
| page_reachable_step p e : page_reachable p -> page_reachable (page_step p e).

(** The messages among the events. *)
Fixpoint ws_messages (evs : list page_event) : list json :=
  match evs with
  | [] => []
  | WsMessage d :: evs' => d :: ws_messages evs'
  | _ :: evs' => ws_messages evs'
  end.

(** ** What the page shows *)

(** The headline of lines 101-105: the [Math.floor] of the difference,
    before [toLocaleString] and the [$] in front. *)
Inductive headline : Type :=
| WaitingForBond
| AwayBy (amount : number).

Definition main_text (p : page) : headline :=
  if negb (json_truthy (pg_cryptoMarketCap p)) || negb (json_truthy (pg_currentCompany p))
  then WaitingForBond
  else AwayBy (math_floor (to_number (json_get (pg_currentCompany p) "marketcap") -js
                           to_number (Some (pg_cryptoMarketCap p)))).

(** Lines 65-67 *)
Definition getYahooFinanceURL (symbol : option json) : list text_piece :=
  TStr "https://finance.yahoo.com/quote/" :: js_to_string symbol ++ [TStr "/"].

Record link : Type := {
  link_href : list text_piece;
  link_label : list text_piece;              (* aria-label and title *)
  link_text : option (list text_piece)
}.

(** The anchor of lines 112-121 and 127-136. *)
Definition company_link (c : json) : link := {|
  link_href := getYahooFinanceURL (json_get c "symbol");
  link_label := TStr "View " :: js_to_string (json_get c "name") ++ [TStr " on Yahoo Finance"];
  link_text := react_child (json_get c "name")
|}.

Record view : Type := {
  view_headline : headline;
  view_current : option link;                (* "AWAY FROM VAMPING:" line *)
  view_next : option link;                   (* "NEXT UP:" line *)
  view_copied : bool                         (* "COPIED TO CLIPBOARD" *)
}.

(** Lines 95-209, the parts that depend on the state. *)
Definition render (p : page) : view := {|
  view_headline := main_text p;
  view_current := if json_truthy (pg_currentCompany p) then Some (company_link (pg_currentCompany p)) else None;
  view_next := if json_truthy (pg_nextUpCompany p) then Some (company_link (pg_nextUpCompany p)) else None;
  view_copied := copied p
|}.

(** ** [CompanyCard.js] *)

Record card : Type := {
  card_class : string;
  card_heading : list text_piece;
  card_link : link;
  card_delta : option (list text_piece)      (* before " away from vamping." *)
}.

(** Lines 7-30: nothing for a falsy [company]. *)
Definition CompanyCard (title : string) (company : json) : option card :=
  if negb (json_truthy company) then None
  else Some {|
    card_class := ("company-card " ++
                   if String.eqb title "Currently Vamping" then "current" else "next-up")%string;
    card_heading := [TStr title; TStr ":"];
    card_link := {|
      link_href := getYahooFinanceURL (json_get company "symbol");
      link_label := TStr "View " :: js_to_string (json_get company "name") ++ [TStr " on Yahoo Finance"];
      link_text := ts ← react_child (json_get company "name");
                   ts' ← react_child (json_get company "symbol");
                   Some (ts ++ TStr " (" :: ts' ++ [TStr ")"]) |};
    card_delta := react_child (json_get company "delta")
  |}.

(** Lines 32-39: the props PropTypes checks in development builds.  An
    absent or [null] [company] passes, the shape not being required; an
    object fails on each required field that is absent, [null] or of
    another type.  The result is the list of props PropTypes warns
    about. *)
Inductive prop_type : Type := PString | PNumber.

Definition prop_ok (t : prop_type) (o : option json) : bool :=
  match o, t with
  | Some (JStr _), PString => true
  | Some (JNum _), PNumber => true
  | _, _ => false
  end.

Definition company_shape : list (string * prop_type) :=
  [("name"%string, PString); ("symbol"%string, PString); ("delta"%string, PNumber)].

Definition CompanyCard_propTypes (company : json) : list string :=
  match company with
  | JNull => []
  | JObj _ =>
      (fun kt => ("company." ++ kt.1)%string) <$>
        List.filter (fun kt => negb (prop_ok kt.2 (json_get company kt.1))) company_shape
  | _ => ["company"%string]
  end.

(** ** The data part of the page, as the server holds it *)

Definition page_data (p : page) : json * json * json :=
  (pg_cryptoMarketCap p, pg_currentCompany p, pg_nextUpCompany p).

Definition server_data (st : server_state) : json * json * json :=
  (json_of_option json_of_number (cryptoMarketCap st),
   json_of_option json_of_company (currentCompany st),
   json_of_option json_of_company (nextUpCompany st)).

(** ** Lemmas *)

Lemma json_get_company c :
  json_get (json_of_company c) "name" = Some (JStr (name c)) /\
  json_get (json_of_company c) "symbol" = Some (JStr (symbol c)) /\
  json_get (json_of_company c) "marketcap" = Some (json_of_number (marketcap c)).
Proof. done. Qed.

Lemma truthy_or_null_company o :
  truthy_or_null (Some (json_of_option json_of_company o)) = json_of_option json_of_company o.
Proof. by destruct o. Qed.

(** A message of the server overwrites the whole data of the page. *)
Lemma onmessage_snapshot p st : page_data (onmessage p (snapshot st)) = server_data st.
Proof.
  unfold onmessage, snapshot, page_data, server_data. cbn -[json_of_option truthy_or_null].
  by rewrite !truthy_or_null_company.
Qed.

Lemma page_step_data p e : (forall d, e <> WsMessage d) -> page_data (page_step p e) = page_data p.
Proof.
  intros He. destruct e as [d| | |]; [by destruct (He d)|done|done|].
  simpl. by destruct (pending_timeouts p).
Qed.

Lemma ws_messages_app l1 l2 : ws_messages (l1 ++ l2) = ws_messages l1 ++ ws_messages l2.
Proof. induction l1 as [|[] l1 IH]; simpl; by rewrite ?IH. Qed.

Lemma run_page_snoc p evs e : run_page p (evs ++ [e]) = page_step (run_page p evs) e.
Proof. unfold run_page. by rewrite foldl_app. Qed.

(** The data of the page is that of the last message it received. *)
Lemma run_page_last_message p evs st :
  last (ws_messages evs) = Some (snapshot st) -> page_data (run_page p evs) = server_data st.
Proof.
  induction evs as [|e evs IH] using rev_ind; [discriminate|].
  rewrite run_page_snoc, ws_messages_app.
  destruct e as [d| | |]; cbn [ws_messages]; rewrite ?app_nil_r;
    [rewrite last_snoc; intros [= ->]; apply onmessage_snapshot|..];
    intros H; rewrite page_step_data by discriminate; auto.
Qed.

(** The headline as a function of the data of the page. *)
Lemma main_text_server p st :
  page_data p = server_data st ->
  main_text p =
  match cryptoMarketCap st, currentCompany st with
  | Some (Fin q), Some cur =>
      if Qeq_bool q 0 then WaitingForBond
      else AwayBy (math_floor (to_number (Some (json_of_number (marketcap cur))) -js Fin q))
  | _, _ => WaitingForBond
  end.
Proof.
  destruct p as [pc pcur pn cp pt]. unfold page_data, server_data, main_text. simpl.
  intros [= -> -> ->].
  destruct (cryptoMarketCap st) as [[| | |q]|], (currentCompany st) as [cur|]; simpl;
    rewrite ?orb_true_r; try done.
  by destruct (Qeq_bool q 0).
Qed.

(** A page whose socket is open holds the server's current data. *)
Lemma synchronized_page_data st id c p evs :
  server_reachable st -> clients st !! id = Some c -> readyState c = OPEN ->
  ws_messages evs = sent c -> page_data (run_page p evs) = server_data st.
Proof.
  intros Hr Hc Hopen Hm. destruct (server_reachable_inv st Hr) as (_ & _ & _ & Hlast & _).
  apply run_page_last_message. rewrite Hm. eauto.
Qed.

Lemma render_current p st :
  page_data p = server_data st ->
  view_current (render p) = (fun cur => company_link (json_of_company cur)) <$> currentCompany st /\
  view_next (render p) = (fun nx => company_link (json_of_company nx)) <$> nextUpCompany st.
Proof.
  destruct p as [pc pcur pn cp pt]. unfold page_data, server_data, render. simpl.
  intros [= -> -> ->]. by destruct (currentCompany st), (nextUpCompany st).
Qed.

Lemma Qfloor_nonneg x : (0 <= x)%Q -> (0 <= inject_Z (Qfloor x))%Q.
Proof.
  intros Hx. apply Qfloor_resp_le in Hx. change 0%Q with (inject_Z 0).
  rewrite <- Zle_Qle. exact Hx.
Qed.

(** Every copy feedback has a timer pending that will clear it. *)
Lemma copied_pending p : page_reachable p -> copied p = true -> (0 < pending_timeouts p)%nat.
Proof.
  induction 1 as [|p e _ IH]; [discriminate|].
  destruct e as [[]| | |]; simpl; try exact IH; [lia|].
  destruct (pending_timeouts p) eqn:E; simpl; [rewrite E; exact IH|discriminate].
Qed.

Lemma run_page_timeouts p n :
  (n <= pending_timeouts p)%nat ->
  copied (run_page p (replicate n CopiedTimeout)) = (if decide (n = 0%nat) then copied p else false) /\
  pending_timeouts (run_page p (replicate n CopiedTimeout)) = (pending_timeouts p - n)%nat.
Proof.
  revert p. induction n as [|n IH]; intros p Hn; [simpl; split; [done|lia]|].
  destruct p as [pc pcur pn cp [|k]]; simpl in *; [lia|].
  destruct (IH {| pg_cryptoMarketCap := pc; pg_currentCompany := pcur;
                  pg_nextUpCompany := pn; copied := false; pending_timeouts := k |}) as [H1 H2];
    simpl; [lia|]. unfold run_page in *. simpl. rewrite H1, H2.
  split; [by destruct (decide (n = 0%nat))|done].
Qed.

Lemma ws_messages_fmap l : ws_messages (WsMessage <$> l) = l.
Proof. induction l as [|m l IH]; [done|]. cbn. by f_equal. Qed.

Lemma run_page_reachable p evs : page_reachable p -> page_reachable (run_page p evs).
Proof.
  revert p. induction evs as [|e evs IH]; intros p Hp; [done|].
  apply (IH (page_step p e)). by constructor.
Qed.

(** Reading the texts of messages is reading the messages, when
    [JSON.parse] gives every value back. *)
Lemma foldl_onmessage_text `{NumberText} p l :
  Forall (fun m => numbers_ok m = true) l ->
  foldl onmessage_text p (stringify <$> l) = run_page p (WsMessage <$> l).
Proof.
  revert p. induction l as [|m l IH]; intros p Hl; [done|].
  apply Forall_cons in Hl as [Hm Hl]. cbn [fmap list_fmap foldl].
  unfold onmessage_text at 2. rewrite parse_stringify by done. apply IH, Hl.
Qed.

(** ** Theorems *)

(** C9 client_view_synchronized: a page whose socket to the running
    server is open holds the server's current data
    [{cryptoCoinMarketCap, currentCompany, nextUpCompany}], whatever it
    held before and whatever clipboard events came between the
    messages, and shows a link to exactly the server's current and next
    companies. *)
Theorem client_view_synchronized st id c p evs :
  server_reachable st -> clients st !! id = Some c -> readyState c = OPEN ->
  ws_messages evs = sent c ->
  page_data (run_page p evs) = server_data st /\
  view_current (render (run_page p evs)) =
    (fun cur => company_link (json_of_company cur)) <$> currentCompany st /\
  view_next (render (run_page p evs)) =
    (fun nx => company_link (json_of_company nx)) <$> nextUpCompany st.
Proof.
  intros Hr Hc Hopen Hm.
  pose proof (synchronized_page_data st id c p evs Hr Hc Hopen Hm) as Hd.
  split; [exact Hd|]. by apply render_current.
Qed.

(** C13 client_text_synchronized: the same holds of the texts on the
    wire: a page that applies [JSON.parse] and [ws.onmessage] to the
    [JSON.stringify] texts of the messages its open socket was sent
    holds the server's current data, when Number::toString covers the
    numbers of those messages. *)
Theorem client_text_synchronized `{NumberText} st id c p :
  server_reachable st -> clients st !! id = Some c -> readyState c = OPEN ->
  Forall (fun m => numbers_ok m = true) (sent c) ->
  page_data (foldl onmessage_text p (stringify <$> sent c)) = server_data st.
Proof.
  intros Hr Hc Hopen Hn. rewrite foldl_onmessage_text by done.
  apply (synchronized_page_data st id c p _ Hr Hc Hopen), ws_messages_fmap.
Qed.

(** C10 headline_synchronized: the headline of a synchronized page is
    "WAITING FOR BOND..." unless the server holds a current company and
    a market cap that is a finite non-zero number; it is then the floor
    of the current company's market cap minus the market cap, with an
    infinite company market cap (sent as [null]) read as [0]. *)
Theorem headline_synchronized st id c p evs :
  server_reachable st -> clients st !! id = Some c -> readyState c = OPEN ->
  ws_messages evs = sent c ->
  view_headline (render (run_page p evs)) =
  match cryptoMarketCap st, currentCompany st with
  | Some (Fin q), Some cur =>
      if Qeq_bool q 0 then WaitingForBond
      else AwayBy (math_floor (to_number (Some (json_of_number (marketcap cur))) -js Fin q))
  | _, _ => WaitingForBond
  end.
Proof.
  intros Hr Hc Hopen Hm. apply main_text_server.
  exact (synchronized_page_data st id c p evs Hr Hc Hopen Hm).
Qed.

(** C28 headline_nonnegative: when the market cap is a finite
    non-zero number, the store's market caps are finite and some company
    is worth at least the market cap, a synchronized page shows a
    distance [>= 0]: the current company is never below the value. *)
Theorem headline_nonnegative st id c p evs q :
  server_reachable st -> clients st !! id = Some c -> readyState c = OPEN ->
  ws_messages evs = sent c ->
  cryptoMarketCap st = Some (Fin q) -> ~ (q == 0)%Q ->
  Forall (fun e => exists m, marketcap e = Fin m) (companies st) ->
  (exists e, e ∈ companies st /\ Fin q <=js marketcap e = true) ->
  exists r, view_headline (render (run_page p evs)) = AwayBy (Fin r) /\ (0 <= r)%Q.
Proof.
  intros Hr Hc Hopen Hm Hv Hq Hfin (e & He & Hle).
  pose proof (synchronized_page_data st id c p evs Hr Hc Hopen Hm) as Hd.
  change (view_headline (render (run_page p evs))) with (main_text (run_page p evs)).
  rewrite (main_text_server _ _ Hd), Hv.
  destruct (server_reachable_inv st Hr) as (_ & _ & _ & _ & Hcons). rewrite Hv in Hcons.
  assert (companies st <> []) as Hne by (intros Hnil; rewrite Hnil in He; set_solver).
  destruct (determineCompanies_current_gen (companies st) (Fin q)
              (server_reachable_store_wf st Hr) Hne eq_refl)
    as (cur & nx & Hdc & Hcur & [(Hcurle & _) | (Hall & _)]).
  - rewrite Hcons in Hdc. injection Hdc as Hcc _. rewrite Hcc.
    apply Forall_forall with (x := cur) in Hfin as [m Hm']; [|done].
    rewrite Hm' in Hcurle |- *. destruct (Qeq_bool_reflect q 0); [done|].
    eexists; split; [reflexivity|]. apply Qfloor_nonneg.
    unfold num_le in Hcurle. simpl in Hcurle. qcase; simpl in Hcurle; [discriminate|lra].
  - exfalso. pose proof (Hall e He) as Hlt. rewrite (num_le_not_lt _ _ Hle) in Hlt. discriminate.
Qed.

(** C36 copy_feedback_disappears: on every reachable page, once the
    timers already set have fired, "COPIED TO CLIPBOARD" is hidden. *)
Theorem copy_feedback_disappears p :
  page_reachable p ->
  view_copied (render (run_page p (replicate (pending_timeouts p) CopiedTimeout))) = false.
Proof.
  intros Hr. destruct (run_page_timeouts p (pending_timeouts p) ltac:(lia)) as [H _].
  simpl. rewrite H. case_decide as Hn; [|done].
  destruct (copied p) eqn:Hc; [|done]. pose proof (copied_pending p Hr Hc). lia.
Qed.

(** Given a company object as the
    server sends it, [CompanyCard] renders its name and symbol and a
    link to its quote page, but an empty delta: the server never sends
    the [delta] field the component's propTypes require, and PropTypes
    warns about exactly that field. *)
Theorem CompanyCard_server_company title c :
  exists cd, CompanyCard title (json_of_company c) = Some cd /\
    link_href (card_link cd) =
      [TStr "https://finance.yahoo.com/quote/"; TStr (symbol c); TStr "/"] /\
    link_text (card_link cd) = Some [TStr (name c); TStr " ("; TStr (symbol c); TStr ")"] /\
    card_delta cd = Some [] /\
    CompanyCard_propTypes (json_of_company c) = ["company.delta"%string].
Proof. eexists. split; [reflexivity|]. done. Qed.

(** ** Whole-system runs *)

(** The messages a connection receives, fed to its page with a copy to
    the clipboard in between. *)
Definition page_of_client (st : server_state) (id : nat) : page :=
  run_page initial_page
    (ClipboardWritten :: (WsMessage <$> default [] (sent <$> clients st !! id))).

(** The server loads the sample file (Alpha
    100, Alpha2 100, Gamma 300, with three invalid rows), a page
    connects and a market cap of 150 is emitted: the page shows 150
    away from Gamma, with no next company. *)
Example end_to_end_scenario :
  view_headline (render (page_of_client sample_after 0)) = AwayBy (Fin 150) /\
  (link_text <$> view_current (render (page_of_client sample_after 0))) = Some (Some [TStr "Gamma"]) /\
  view_next (render (page_of_client sample_after 0)) = None.
Proof. vm_compute. repeat split; reflexivity. Qed.

(** With a market cap above every
    company the current company stays the largest one and the page
    shows a negative distance, [-700] for a value of 1000. *)
Example headline_negative_above_all :
  view_headline (render (page_of_client (run_server sample_running [Connection; MarketCap (Fin 1000)]) 0))
  = AwayBy (Fin (-700)).
Proof. vm_compute. reflexivity. Qed.

(** A row whose market cap is the
    text [Infinity] passes validation ([parseFloat] gives [Infinity],
    which is [>= 0]); [JSON.stringify] sends it as [null], which the
    page subtracts as [0]: a value of 500 shows as [-500] away from that
    company. *)
Example infinite_company_read_as_zero :
  view_headline (render (page_of_client
    (run_server initial_server
       [CsvLoaded {| csv_rows := [csv "Big" "B" "Infinity"; csv "Alpha" "A" "100"];
                     csv_ending := EndOfFile |};
        Connection; MarketCap (Fin 500)]) 0))
  = AwayBy (Fin (-500)).
Proof. vm_compute. reflexivity. Qed.

(** C37 infinite_row_read_as_zero: the row check accepts a market cap
    written [Infinity] ([parseFloat] gives [Infinity], which is not [NaN]
    and is [>= 0]), for every non-empty name and symbol; [JSON.stringify]
    sends such a company's market cap as [null], so a page holding the
    server's data with that company current computes [null - v = -v]
    and shows [Math.floor(-v)] instead of a distance. *)
Theorem infinite_row_read_as_zero nm sy p st cur q :
  nm <> ""%string -> sy <> ""%string ->
  row_company (csv nm sy "Infinity") = Some {| name := nm; symbol := sy; marketcap := PosInf |} /\
  (page_data p = server_data st -> cryptoMarketCap st = Some (Fin q) -> Qeq_bool q 0 = false ->
   currentCompany st = Some cur -> marketcap cur = PosInf ->
   main_text p = AwayBy (Fin (inject_Z (Qfloor (0 - q))))).
Proof.
  intros Hn Hs. split.
  - unfold row_company, csv. cbn [row_Name row_Symbol row_marketcap].
    assert (parseFloat_opt (Some "Infinity"%string) = PosInf) as -> by reflexivity.
    unfold str_truthy. rewrite (proj2 (String.eqb_neq _ _) Hn), (proj2 (String.eqb_neq _ _) Hs).
    reflexivity.
  - intros Hd Hv Hq Hc Hm. rewrite (main_text_server p st Hd), Hv, Hc, Hq, Hm. reflexivity.
Qed.

(** Two copies in a row set two timers;
    the first one hides the feedback while the second copy's timer is
    still pending. *)
Example copy_feedback_cut_short :
  let p := run_page initial_page [ClipboardWritten; ClipboardWritten; CopiedTimeout] in
  view_copied (render p) = false /\ pending_timeouts p = 1%nat.
Proof. split; reflexivity. Qed.

(** ** Witnesses *)

Lemma client_view_synchronized_witness :
  exists c, clients sample_after !! 0%nat = Some c /\ readyState c = OPEN /\
    page_data (page_of_client sample_after 0) = server_data sample_after /\
    view_current (render (page_of_client sample_after 0)) =
      (fun cur => company_link (json_of_company cur)) <$> currentCompany sample_after /\
    view_next (render (page_of_client sample_after 0)) =
      (fun nx => company_link (json_of_company nx)) <$> nextUpCompany sample_after.
Proof.
  destruct (clients sample_after !! 0%nat) as [c|] eqn:Hc; [|vm_compute in Hc; discriminate].
  assert (readyState c = OPEN) as Hop by (vm_compute in Hc; injection Hc as <-; reflexivity).
  exists c. split; [reflexivity|]. split; [exact Hop|].
  unfold page_of_client. rewrite Hc.
  apply (client_view_synchronized sample_after 0%nat c initial_page _ sample_after_reachable Hc Hop).
  simpl. apply ws_messages_fmap.
Defined.

Lemma headline_synchronized_witness :
  exists c, clients sample_after !! 0%nat = Some c /\ readyState c = OPEN /\
    view_headline (render (page_of_client sample_after 0)) =
    match cryptoMarketCap sample_after, currentCompany sample_after with
    | Some (Fin q), Some cur =>
        if Qeq_bool q 0 then WaitingForBond
        else AwayBy (math_floor (to_number (Some (json_of_number (marketcap cur))) -js Fin q))
    | _, _ => WaitingForBond
    end.
Proof.
  destruct (clients sample_after !! 0%nat) as [c|] eqn:Hc; [|vm_compute in Hc; discriminate].
  assert (readyState c = OPEN) as Hop by (vm_compute in Hc; injection Hc as <-; reflexivity).
  exists c. split; [reflexivity|]. split; [exact Hop|].
  unfold page_of_client. rewrite Hc.
  apply (headline_synchronized sample_after 0%nat c initial_page _ sample_after_reachable Hc Hop).
  simpl. apply ws_messages_fmap.
Defined.

Lemma headline_nonnegative_witness :
  exists c, clients sample_after !! 0%nat = Some c /\ readyState c = OPEN /\
    exists r, view_headline (render (page_of_client sample_after 0)) = AwayBy (Fin r) /\ (0 <= r)%Q.
Proof.
  destruct (clients sample_after !! 0%nat) as [c|] eqn:Hc; [|vm_compute in Hc; discriminate].
  assert (readyState c = OPEN) as Hop by (vm_compute in Hc; injection Hc as <-; reflexivity).
  exists c. split; [reflexivity|]. split; [exact Hop|].
  unfold page_of_client. rewrite Hc.
  apply (headline_nonnegative sample_after 0%nat c initial_page _ 150 sample_after_reachable Hc Hop).
  - simpl. apply ws_messages_fmap.
  - vm_compute. reflexivity.
  - vm_compute. discriminate.
  - vm_compute. repeat constructor; eexists; reflexivity.
  - exists (mkc "Gamma" "G" 300). split; [vm_compute; set_solver|vm_compute; reflexivity].
Defined.

Lemma copy_feedback_disappears_witness :
  view_copied (render (run_page (run_page initial_page [ClipboardWritten; ClipboardWritten])
    (replicate (pending_timeouts (run_page initial_page [ClipboardWritten; ClipboardWritten]))
       CopiedTimeout))) = false.
Proof.
  apply copy_feedback_disappears, run_page_reachable, page_reachable_initial.
Defined.

Lemma client_text_synchronized_witness :
  exists c, clients sample_after !! 0%nat = Some c /\ readyState c = OPEN /\
    Forall (fun m => numbers_ok m = true) (sent c) /\
    page_data (foldl onmessage_text initial_page (stringify <$> sent c)) = server_data sample_after.
Proof.
  destruct (clients sample_after !! 0%nat) as [c|] eqn:Hc; [|vm_compute in Hc; discriminate].
  assert (readyState c = OPEN) as Hop by (vm_compute in Hc; injection Hc as <-; reflexivity).
  assert (Forall (fun m => numbers_ok m = true) (sent c)) as Hn
    by (vm_compute in Hc; injection Hc as <-; repeat constructor).
  exists c. split; [reflexivity|]. split; [exact Hop|]. split; [exact Hn|].
  exact (client_text_synchronized sample_after 0%nat c initial_page sample_after_reachable Hc Hop Hn).
Defined.

(** The file of [infinite_company_read_as_zero]: [Big] at [Infinity]
    is the current company for a value of [500]. *)
Definition infinite_store_server : server_state :=
  run_server initial_server
    [CsvLoaded {| csv_rows := [csv "Big" "B" "Infinity"; csv "Alpha" "A" "100"];
                  csv_ending := EndOfFile |};
     Connection; MarketCap (Fin 500)].

Lemma infinite_row_read_as_zero_witness :
  exists cur, page_data (page_of_client infinite_store_server 0) = server_data infinite_store_server /\
    cryptoMarketCap infinite_store_server = Some (Fin 500) /\ Qeq_bool 500 0 = false /\
    currentCompany infinite_store_server = Some cur /\ marketcap cur = PosInf /\
    row_company (csv "Big" "B" "Infinity") = Some {| name := "Big"; symbol := "B"; marketcap := PosInf |} /\
    main_text (page_of_client infinite_store_server 0) = AwayBy (Fin (inject_Z (Qfloor (0 - 500)))).
Proof.
  destruct (currentCompany infinite_store_server) as [cur|] eqn:Hc; [|vm_compute in Hc; discriminate].
  assert (marketcap cur = PosInf) as Hm by (vm_compute in Hc; injection Hc as <-; reflexivity).
  assert (page_data (page_of_client infinite_store_server 0) = server_data infinite_store_server)
    as Hd by (vm_compute; reflexivity).
  destruct (infinite_row_read_as_zero "Big" "B" (page_of_client infinite_store_server 0)
              infinite_store_server cur 500 ltac:(discriminate) ltac:(discriminate)) as [Hrow Hpage].
  exists cur. split; [exact Hd|]. split; [reflexivity|]. split; [reflexivity|].
  split; [reflexivity|]. split; [exact Hm|]. split; [exact Hrow|].
  exact (Hpage Hd eq_refl eq_refl Hc Hm).
Defined.
