(* ===== verification/HeadlineText.v ===== *)
(** * The headline's text: [toLocaleString] of the distance

    Line 104 of [App.js] shows [$] followed by
    [Math.floor(currentCompany.marketcap - cryptoMarketCap).toLocaleString()].
    [Client] keeps the number ([main_text]); this file writes the text:
    [Number.prototype.toLocaleString] in the [en-US] locale prints an
    integer as its decimal digits with a comma between groups of three,
    counted from the right, and a [-] in front when negative.  The
    digits are those of [JsonText.int_text].  The lemma
    [toLocaleString_roundtrip] shows that the text names an integer
    exactly: without its commas it is read back by the JSON number
    grammar as the same integer, and its groups after the first have
    three digits.  The theorem [headline_text_server] applies it to the
    page: a page holding the server's data shows [$] and the text of
    [Math.floor(m - q)] for the current company's [m] and the market
    cap [q].

    The locale is the browser's; [en-US] is assumed.  Numbers that are
    not integers never reach [toLocaleString] here, [Math.floor] coming
    first; for them the text is not modelled ([None]). *)

From S2P Require Import Prelude JsNumber JsParse StableSort Companies Ranking Json JsonText Server Client.
From Stdlib Require Import Qround.

(** ** Grouping *)

(** The digits in groups of three from the left. *)
Fixpoint chunks3 (ds : list ascii) : list (list ascii) :=
  match ds with
  | a :: b :: c :: rest => [a; b; c] :: chunks3 rest
  | [] => []
  | _ => [ds]
  end.

(** The length of the leading group: what is left over by the groups of
    three counted from the right, or a whole group. *)
Definition lead_len (n : nat) : nat :=
  match (n mod 3)%nat with O => 3%nat | k => k end.

Definition group_thousands (ds : list ascii) : list ascii :=
  let k := lead_len (length ds) in
  take k ds ++ concat ((cons ","%char) <$> chunks3 (drop k ds)).

(** An integer in [en-US]. *)
Definition locale_int (z : Z) : list ascii :=
  (if (z <? 0)%Z then ["-"%char] else []) ++ group_thousands (int_text (Z.abs z)).

(** The infinity sign U+221E in UTF-8. *)
Definition infinity_sign : list ascii :=
  [Ascii false true false false false true true true;
   Ascii false false false true false false false true;
   Ascii false true true true true false false true].

Definition toLocaleString (x : number) : option (list ascii) :=
  match x with
  | NaN => Some ["N"; "a"; "N"]%char
  | PosInf => Some infinity_sign
  | NegInf => Some ("-"%char :: infinity_sign)
  | Fin q => if (Qden q =? 1)%positive then Some (locale_int (Qnum q)) else None
  end.

(** Lines 101-105 as text. *)
Definition headline_text (p : page) : option (list ascii) :=
  match main_text p with
  | WaitingForBond => Some (list_ascii_of_string "WAITING FOR BOND...")
  | AwayBy x => cons "$"%char <$> toLocaleString x
  end.

Definition strip_commas (t : list ascii) : list ascii :=
  List.filter (fun c => negb (c =? ","%char)%char) t.

(** ** Lemmas *)

Lemma mod3_step k : (S (S (S k)) mod 3 = k mod 3)%nat.
Proof. replace (S (S (S k))) with (k + 1 * 3)%nat by lia. apply Nat.Div0.mod_add. Qed.

Lemma chunks3_spec n ds :
  (length ds <= n)%nat -> (length ds mod 3 = 0)%nat ->
  concat (chunks3 ds) = ds /\ Forall (fun g => length g = 3%nat) (chunks3 ds).
Proof.
  revert ds. induction n as [|n IH]; intros ds Hn Hm.
  - destruct ds; [done|cbn in Hn; lia].
  - destruct ds as [|a [|b [|c rest]]]; try done.
    cbn [length] in Hn, Hm. rewrite mod3_step in Hm.
    destruct (IH rest ltac:(lia) Hm) as [Hc Hf]. cbn. rewrite Hc. split; [done|by constructor].
Qed.

Lemma lead_len_spec n :
  (1 <= n)%nat -> (1 <= lead_len n <= 3)%nat /\ (lead_len n <= n)%nat /\ ((n - lead_len n) mod 3 = 0)%nat.
Proof.
  intros Hn. unfold lead_len. pose proof (Nat.div_mod_eq n 3) as Hd.
  pose proof (Nat.mod_upper_bound n 3 ltac:(lia)) as Hb.
  destruct (n mod 3) as [|[|[|r]]] eqn:Hr; [| | |lia].
  - replace (n - 3)%nat with ((n / 3 - 1) * 3)%nat by lia. rewrite Nat.Div0.mod_mul. lia.
  - replace (n - 1)%nat with ((n / 3) * 3)%nat by lia. rewrite Nat.Div0.mod_mul. lia.
  - replace (n - 2)%nat with ((n / 3) * 3)%nat by lia. rewrite Nat.Div0.mod_mul. lia.
Qed.

(** The grouped digits: a leading group of one to three, then groups of
    three, each after a comma. *)
Lemma group_thousands_shape ds :
  ds <> [] ->
  exists first groups, group_thousands ds = first ++ concat ((cons ","%char) <$> groups) /\
    (1 <= length first <= 3)%nat /\ Forall (fun g => length g = 3%nat) groups /\
    first ++ concat groups = ds.
Proof.
  intros Hne. assert (1 <= length ds)%nat by (destruct ds; [done|cbn; lia]).
  destruct (lead_len_spec (length ds)) as (Hk & Hkn & Hm); [done|].
  destruct (chunks3_spec (length (drop (lead_len (length ds)) ds)) (drop (lead_len (length ds)) ds))
    as [Hc Hf]; [done|by rewrite length_drop|].
  exists (take (lead_len (length ds)) ds), (chunks3 (drop (lead_len (length ds)) ds)).
  split; [done|]. rewrite length_take. split; [lia|]. split; [done|]. by rewrite Hc, take_drop.
Qed.

Lemma strip_commas_app t1 t2 : strip_commas (t1 ++ t2) = strip_commas t1 ++ strip_commas t2.
Proof. apply List.filter_app. Qed.

Lemma strip_commas_id t : Forall (fun c => c <> ","%char) t -> strip_commas t = t.
Proof.
  unfold strip_commas. induction 1 as [|c t Hc _ IH]; [done|]. cbn.
  destruct (Ascii.eqb_spec c ","%char); [done|]. cbn. by rewrite IH.
Qed.

Lemma strip_commas_groups gs :
  strip_commas (concat ((cons ","%char) <$> gs)) = strip_commas (concat gs).
Proof.
  induction gs as [|g gs IH]; [done|]. rewrite fmap_cons. cbn [concat].
  rewrite !strip_commas_app, IH. done.
Qed.

(** The text of [|z|]: decimal digits, none of them a comma. *)
Lemma int_text_abs z :
  int_text (Z.abs z) <> [] /\ Forall (fun c => c <> ","%char) (int_text (Z.abs z)) /\
  int_text z = (if (z <? 0)%Z then ["-"%char] else []) ++ int_text (Z.abs z).
Proof.
  destruct (Z_digits_spec (Z.to_nat (Z.log2 (Z.abs z))) (Z.abs z)) as (c & cs & Hds & Hc & Hcs & _).
  { split; [lia|]. apply log2_fuel. lia. }
  unfold int_text. rewrite Z.abs_idemp, Hds.
  replace (Z.abs z <? 0)%Z with false by (symmetry; apply Z.ltb_ge; lia).
  split; [done|]. split; [|by case_if].
  constructor; [intros ->; discriminate|].
  eapply Forall_impl; [exact Hcs|]. intros d Hd ->. discriminate.
Qed.

(** ** Theorems *)

(** The headline names the distance
    exactly: for every integer [z], [z.toLocaleString()] is a [-] when
    [z] is negative, then a group of one to three digits and groups of
    three digits each after a comma; without its commas the text is
    read back as [z] itself. *)
Theorem toLocaleString_roundtrip z :
  exists t, toLocaleString (Fin (inject_Z z)) = Some t /\
    parse_json_number (strip_commas t) = Some (inject_Z z, []) /\
    exists first groups,
      t = (if (z <? 0)%Z then ["-"%char] else []) ++ first ++ concat ((cons ","%char) <$> groups) /\
      (1 <= length first <= 3)%nat /\ Forall (fun g => length g = 3%nat) groups.
Proof.
  destruct (int_text_abs z) as (Hne & Hnc & Hsign).
  destruct (group_thousands_shape _ Hne) as (first & groups & Hg & Hlen & Hgs & Hcat).
  exists (locale_int z). split; [reflexivity|]. split.
  - unfold locale_int. rewrite strip_commas_app, Hg, strip_commas_app, strip_commas_groups,
      <- strip_commas_app, Hcat, (strip_commas_id _ Hnc), strip_commas_id by (case_if; repeat constructor; discriminate).
    rewrite <- Hsign, <- (app_nil_r (int_text z)). apply int_text_read. done.
  - exists first, groups. unfold locale_int. rewrite Hg. done.
Qed.

(** The headline of a page holding the server's data. *)
Lemma headline_text_server_eq p st cur m q :
  page_data p = server_data st -> cryptoMarketCap st = Some (Fin q) -> Qeq_bool q 0 = false ->
  currentCompany st = Some cur -> marketcap cur = Fin m ->
  headline_text p = Some ("$"%char :: locale_int (Qfloor (m - q))).
Proof.
  intros Hd Hv Hq Hc Hm. unfold headline_text.
  rewrite (main_text_server p st Hd), Hv, Hc, Hq, Hm. reflexivity.
Qed.

(** C20 headline_text_server: a page holding the server's data, with a
    non-zero market cap [q] and a current company worth [m], shows [$]
    and a text that names [Math.floor(m - q)] exactly: a [-] when it is
    negative, a group of one to three digits and groups of three after
    commas, which without the commas read back as [Math.floor(m - q)]. *)
Theorem headline_text_server p st cur m q :
  page_data p = server_data st -> cryptoMarketCap st = Some (Fin q) -> Qeq_bool q 0 = false ->
  currentCompany st = Some cur -> marketcap cur = Fin m ->
  exists t, headline_text p = Some ("$"%char :: t) /\
    parse_json_number (strip_commas t) = Some (inject_Z (Qfloor (m - q)), []) /\
    exists first groups,
      t = (if (Qfloor (m - q) <? 0)%Z then ["-"%char] else []) ++ first ++
          concat ((cons ","%char) <$> groups) /\
      (1 <= length first <= 3)%nat /\ Forall (fun g => length g = 3%nat) groups.
Proof.
  intros Hd Hv Hq Hc Hm.
  destruct (toLocaleString_roundtrip (Qfloor (m - q))) as (t & Ht & Hr & Hg).
  exists t. rewrite (headline_text_server_eq p st cur m q Hd Hv Hq Hc Hm).
  cbn in Ht. injection Ht as <-. done.
Qed.

(** ** Witnesses *)

(** [-1234567] prints as [-1,234,567]. *)
Lemma toLocaleString_roundtrip_witness :
  toLocaleString (Fin (inject_Z (-1234567))) = Some ["-"; "1"; ","; "2"; "3"; "4"; ","; "5"; "6"; "7"]%char /\
  exists t, toLocaleString (Fin (inject_Z (-1234567))) = Some t /\
    parse_json_number (strip_commas t) = Some (inject_Z (-1234567), []) /\
    exists first groups,
      t = (if (-1234567 <? 0)%Z then ["-"%char] else []) ++ first ++ concat ((cons ","%char) <$> groups) /\
      (1 <= length first <= 3)%nat /\ Forall (fun g => length g = 3%nat) groups.
Proof. split; [vm_compute; reflexivity|]. exact (toLocaleString_roundtrip (-1234567)). Defined.

Lemma headline_text_server_witness :
  exists cur, page_data (page_of_client sample_after 0) = server_data sample_after /\
    cryptoMarketCap sample_after = Some (Fin 150) /\ Qeq_bool 150 0 = false /\
    currentCompany sample_after = Some cur /\ marketcap cur = Fin 300 /\
    exists t, headline_text (page_of_client sample_after 0) = Some ("$"%char :: t) /\
    parse_json_number (strip_commas t) = Some (inject_Z (Qfloor (300 - 150)), []) /\
    exists first groups,
      t = (if (Qfloor (300 - 150) <? 0)%Z then ["-"%char] else []) ++ first ++
          concat ((cons ","%char) <$> groups) /\
      (1 <= length first <= 3)%nat /\ Forall (fun g => length g = 3%nat) groups.
Proof.
  destruct (currentCompany sample_after) as [cur|] eqn:Hc; [|vm_compute in Hc; discriminate].
  assert (marketcap cur = Fin 300) as Hm by (vm_compute in Hc; injection Hc as <-; reflexivity).
  assert (page_data (page_of_client sample_after 0) = server_data sample_after) as Hd
    by (vm_compute; reflexivity).
  exists cur. split; [exact Hd|]. split; [reflexivity|]. split; [reflexivity|].
  split; [reflexivity|]. split; [exact Hm|].
  exact (headline_text_server _ sample_after cur 300 150 Hd eq_refl eq_refl Hc Hm).
Defined.
