(* ===== verification/Interaction.v ===== *)
(** * The page's interaction: socket life, identifier box, scrolling

    Around the state of [Client] the page of [App.js] has an effect and
    three handlers.  The effect of lines 17-58 opens the WebSocket once,
    after the first render, logs its open, close and error events, and
    closes it when the component unmounts; it never opens another.  The
    identifier box (lines 141-154) calls [copyToClipboard] (lines 73-82)
    on a click and on the Enter key, with the identifier it displays;
    the promise of [navigator.clipboard.writeText] settles later, and
    only then does [page_step] of [Client] set the feedback flag.  The
    scroll indicator (lines 165-172) calls [scrollToManifesto] (lines
    87-93), which looks the section up by its id.

    [app] is the component with its socket, its clipboard writes not yet
    settled and what it has scrolled to; [app_step] composes [page_step]
    with these handlers.  The theorems show that the clipboard only
    ever receives the identifier the box displays, that the feedback is
    shown only once it is there, and that a page whose socket has closed
    is never updated again. *)

From S2P Require Import Prelude JsNumber Json Client.
From stdpp Require Import gmap.

(** ** The static document *)

(** The identifier displayed in the box, line 153. *)
Definition box_text : string := "2bq3iV4Sn8GV9E6CZbadP4NHofhgkDfMk2F77Epcpump".

Record anchor : Type := {
  a_href : string;
  a_label : string;              (* aria-label *)
  a_new_tab : bool               (* target="_blank" rel="noopener noreferrer" *)
}.

(** The anchors of lines 160-172, below the box. *)
Definition section1_anchors : list anchor := [
  {| a_href := "#socials"; a_label := "Join"; a_new_tab := false |};
  {| a_href := "#manifesto"; a_label := "Scroll down to Manifesto"; a_new_tab := false |}
]%string.

(** The anchors of lines 199-204. *)
Definition social_anchors : list anchor := [
  {| a_href := "https://x.com/i/communities/1876718589308207508"; a_label := "Twitter";
     a_new_tab := true |};
  {| a_href := "https://discord.gg/ymfyxZkW"; a_label := "Discord"; a_new_tab := true |}
]%string.

(** The anchors that do not depend on the state, in document order. *)
Definition static_anchors : list anchor := section1_anchors ++ social_anchors.

(** The ids of the document, lines 177 and 193. *)
Definition element_ids : list string := ["manifesto"; "socials"]%string.

(** [document.getElementById]. *)
Definition getElementById (id : string) : option string :=
  find (String.eqb id) element_ids.

(** The fragment an in-page [href] names. *)
Definition in_page_target (href : string) : option string :=
  match href with
  | String "#" id => Some id
  | _ => None
  end.

(** ** State and handlers *)

Inductive ws_phase : Type :=
| Unmounted        (* before the effect runs *)
| WsConnecting     (* [new WebSocket(...)], line 19 *)
| WsOpen           (* after [onopen], line 21 *)
| WsClosed.        (* after [onclose] or the cleanup's [ws.close()] *)

Record app : Type := {
  app_page : page;
  app_ws : ws_phase;
  writes : list string;          (* [writeText] promises not settled, oldest first *)
  clipboard : option string;     (* what the page last wrote to the clipboard *)
  scrolled_to : option string    (* the element last scrolled into view *)
}.

Definition initial_app : app := {|
  app_page := initial_page; app_ws := Unmounted; writes := [];
  clipboard := None; scrolled_to := None
|}.

Definition with_page (a : app) (p : page) : app := {|
  app_page := p; app_ws := app_ws a; writes := writes a;
  clipboard := clipboard a; scrolled_to := scrolled_to a
|}.

Definition with_ws (a : app) (w : ws_phase) : app := {|
  app_page := app_page a; app_ws := w; writes := writes a;
  clipboard := clipboard a; scrolled_to := scrolled_to a
|}.

(** Line 74: [navigator.clipboard.writeText(text)] starts. *)
Definition copyToClipboard (a : app) (text : string) : app := {|
  app_page := app_page a; app_ws := app_ws a; writes := writes a ++ [text];
  clipboard := clipboard a; scrolled_to := scrolled_to a
|}.

(** Line 143. *)
Definition onClick (a : app) : app :=
  copyToClipboard a "2bq3iV4Sn8GV9E6CZbadP4NHofhgkDfMk2F77Epcpump".

(** Lines 147-151. *)
Definition onKeyPress (a : app) (key : string) : app :=
  if String.eqb key "Enter" then copyToClipboard a "2bq3iV4Sn8GV9E6CZbadP4NHofhgkDfMk2F77Epcpump"
  else a.

(** Lines 75-81: the oldest write settles; its [then] sets the flag and
    the timer of line 77, its [catch] only logs. *)
Definition settle (a : app) (ok : bool) : app :=
  match writes a with
  | [] => a
  | t :: ts => {|
      app_page := page_step (app_page a) (if ok then ClipboardWritten else ClipboardFailed);
      app_ws := app_ws a; writes := ts;
      clipboard := if ok then Some t else clipboard a; scrolled_to := scrolled_to a |}
  end.

(** Lines 87-93; [e.preventDefault()] keeps the browser from following
    the [href]. *)
Definition scrollToManifesto (a : app) : app :=
  match getElementById "manifesto" with
  | Some id => {|
      app_page := app_page a; app_ws := app_ws a; writes := writes a;
      clipboard := clipboard a; scrolled_to := Some id |}
  | None => a
  end.

Inductive app_event : Type :=
| Mount                       (* the effect of lines 17-58 runs *)
| SocketOpen                  (* onopen, lines 21-23 *)
| SocketMessage (data : json) (* onmessage, lines 25-44 *)
| SocketError                 (* onerror, lines 50-52 *)
| SocketClose                 (* onclose, lines 46-48 *)
| Unmount                     (* the cleanup, lines 55-57 *)
| BoxClick                    (* line 143 *)
| BoxKeyPress (key : string)  (* lines 147-151 *)
| WriteSettled (ok : bool)    (* a writeText promise settles *)
| CopiedTimer                 (* the timer of line 77 fires *)
| ScrollClick.                (* line 169 *)

(** A socket delivers messages only while it is open; the effect runs
    once, its dependency list being empty. *)
Definition app_step (a : app) (e : app_event) : app :=
  match e with
  | Mount => match app_ws a with Unmounted => with_ws a WsConnecting | _ => a end
  | SocketOpen => match app_ws a with WsConnecting => with_ws a WsOpen | _ => a end
  | SocketMessage d => match app_ws a with WsOpen => with_page a (page_step (app_page a) (WsMessage d)) | _ => a end
  | SocketError => a
  | SocketClose | Unmount => match app_ws a with Unmounted => a | _ => with_ws a WsClosed end
  | BoxClick => onClick a
  | BoxKeyPress k => onKeyPress a k
  | WriteSettled ok => settle a ok
  | CopiedTimer => with_page a (page_step (app_page a) CopiedTimeout)
  | ScrollClick => scrollToManifesto a
  end.

Definition run_app : app -> list app_event -> app := foldl app_step.

Inductive app_reachable : app -> Prop :=
| app_init : app_reachable initial_app
| app_next a e : app_reachable a -> app_reachable (app_step a e).

(** What holds on every reachable page: every pending write carries the
    identifier the box displays, the clipboard holds nothing the page
    wrote or that identifier, and the feedback is shown only when it is
    there. *)
Definition app_inv (a : app) : Prop :=
  Forall (fun t => t = box_text) (writes a) /\
  (clipboard a = None \/ clipboard a = Some box_text) /\
  (copied (app_page a) = true -> clipboard a = Some box_text).

(** ** Lemmas *)

Lemma copied_page_step p e :
  copied (page_step p e) = true -> copied p = true \/ e = ClipboardWritten.
Proof.
  intros Hc. destruct e as [d| | |]; [left|by right|left..].
  - destruct d; exact Hc.
  - exact Hc.
  - cbn in Hc. by destruct (pending_timeouts p).
Qed.

Lemma app_inv_copy a t : app_inv a -> t = box_text -> app_inv (copyToClipboard a t).
Proof.
  intros (Hw & Hc & Hcp) ->. split; [|by split]. apply Forall_app. by split; [|constructor].
Qed.

Lemma app_inv_settle a ok : app_inv a -> app_inv (settle a ok).
Proof.
  intros Hinv. unfold settle. destruct (writes a) as [|t ts] eqn:Hws; [done|].
  destruct Hinv as (Hw & Hc & Hcp). rewrite Hws in Hw. apply Forall_cons in Hw as [-> Hw].
  split; [done|]. destruct ok; cbn; [split; auto|].
  split; [done|exact Hcp].
Qed.

Lemma app_inv_with_page a e :
  app_inv a -> e <> ClipboardWritten -> app_inv (with_page a (page_step (app_page a) e)).
Proof.
  intros (Hw & Hc & Hcp) He. split; [done|]. split; [done|].
  intros [Hp|Hp]%copied_page_step; [auto|done].
Qed.

Lemma app_step_inv a e : app_inv a -> app_inv (app_step a e).
Proof.
  intros Hinv. destruct e as [| |d| | | | |k|ok| |]; cbn [app_step];
    try (destruct (app_ws a); try apply app_inv_with_page; done).
  all: try by apply app_inv_copy.
  all: try by apply app_inv_settle.
  all: try by apply app_inv_with_page.
  unfold onKeyPress. destruct (String.eqb k "Enter"); [by apply app_inv_copy|done].
Qed.

Lemma app_reachable_inv a : app_reachable a -> app_inv a.
Proof.
  induction 1 as [|a e _ IH]; [|by apply app_step_inv].
  split; [constructor|]. split; [by left|discriminate].
Qed.

(** A closed socket stays closed, and nothing else changes the data. *)
Lemma app_step_closed a e :
  app_ws a = WsClosed ->
  app_ws (app_step a e) = WsClosed /\ page_data (app_page (app_step a e)) = page_data (app_page a).
Proof.
  intros Hws. destruct e as [| |d| | | | |k|ok| |]; cbn [app_step]; rewrite ?Hws; try done.
  all: try (unfold onKeyPress; by destruct (String.eqb k "Enter")).
  all: try (split; [done|]; by apply page_step_data).
  unfold settle. destruct (writes a); [done|]. split; [done|].
  apply page_step_data. by destruct ok.
Qed.

Lemma run_app_reachable a evs : app_reachable a -> app_reachable (run_app a evs).
Proof.
  revert a. induction evs as [|e evs IH]; intros a Ha; [done|]. apply IH. by constructor.
Qed.

(** ** Theorems *)

(** C16 clipboard_holds_identifier: on every page, whatever the user
    clicks or types and however the clipboard writes settle, the page
    writes to the clipboard only the identifier its box displays, and
    "COPIED TO CLIPBOARD" is shown only once the clipboard holds it. *)
Theorem clipboard_holds_identifier a :
  app_reachable a ->
  (clipboard a = None \/ clipboard a = Some box_text) /\
  (view_copied (render (app_page a)) = true -> clipboard a = Some box_text).
Proof. intros Hr. destruct (app_reachable_inv a Hr) as (_ & Hc & Hcp). by split. Qed.

(** C17 closed_socket_final: the page never reconnects: once its
    socket has closed (the server went away, or the component
    unmounted), no event ever changes the market cap or the companies
    it shows. *)
Theorem closed_socket_final a evs :
  app_ws a = WsClosed ->
  app_ws (run_app a evs) = WsClosed /\ page_data (app_page (run_app a evs)) = page_data (app_page a).
Proof.
  revert a. induction evs as [|e evs IH]; intros a Hws; [done|].
  destruct (app_step_closed a e Hws) as [Hws' Hd]. destruct (IH _ Hws') as [H1 H2].
  split; [exact H1|]. unfold run_app in *. cbn [foldl]. by rewrite H2, Hd.
Qed.

(** Every in-page link of the page names an
    element of the document and every other link opens in a new tab;
    the scroll indicator's handler, in every state, brings the
    manifesto section into view. *)
Theorem page_links_resolve :
  Forall (fun an => match in_page_target (a_href an) with
                    | Some id => getElementById id = Some id
                    | None => a_new_tab an = true
                    end) static_anchors /\
  forall a, scrolled_to (app_step a ScrollClick) = Some "manifesto"%string.
Proof. split; [repeat constructor|reflexivity]. Qed.

(** ** Witnesses *)

(** The page mounted and connected, the box clicked, a key other than
    Enter and then Enter pressed, and the first write done. *)
Definition sample_app : app :=
  run_app initial_app [Mount; SocketOpen; BoxClick; BoxKeyPress "a"; BoxKeyPress "Enter";
                       WriteSettled true].

Lemma clipboard_holds_identifier_witness :
  app_reachable sample_app /\ view_copied (render (app_page sample_app)) = true /\
  clipboard sample_app = Some box_text.
Proof.
  assert (app_reachable sample_app) as Hr by (apply run_app_reachable; constructor).
  split; [exact Hr|]. split; [reflexivity|].
  exact (proj2 (clipboard_holds_identifier sample_app Hr) eq_refl).
Defined.

Lemma closed_socket_final_witness :
  let a := run_app sample_app [SocketClose] in
  app_ws a = WsClosed /\
  page_data (app_page (run_app a [SocketOpen; SocketMessage (JObj [("cryptoCoinMarketCap"%string, JNum 1)])]))
    = page_data (app_page a).
Proof.
  intros a. assert (app_ws a = WsClosed) as Hws by reflexivity.
  split; [exact Hws|]. exact (proj2 (closed_socket_final a _ Hws)).
Defined.
