(* ===== verification/System.v ===== *)
(** * The system: market-cap feed, server and pages together

    [getmarketcaps.js] emits each market cap on [marketCapEmitter],
    whose listener in [server.js] (lines 178-201) runs inside the
    [emit] call, so a feed tick and the broadcast it causes are one
    step.  Each browser that opens the page connects a WebSocket to
    the server (App.js line 19) and reads the texts the server wrote on
    that socket one at a time, in order, with [ws.onmessage] (App.js
    lines 25-44), after [JSON.stringify] on the server (line 139) and
    [JSON.parse] in the page (line 27).

    A [system] holds the feed's price cache, the server state and, for
    each socket, the page of the browser at its other end with the
    number of texts it has read.  [sys_step] interleaves the feed
    ticks, the loading of the CSV file, connections, sockets closing and
    the delivery of one text to one page in any order.  The invariant
    [sys_inv] says that every page is the fold of [onmessage_text] over
    the texts it has read so far, a prefix of what its socket was sent.
    The theorems show that a page only ever shows data the server held,
    and that once its open socket has delivered every text, it shows
    the server's current data. *)

From S2P Require Import Prelude JsNumber JsParse StableSort Companies Ranking MarketCap Json JsonText Server Client.
From stdpp Require Import gmap.

(** ** State and events *)

(** The browser at the other end of a socket. *)
Record browser : Type := {
  br_page : page;
  delivered : nat            (* the texts of the socket read so far *)
}.

Record system : Type := {
  sys_cache : price_cache;   (* [priceCache] of getmarketcaps.js *)
  sys_server : server_state; (* the module state of server.js *)
  sys_pages : gmap nat browser
}.

Inductive sys_event : Type :=
| Feed (e : feed_event)      (* a timer callback of initMarketCapUpdates completes *)
| Load (src : csv_source)    (* loadCSVData settles *)
| Connect                    (* a browser opens the page and its socket connects *)
| Closing (id : nat)         (* socket [id] leaves OPEN *)
| Close (id : nat)           (* socket [id] leaves wss.clients *)
| Deliver (id : nat).        (* the next text of socket [id] reaches its page *)

Definition initial_system : system :=
  {| sys_cache := initial_cache; sys_server := initial_server; sys_pages := ∅ |}.

Definition fresh_browser : browser := {| br_page := initial_page; delivered := 0 |}.

Section Step.
Context `{NumberText}.
Variable cfg : config.

(** [marketCapEmitter.emit('marketcap', v)] runs the server's listener
    at once. *)
Definition emit (st : server_state) (out : option number) : server_state :=
  match out with Some v => server_step st (MarketCap v) | None => st end.

(** A connection reaches the handler only once [server.listen] runs;
    before, the browser's socket fails and its page gets nothing. *)
Definition connect_pages (st : server_state) (pgs : gmap nat browser) : gmap nat browser :=
  match phase st with
  | Running => <[next_client st := fresh_browser]> pgs
  | _ => pgs
  end.

Definition deliver (s : system) (id : nat) : system :=
  match sys_pages s !! id, clients (sys_server s) !! id with
  | Some b, Some c =>
      match sent c !! delivered b with
      | Some m =>
          {| sys_cache := sys_cache s; sys_server := sys_server s;
             sys_pages := <[id := {| br_page := onmessage_text (br_page b) (stringify m);
                                     delivered := S (delivered b) |}]> (sys_pages s) |}
      | None => s
      end
  | _, _ => s
  end.

Definition with_server (s : system) (st : server_state) : system :=
  {| sys_cache := sys_cache s; sys_server := st; sys_pages := sys_pages s |}.

Definition sys_step (s : system) (e : sys_event) : system :=
  match e with
  | Feed fe =>
      let '(cache, out) := feed_step cfg (sys_cache s) fe in
      {| sys_cache := cache; sys_server := emit (sys_server s) out; sys_pages := sys_pages s |}
  | Load src => with_server s (server_step (sys_server s) (CsvLoaded src))
  | Connect =>
      {| sys_cache := sys_cache s; sys_server := server_step (sys_server s) Connection;
         sys_pages := connect_pages (sys_server s) (sys_pages s) |}
  | Closing id => with_server s (server_step (sys_server s) (ClientClosing id))
  | Close id => with_server s (server_step (sys_server s) (ClientClose id))
  | Deliver id => deliver s id
  end.

Definition run_system : system -> list sys_event -> system := foldl sys_step.

Inductive sys_reachable : system -> Prop :=
| sys_init : sys_reachable initial_system
| sys_next s e : sys_reachable s -> sys_reachable (sys_step s e).

(** The page that has read the first [k] texts of a socket. *)
Definition page_after (l : list json) (k : nat) : page :=
  foldl onmessage_text initial_page (stringify <$> take k l).

Definition sys_inv (s : system) : Prop :=
  server_reachable (sys_server s) /\
  (forall id b, sys_pages s !! id = Some b -> (id < next_client (sys_server s))%nat) /\
  (forall id c, clients (sys_server s) !! id = Some c ->
     exists b, sys_pages s !! id = Some b /\ (delivered b <= length (sent c))%nat /\
       br_page b = page_after (sent c) (delivered b)).

(** ** Lemmas *)

(** A server step extends the texts of every socket it keeps, except
    the socket a connection creates. *)
Lemma server_step_sent_prefix st e id c' :
  server_inv st -> clients (server_step st e) !! id = Some c' ->
  (exists c, clients st !! id = Some c /\ sent c `prefix_of` sent c') \/
  (phase st = Running /\ e = Connection /\ id = next_client st).
Proof.
  intros (Hload & _) Hc. unfold server_step, server_step_out in *.
  destruct (phase st) eqn:Hph, e as [src| |j|j|v]; cbn [fst] in *;
    try (left; exists c'; split; [exact Hc|reflexivity]).
  - destruct (Hload eq_refl) as [Hcls _].
    destruct (loadCSVData src) as [[]| |]; cbn in Hc; by rewrite Hcls, lookup_empty in Hc.
  - destruct (decide (id = next_client st)) as [->|Hne]; [by right|].
    cbn in Hc. rewrite lookup_insert_ne in Hc by done. left. exists c'. by split.
  - cbn in Hc. apply lookup_alter_Some in Hc as [(-> & c0 & Hc0 & ->)|(_ & Hc)];
      left; eexists; (split; [eassumption|reflexivity]).
  - cbn in Hc. apply lookup_delete_Some in Hc as [_ Hc]. left. exists c'. by split.
  - unfold on_marketcap in *. destruct (determineCompanies (companies st) v) as [[cur nxt]| |];
      cbn in Hc; try (left; exists c'; by split).
    apply lookup_fmap_Some in Hc as (c0 & <- & Hc0). left. exists c0. split; [done|].
    destruct (decide (readyState c0 = OPEN)); [by eexists|done].
Qed.

Lemma take_prefix {A} (l1 l2 : list A) k :
  l1 `prefix_of` l2 -> (k <= length l1)%nat -> take k l1 = take k l2.
Proof. intros [r ->] Hk. by rewrite take_app_le. Qed.

Lemma page_after_snoc l k m :
  l !! k = Some m -> page_after l (S k) = onmessage_text (page_after l k) (stringify m).
Proof.
  intros Hm. unfold page_after. by rewrite (take_S_r _ _ m), fmap_app, foldl_app.
Qed.

(** A step of the server alone, other than a connection it accepts. *)
Lemma sys_inv_server s e cache :
  sys_inv s -> ~ (phase (sys_server s) = Running /\ e = Connection) ->
  sys_inv {| sys_cache := cache; sys_server := server_step (sys_server s) e;
             sys_pages := sys_pages s |}.
Proof.
  intros (Hr & Hids & Hpg) Hne. split; [by constructor|]. split; cbn.
  - intros id b Hb. pose proof (server_step_next_mono (sys_server s) e).
    specialize (Hids id b Hb). lia.
  - intros id c' Hc'.
    destruct (server_step_sent_prefix _ _ _ _ (server_reachable_inv _ Hr) Hc')
      as [(c & Hc & Hpre)|?]; [|tauto].
    destruct (Hpg id c Hc) as (b & Hb & Hle & Hp). exists b.
    pose proof (prefix_length _ _ Hpre). split; [done|]. split; [lia|].
    rewrite Hp. unfold page_after. by rewrite (take_prefix _ _ _ Hpre Hle).
Qed.

Lemma sys_inv_connect s cache :
  sys_inv s -> phase (sys_server s) = Running ->
  sys_inv {| sys_cache := cache; sys_server := server_step (sys_server s) Connection;
             sys_pages := <[next_client (sys_server s) := fresh_browser]> (sys_pages s) |}.
Proof.
  destruct s as [cache0 st pgs]. intros (Hr & Hids & Hpg) Hph.
  cbn [sys_server sys_pages] in *.
  split; [by constructor|].
  assert (server_step st Connection = on_connection st) as ->
    by (unfold server_step, server_step_out; by rewrite Hph).
  unfold on_connection. split; cbn [sys_server sys_pages clients next_client].
  - intros id b Hb. destruct (decide (id = next_client st)) as [->|Hne]; [lia|].
    rewrite lookup_insert_ne in Hb by congruence. specialize (Hids _ _ Hb). lia.
  - intros id c Hc. destruct (decide (id = next_client st)) as [->|Hne].
    + rewrite lookup_insert_eq in Hc. injection Hc as <-.
      exists fresh_browser. rewrite lookup_insert_eq. cbn. split; [done|]. split; [lia|done].
    + rewrite lookup_insert_ne in Hc by done. rewrite lookup_insert_ne by congruence.
      by apply Hpg.
Qed.

Lemma sys_inv_deliver s id : sys_inv s -> sys_inv (deliver s id).
Proof.
  intros Hinv. unfold deliver.
  destruct (sys_pages s !! id) as [b|] eqn:Hb; [|exact Hinv].
  destruct (clients (sys_server s) !! id) as [c|] eqn:Hc; [|exact Hinv].
  destruct (sent c !! delivered b) as [m|] eqn:Hm; [|exact Hinv].
  destruct Hinv as (Hr & Hids & Hpg). split; [done|]. split; cbn.
  - intros j b' Hb'. destruct (decide (j = id)) as [->|Hne]; [by apply (Hids id b)|].
    rewrite lookup_insert_ne in Hb' by congruence. by apply (Hids j b').
  - intros j c' Hc'. destruct (decide (j = id)) as [->|Hne]; [|rewrite lookup_insert_ne by congruence; by apply Hpg].
    rewrite Hc in Hc'. injection Hc' as <-.
    destruct (Hpg id c Hc) as (b0 & Hb0 & Hle & Hp). rewrite Hb in Hb0. injection Hb0 as <-.
    eexists. rewrite lookup_insert_eq. split; [done|]. cbn [br_page delivered].
    pose proof (lookup_lt_Some _ _ _ Hm). split; [lia|].
    by rewrite (page_after_snoc _ _ m Hm), Hp.
Qed.

Lemma sys_step_inv s e : sys_inv s -> sys_inv (sys_step s e).
Proof.
  destruct s as [cache st pgs]. intros Hinv.
  assert (forall e', ~ (phase st = Running /\ e' = Connection) ->
    sys_inv {| sys_cache := cache; sys_server := server_step st e'; sys_pages := pgs |}) as Hsrv
    by (intros e'; apply (sys_inv_server _ e' cache Hinv)).
  destruct e as [fe|src| |id|id|id]; cbn [sys_step with_server sys_cache sys_server sys_pages];
    try (apply Hsrv; intros [_ ?]; discriminate).
  - destruct (feed_step cfg cache fe) as [cache' [v|]]; cbn [emit]; [|exact Hinv].
    apply (sys_inv_server _ _ cache' Hinv). intros [_ ?]; discriminate.
  - unfold connect_pages. destruct (phase st) eqn:Hph.
    1, 3: apply Hsrv; intros [? _]; discriminate.
    by apply (sys_inv_connect {| sys_cache := cache; sys_server := st; sys_pages := pgs |}).
  - by apply sys_inv_deliver.
Qed.

Lemma sys_reachable_inv s : sys_reachable s -> sys_inv s.
Proof.
  induction 1 as [|s e _ IH]; [|by apply sys_step_inv].
  split; [constructor|]. split; intros ?? Hl; cbn in Hl; by rewrite lookup_empty in Hl.
Qed.

Lemma run_system_reachable s es : sys_reachable s -> sys_reachable (run_system s es).
Proof.
  revert s. induction es as [|e es IH]; intros s Hs; [done|]. apply IH. by constructor.
Qed.

(** Delivering the next [n] texts of a socket reads them, the rest of the
    system unchanged. *)
Lemma deliver_run s id c b n :
  sys_inv s -> clients (sys_server s) !! id = Some c -> sys_pages s !! id = Some b ->
  (delivered b + n <= length (sent c))%nat ->
  exists b', sys_pages (run_system s (replicate n (Deliver id))) !! id = Some b' /\
    delivered b' = (delivered b + n)%nat /\
    sys_server (run_system s (replicate n (Deliver id))) = sys_server s.
Proof.
  revert s b. induction n as [|n IH]; intros s b Hinv Hc Hb Hn.
  - exists b. rewrite Nat.add_0_r. by split.
  - destruct (lookup_lt_is_Some_2 (sent c) (delivered b)) as [m Hm]; [lia|].
    unfold run_system. cbn [replicate foldl sys_step]. fold (run_system (deliver s id) (replicate n (Deliver id))).
    assert (deliver s id = {| sys_cache := sys_cache s; sys_server := sys_server s;
      sys_pages := <[id := {| br_page := onmessage_text (br_page b) (stringify m);
                              delivered := S (delivered b) |}]> (sys_pages s) |}) as Hd
      by (unfold deliver; by rewrite Hb, Hc, Hm).
    pose proof (sys_inv_deliver s id Hinv) as Hinv1. rewrite Hd in Hinv1 |- *.
    edestruct (IH _ {| br_page := onmessage_text (br_page b) (stringify m);
                       delivered := S (delivered b) |} Hinv1) as (b' & Hb' & Hdel & Hsrv);
      [exact Hc|cbn [sys_pages]; by rewrite lookup_insert_eq|cbn; lia|].
    exists b'. split; [done|]. split; [cbn in Hdel; lia|done].
Qed.

(** A page that read texts [JSON.parse] gives back ran [ws.onmessage]
    on their values. *)
Lemma page_after_run l k :
  Forall (fun m => numbers_ok m = true) l ->
  page_after l k = run_page initial_page (WsMessage <$> take k l).
Proof. intros Hn. apply foldl_onmessage_text, Forall_take, Hn. Qed.

(** ** Theorems *)

(** C12 system_pages_show_server_data: in every state of the whole
    system, whatever the interleaving of feed ticks, connections,
    closings and deliveries, the page at the end of a socket still in
    the server's set shows its initial data, having read nothing, or
    exactly the data [{cryptoCoinMarketCap, currentCompany,
    nextUpCompany}] of a state the server reached, with the store it
    has now: a page never shows data the server did not hold. *)
Theorem system_pages_show_server_data s id c b :
  sys_reachable s -> clients (sys_server s) !! id = Some c -> sys_pages s !! id = Some b ->
  Forall (fun m => numbers_ok m = true) (sent c) ->
  (delivered b = 0%nat /\ br_page b = initial_page) \/
  exists st', server_reachable st' /\ companies st' = companies (sys_server s) /\
    page_data (br_page b) = server_data st'.
Proof.
  intros Hr Hc Hb Hn. destruct (sys_reachable_inv s Hr) as (Hsr & _ & Hpg).
  destruct (Hpg id c Hc) as (b0 & Hb0 & Hle & Hp). rewrite Hb in Hb0. injection Hb0 as <-.
  destruct (delivered b) as [|k] eqn:Hk; [left; by rewrite Hp|right].
  destruct (lookup_lt_is_Some_2 (sent c) k) as [m Hm]; [lia|].
  destruct (server_reachable_sent _ id c m Hsr Hc) as (st' & Hr' & Hcs & ->);
    [by eapply list_elem_of_lookup_2|].
  exists st'. split; [done|]. split; [done|].
  rewrite Hp, page_after_run by done. apply run_page_last_message.
  rewrite ws_messages_fmap, (take_S_r _ _ _ Hm). apply last_snoc.
Qed.

(** C11 system_page_converges: from every state of the whole system,
    the page at the end of an open socket comes to show the server's
    current data by reading the texts still on its way, and nothing
    else has to happen: delivering them changes neither the server nor
    any other page's socket. *)
Theorem system_page_converges s id c :
  sys_reachable s -> clients (sys_server s) !! id = Some c -> readyState c = OPEN ->
  Forall (fun m => numbers_ok m = true) (sent c) ->
  exists n b, sys_pages (run_system s (replicate n (Deliver id))) !! id = Some b /\
    sys_server (run_system s (replicate n (Deliver id))) = sys_server s /\
    page_data (br_page b) = server_data (sys_server s).
Proof.
  intros Hr Hc Hop Hn. pose proof (sys_reachable_inv s Hr) as Hinv.
  destruct Hinv as (Hsr & Hids & Hpg) eqn:Heq. clear Heq.
  destruct (Hpg id c Hc) as (b & Hb & Hle & _).
  set (n := (length (sent c) - delivered b)%nat).
  destruct (deliver_run s id c b n Hinv Hc Hb) as (b' & Hb' & Hdel & Hsrv); [lia|].
  exists n, b'. split; [done|]. split; [done|].
  destruct (sys_reachable_inv _ (run_system_reachable s (replicate n (Deliver id)) Hr))
    as (_ & _ & Hpg'). rewrite Hsrv in Hpg'.
  destruct (Hpg' id c Hc) as (b'' & Hb'' & _ & Hp). rewrite Hb' in Hb''. injection Hb'' as <-.
  rewrite Hp, Hdel, page_after_run, take_ge by (done || lia).
  apply (synchronized_page_data (sys_server s) id c _ _ Hsr Hc Hop), ws_messages_fmap.
Qed.

End Step.

(** ** Witnesses *)

(** The sample file loaded, one page connected, a price and a tick of the
    feed, and the first text read by the page. *)
Definition sample_system : system :=
  run_system cfg_supply initial_system
    [Load sample_source; Connect; Feed (PriceTick (price_reply (Fin 150)));
     Feed (CalcTick (balance_reply (Fin 1)) (balance_reply (Fin 1))); Deliver 0%nat].

Lemma sample_system_reachable : sys_reachable cfg_supply sample_system.
Proof. apply run_system_reachable. constructor. Qed.

Lemma system_pages_show_server_data_witness :
  exists c b, clients (sys_server sample_system) !! 0%nat = Some c /\
    sys_pages sample_system !! 0%nat = Some b /\ Forall (fun m => numbers_ok m = true) (sent c) /\
    ((delivered b = 0%nat /\ br_page b = initial_page) \/
     exists st', server_reachable st' /\ companies st' = companies (sys_server sample_system) /\
       page_data (br_page b) = server_data st').
Proof.
  destruct (clients (sys_server sample_system) !! 0%nat) as [c|] eqn:Hc;
    [|vm_compute in Hc; discriminate].
  destruct (sys_pages sample_system !! 0%nat) as [b|] eqn:Hb; [|vm_compute in Hb; discriminate].
  assert (Forall (fun m => numbers_ok m = true) (sent c)) as Hn
    by (vm_compute in Hc; injection Hc as <-; repeat constructor).
  exists c, b. split; [reflexivity|]. split; [reflexivity|]. split; [exact Hn|].
  exact (system_pages_show_server_data cfg_supply sample_system 0%nat c b
           sample_system_reachable Hc Hb Hn).
Defined.

Lemma system_page_converges_witness :
  exists c, clients (sys_server sample_system) !! 0%nat = Some c /\ readyState c = OPEN /\
    Forall (fun m => numbers_ok m = true) (sent c) /\
    exists n b,
      sys_pages (run_system cfg_supply sample_system (replicate n (Deliver 0%nat))) !! 0%nat = Some b /\
      sys_server (run_system cfg_supply sample_system (replicate n (Deliver 0%nat))) =
        sys_server sample_system /\
      page_data (br_page b) = server_data (sys_server sample_system).
Proof.
  destruct (clients (sys_server sample_system) !! 0%nat) as [c|] eqn:Hc;
    [|vm_compute in Hc; discriminate].
  assert (readyState c = OPEN) as Hop by (vm_compute in Hc; injection Hc as <-; reflexivity).
  assert (Forall (fun m => numbers_ok m = true) (sent c)) as Hn
    by (vm_compute in Hc; injection Hc as <-; repeat constructor).
  exists c. split; [reflexivity|]. split; [exact Hop|]. split; [exact Hn|].
  exact (system_page_converges cfg_supply sample_system 0%nat c sample_system_reachable Hc Hop Hn).
Defined.
